(** * DrishtiGuide main controller: fall detection and inactivity alert

    Shallow embedding of the fall-detection part of
    [src/esp32-main-controller/main_controller.ino] (the body of [loop()],
    lines 118-167) and of the [FallDetector] interface declared in
    [src/esp32-main-controller/fall_detection.h].

    - [unsigned long] (32 bits on the ESP32) is a [Z] in [0, 2^32); the
      subtraction of two time stamps wraps around ([U32.sub]).
    - [float] is IEEE binary32, [double] is IEEE binary64, both as the
      Standard Library's [spec_float] with its executable operations.
    - One iteration of [loop()] is the function [Controller.loop]: it takes
      the globals and the two values read at the top of the iteration
      ([now = millis()] and [totalAcc]) and returns the new globals together
      with the calls to [startBuzzer] it made.
    - The buzzer automaton, the GPS reader and the web server do not
      influence the detector's globals, and [Controller.loop] leaves them
      out.  The buzzer automaton, the fall time string, the sensor reading
      and the whole iteration are the modules [Buzzer], [TimeString],
      [Accel] and [Firmware].
    - [Receiver] is the callback of the receiver node, and
      [AdvancedTransmitter] the distance filter and the battery level of
      the advanced transmitter. *)

From Stdlib Require Import ZArith List Bool Lia.
From Stdlib Require Import Floats.SpecFloat.
From Stdlib Require Import Permutation Sorted.
From Stdlib Require Ascii String.
Import ListNotations.
Local Open Scope Z_scope.

(* ================================================================== *)
(** ** Definitions *)
(* ================================================================== *)

(** *** 32-bit unsigned time stamps *)

Module U32.

Definition modulus : Z := 2 ^ 32.

(** [a - b] on [unsigned long]. *)
Definition sub (a b : Z) : Z := (a - b) mod modulus.

(** A value an [unsigned long] can hold. *)
Definition inRange (t : Z) : Prop := 0 <= t < modulus.

End U32.

(** *** binary32 and binary64 numbers *)

Module F32.

Definition prec : Z := 24.
Definition emax : Z := 128.
Definition dprec : Z := 53.
Definition demax : Z := 1024.

Definition float : Type := spec_float.
Definition double : Type := spec_float.

(** [a - b] on [float], rounded to nearest even. *)
Definition sub (a b : float) : float := SFsub prec emax a b.

Definition fabs (a : spec_float) : spec_float := SFabs a.

(** [a < b]; false as soon as one side is a NaN. *)
Definition ltb (a b : spec_float) : bool := SFltb a b.
Definition leb (a b : spec_float) : bool := SFleb a b.

(** A well-formed binary32 value (mantissa of at most 24 bits, exponent
    in range). *)
Definition valid (a : float) : bool := valid_binary prec emax a.

(** The implicit conversion [float -> double]; it is exact. *)
Definition widen (a : float) : double :=
  match a with
  | S754_finite s m e =>
      let k := dprec - Zpos (digits2_pos m) in
      if 0 <? k
      then S754_finite s (shift_pos (Z.to_pos k) m) (e - k)
      else binary_normalize dprec demax (cond_Zopp s (Zpos m)) e s
  | _ => a
  end.

(** The conversion [double -> float], rounded to nearest even. *)
Definition narrow (a : double) : float :=
  match a with
  | S754_finite s m e => binary_normalize prec emax (cond_Zopp s (Zpos m)) e s
  | _ => a
  end.

(** The [double] denoted by the decimal literal [n/d] and the [float] it
    initialises. *)
Definition dlit (n d : Z) : double :=
  SFdiv dprec demax (binary_normalize dprec demax n 0 false)
                    (binary_normalize dprec demax d 0 false).

Definition lit (n d : Z) : float := narrow (dlit n d).

End F32.

(** *** The globals and [loop()] of main_controller.ino *)

Module Controller.

Import F32.

(** FALL PARAMS (lines 25-28). *)
Definition FALL_LOW_G : float := Eval vm_compute in lit 3 10.
Definition FALL_HIGH_G : float := Eval vm_compute in lit 28 10.
Definition WINDOW_MS : Z := 300.
Definition COOLDOWN_MS : Z := 1000.

(** The literals of lines 122, 162 and 163.  [0.05] is a [double]; the two
    [10000] are named after [INACTIVITY_TIMEOUT_MS] and
    [INACTIVITY_ALERT_INTERVAL_MS] of the controller's config.h, which hold
    the same values. *)
Definition MOVEMENT_DELTA : double := Eval vm_compute in dlit 5 100.
Definition INACTIVITY_TIMEOUT_MS : Z := 10000.
Definition INACTIVITY_ALERT_INTERVAL_MS : Z := 10000.

(** TIMERS and STATES (lines 31-39) and the static local [lastAcc]
    (line 121). *)
Record State : Type := mkState {
  lastLowTime : Z;
  lastFallTime : Z;
  lastMovementTime : Z;
  lastBuzzToggle : Z;
  inLowWindow : bool;
  fallDetected : bool;
  inactivityTriggered : bool;
  lastAcc : float
}.

(** The initial values of the globals; [lastAcc] starts at the literal
    [1.0]. *)
Definition ONE_G : float := Eval vm_compute in lit 1 1.

Definition boot : State :=
  {| lastLowTime := 0; lastFallTime := 0; lastMovementTime := 0;
     lastBuzzToggle := 0; inLowWindow := false; fallDetected := false;
     inactivityTriggered := false;
     lastAcc := ONE_G |}.

Definition set_lastLowTime (v : Z) (s : State) : State :=
  mkState v (lastFallTime s) (lastMovementTime s) (lastBuzzToggle s)
          (inLowWindow s) (fallDetected s) (inactivityTriggered s) (lastAcc s).
Definition set_lastFallTime (v : Z) (s : State) : State :=
  mkState (lastLowTime s) v (lastMovementTime s) (lastBuzzToggle s)
          (inLowWindow s) (fallDetected s) (inactivityTriggered s) (lastAcc s).
Definition set_lastMovementTime (v : Z) (s : State) : State :=
  mkState (lastLowTime s) (lastFallTime s) v (lastBuzzToggle s)
          (inLowWindow s) (fallDetected s) (inactivityTriggered s) (lastAcc s).
Definition set_lastBuzzToggle (v : Z) (s : State) : State :=
  mkState (lastLowTime s) (lastFallTime s) (lastMovementTime s) v
          (inLowWindow s) (fallDetected s) (inactivityTriggered s) (lastAcc s).
Definition set_inLowWindow (v : bool) (s : State) : State :=
  mkState (lastLowTime s) (lastFallTime s) (lastMovementTime s) (lastBuzzToggle s)
          v (fallDetected s) (inactivityTriggered s) (lastAcc s).
Definition set_fallDetected (v : bool) (s : State) : State :=
  mkState (lastLowTime s) (lastFallTime s) (lastMovementTime s) (lastBuzzToggle s)
          (inLowWindow s) v (inactivityTriggered s) (lastAcc s).
Definition set_inactivityTriggered (v : bool) (s : State) : State :=
  mkState (lastLowTime s) (lastFallTime s) (lastMovementTime s) (lastBuzzToggle s)
          (inLowWindow s) (fallDetected s) v (lastAcc s).
Definition set_lastAcc (v : float) (s : State) : State :=
  mkState (lastLowTime s) (lastFallTime s) (lastMovementTime s) (lastBuzzToggle s)
          (inLowWindow s) (fallDetected s) (inactivityTriggered s) v.

(** What one iteration reads: [now = millis()] and the magnitude
    [totalAcc] (lines 118-119). *)
Record Sample : Type := mkSample { now : Z; totalAcc : float }.

(** What one iteration does to the buzzer: [fallEvent] is the call
    [startBuzzer(2)] of the FALL EVENT block, [inactivityAlert] the call
    [startBuzzer(5)] of the INACTIVITY ALERT block. *)
Record Output : Type := mkOutput { fallEvent : bool; inactivityAlert : bool }.

(** [fabs(totalAcc - lastAcc) > 0.05] (line 122): a [float] difference
    compared with a [double] literal. *)
Definition moved (acc last : float) : bool :=
  ltb MOVEMENT_DELTA (widen (fabs (sub acc last))).

(** Lines 121-126. *)
Definition movementCheck (x : Sample) (s : State) : State :=
  let s1 :=
    if moved (totalAcc x) (lastAcc s)
    then set_inactivityTriggered false (set_lastMovementTime (now x) s)
    else s in
  set_lastAcc (totalAcc x) s1.

(** Lines 128-141, FALL DETECTION. *)
Definition fallDetection (x : Sample) (s : State) : State :=
  if COOLDOWN_MS <? U32.sub (now x) (lastFallTime s) then
    if negb (inLowWindow s) && ltb (totalAcc x) FALL_LOW_G then
      set_lastLowTime (now x) (set_inLowWindow true s)
    else if inLowWindow s then
      let s1 :=
        if ltb FALL_HIGH_G (totalAcc x)
        then set_inLowWindow false (set_fallDetected true s)
        else s in
      if WINDOW_MS <? U32.sub (now x) (lastLowTime s1)
      then set_inLowWindow false s1
      else s1
    else s
  else s.

(** Lines 143-159, FALL EVENT; the boolean tells whether the block ran. *)
Definition fallEventBlock (x : Sample) (s : State) : State * bool :=
  if fallDetected s then
    (set_lastBuzzToggle (now x)
       (set_inactivityTriggered true
          (set_fallDetected false
             (set_lastMovementTime (now x)
                (set_lastFallTime (now x) s)))),
     true)
  else (s, false).

(** Lines 161-167, INACTIVITY ALERT; the boolean tells whether the inner
    block ran. *)
Definition inactivityBlock (x : Sample) (s : State) : State * bool :=
  if inactivityTriggered s
     && (INACTIVITY_TIMEOUT_MS <? U32.sub (now x) (lastMovementTime s)) then
    if INACTIVITY_ALERT_INTERVAL_MS <? U32.sub (now x) (lastBuzzToggle s)
    then (set_lastBuzzToggle (now x) s, true)
    else (s, false)
  else (s, false).

(** One iteration of [loop()]. *)
Definition loop (s : State) (x : Sample) : State * Output :=
  let s1 := movementCheck x s in
  let s2 := fallDetection x s1 in
  let '(s3, fall) := fallEventBlock x s2 in
  let '(s4, alert) := inactivityBlock x s3 in
  (s4, mkOutput fall alert).

(** The globals after a sequence of iterations, and what each did. *)
Fixpoint final (s : State) (l : list Sample) : State :=
  match l with
  | [] => s
  | x :: l' => final (fst (loop s x)) l'
  end.

Fixpoint outputs (s : State) (l : list Sample) : list Output :=
  match l with
  | [] => []
  | x :: l' => snd (loop s x) :: outputs (fst (loop s x)) l'
  end.

(** Predicates on samples and outputs. *)
Definition isLow (x : Sample) : bool := ltb (totalAcc x) FALL_LOW_G.
Definition isHigh (x : Sample) : bool := ltb FALL_HIGH_G (totalAcc x).
Definition noFall (o : Output) : Prop := fallEvent o = false.
Definition noAlert (o : Output) : Prop := inactivityAlert o = false.

(** Time stamps that fit an [unsigned long] and never go back, starting
    not before [t0]. *)
Fixpoint chronological (t0 : Z) (l : list Sample) : bool :=
  match l with
  | [] => true
  | x :: l' => (t0 <=? now x) && (now x <? U32.modulus) && chronological (now x) l'
  end.

(** The globals while a low-g window opened at [T] is pending and the
    last fall was recorded at [F]. *)
Definition pending (T F : Z) (s : State) : Prop :=
  fallDetected s = false /\ inLowWindow s = true
  /\ lastLowTime s = T /\ lastFallTime s = F.

(** The globals while the inactivity timer is armed: the last movement
    was stamped at [T] and the last buzz at [B], and no low-g window is
    open. *)
Definition armed (T B : Z) (s : State) : Prop :=
  fallDetected s = false /\ inLowWindow s = false
  /\ inactivityTriggered s = true
  /\ lastMovementTime s = T /\ lastBuzzToggle s = B.

(** Readings that neither move with respect to their predecessor (the
    first one with respect to [last]) nor drop below [FALL_LOW_G]. *)
Fixpoint still (last : float) (l : list Sample) : bool :=
  match l with
  | [] => true
  | y :: l' => negb (moved (totalAcc y) last) && negb (isLow y)
               && still (totalAcc y) l'
  end.

End Controller.

(** *** The sample traces of the scenarios *)

Module Scenarios.

Import F32 Controller.

Definition g_0_2 : float := Eval vm_compute in lit 2 10.
Definition g_0_25 : float := Eval vm_compute in lit 25 100.
Definition g_3_0 : float := Eval vm_compute in lit 3 1.

(** Scenario A with its first sample at [t0]: 1.0 g, then 0.2 g and
    0.25 g, then 3.0 g, 50 ms apart. *)
Definition scenarioA_from (t0 : Z) : list Sample :=
  [ mkSample t0 ONE_G; mkSample (t0 + 50) g_0_2;
    mkSample (t0 + 100) g_0_25; mkSample (t0 + 150) g_3_0 ].

Definition scenarioA : list Sample := scenarioA_from 0.

(** [n] samples at rest (1.0 g), [period] ms apart, the first one at
    [t0]. *)
Fixpoint atRest (n : nat) (t0 period : Z) : list Sample :=
  match n with
  | O => []
  | S n' => mkSample t0 ONE_G :: atRest n' (t0 + period) period
  end.

End Scenarios.

(** *** The [FallDetector] class of fall_detection.h

  The header declares the class; the bodies of its member functions are
  not part of the sources.  The types below are the header's, the
  operations are modelled from the specification. *)

Module FallDetector.

Import F32.

(** Lines 8-14. *)
Inductive FallDetectionState : Type :=
| FALL_STATE_NORMAL
| FALL_STATE_LOW_G
| FALL_STATE_HIGH_G
| FALL_STATE_DETECTED
| FALL_STATE_COOLDOWN.

Definition state_eqb (a b : FallDetectionState) : bool :=
  match a, b with
  | FALL_STATE_NORMAL, FALL_STATE_NORMAL
  | FALL_STATE_LOW_G, FALL_STATE_LOW_G
  | FALL_STATE_HIGH_G, FALL_STATE_HIGH_G
  | FALL_STATE_DETECTED, FALL_STATE_DETECTED
  | FALL_STATE_COOLDOWN, FALL_STATE_COOLDOWN => true
  | _, _ => false
  end.

(** Lines 17-23. *)
Record FallEvent : Type := mkFallEvent {
  timestamp : Z;
  maxAcceleration : float;
  minAcceleration : float;
  duration : Z;
  isEmergency : bool
}.

(** The private members of lines 27-44, in the header's order; the history
    array is the list of the [accelHistoryCount] magnitudes it holds.
    Modelled from the spec: the two further fields of the inactivity
    tracker ([triggered], [lastAlertTimestamp]), which the header does not
    declare next to [lastMovementTime]. *)
Record Detector : Type := mkDetector {
  currentState : FallDetectionState;
  lastFall : FallEvent;
  lowGStartTime : Z;
  lastFallTime : Z;
  lastMovementTime : Z;
  lowGThreshold : float;
  highGThreshold : float;
  detectionWindow : Z;
  cooldownPeriod : Z;
  accelHistory : list float;
  accelHistoryIndex : Z;
  accelHistoryCount : Z;
  triggered : bool;
  lastAlertTimestamp : Z
}.

(** Modelled from the spec: the zero-valued record that [getLastFall]
    returns while no fall has been recorded. *)
Definition noFallYet : FallEvent :=
  mkFallEvent 0 (S754_zero false) (S754_zero false) 0 false.

(** Modelled from the spec: the body of [FallDetector::reset] is missing;
    it clears the state machine to Normal, the history buffer, the
    last-fall record and the inactivity tracker, and leaves the
    thresholds and timing as configured. *)
Definition reset (d : Detector) : Detector :=
  {| currentState := FALL_STATE_NORMAL;
     lastFall := noFallYet;
     lowGStartTime := 0;
     lastFallTime := 0;
     lastMovementTime := 0;
     lowGThreshold := lowGThreshold d;
     highGThreshold := highGThreshold d;
     detectionWindow := detectionWindow d;
     cooldownPeriod := cooldownPeriod d;
     accelHistory := [];
     accelHistoryIndex := 0;
     accelHistoryCount := 0;
     triggered := false;
     lastAlertTimestamp := 0 |}.

(** Modelled from the spec: the bodies of the three accessors are
    missing; they are introspection without side effects, and the
    detector is in cooldown while its state machine is in the Cooldown
    state. *)
Definition getCurrentState (d : Detector) : FallDetectionState :=
  currentState d.

Definition getLastFall (d : Detector) : FallEvent := lastFall d.

Definition isInCooldown (d : Detector) : bool :=
  state_eqb (currentState d) FALL_STATE_COOLDOWN.

End FallDetector.

(** *** The buzzer automaton of main_controller.ino

  [startBuzzer] and [handleBuzzer] (lines 52-72) on the BUZZER FSM globals
  (lines 42-45) and the level driven on [BUZZER_PIN].  [int] is a [Z];
  [beeps * 2] and [buzzerSteps--] are the mathematical operations, which
  is what the code computes as long as they do not overflow (the callers
  pass 2 and 5).  Every [millis()] is a value of its own: [handleBuzzer]
  reads the clock twice, once for the test of line 62 and once for the
  assignment of line 63.  [digitalRead] of the output pin returns the
  level last written. *)

Module Buzzer.

(** The literal of line 62 ([BUZZER_BEEP_DURATION_MS] in config.h). *)
Definition BUZZER_BEEP_DURATION_MS : Z := 300.

Record Fsm : Type := mkFsm {
  buzzerActive : bool;
  buzzerSteps : Z;
  buzzerTimer : Z;
  pin : bool
}.

(** The initial values of lines 43-45 and the [digitalWrite(BUZZER_PIN,
    LOW)] of [setup()] (line 84). *)
Definition setup : Fsm := mkFsm false 0 0 false.

(** Lines 52-57; [t] is the [millis()] of line 55. *)
Definition startBuzzer (beeps t : Z) (b : Fsm) : Fsm :=
  mkFsm true (beeps * 2) t true.

(** The test of line 62 at clock value [t]. *)
Definition elapsed (t : Z) (b : Fsm) : bool :=
  BUZZER_BEEP_DURATION_MS <=? U32.sub t (buzzerTimer b).

(** Lines 59-72; [t1] is the [millis()] of line 62, [t2] the one of
    line 63. *)
Definition handleBuzzer (t1 t2 : Z) (b : Fsm) : Fsm :=
  if negb (buzzerActive b) then b
  else if elapsed t1 b then
    let steps := buzzerSteps b - 1 in
    if steps <=? 0
    then mkFsm false steps t2 false
    else mkFsm true steps t2 (negb (pin b))
  else b.

(** Calls of the two functions in any order. *)
Inductive Call : Type :=
| Start (beeps t : Z)
| Handle (t1 t2 : Z).

Definition call (c : Call) (b : Fsm) : Fsm :=
  match c with
  | Start beeps t => startBuzzer beeps t b
  | Handle t1 t2 => handleBuzzer t1 t2 b
  end.

Fixpoint run (b : Fsm) (l : list Call) : Fsm :=
  match l with
  | [] => b
  | c :: l' => run (call c b) l'
  end.

(** A sequence of calls of [handleBuzzer], each with its two clock
    values, and the number of them that pass the test of line 62 (and so
    toggle the pin). *)
Fixpoint handles (b : Fsm) (l : list (Z * Z)) : Fsm :=
  match l with
  | [] => b
  | (t1, t2) :: l' => handles (handleBuzzer t1 t2 b) l'
  end.

Fixpoint toggles (b : Fsm) (l : list (Z * Z)) : Z :=
  match l with
  | [] => 0
  | (t1, t2) :: l' =>
      (if buzzerActive b && elapsed t1 b then 1 else 0)
      + toggles (handleBuzzer t1 t2 b) l'
  end.

(** Clock values that fit an [unsigned long] and never go back, starting
    not before [t0]. *)
Fixpoint ordered (t0 : Z) (l : list (Z * Z)) : bool :=
  match l with
  | [] => true
  | (t1, t2) :: l' =>
      (t0 <=? t1) && (t1 <=? t2) && (t2 <? U32.modulus) && ordered t2 l'
  end.

(** Calls that follow each other closely: each one starts at most [p] ms
    after the previous one has ended (the first one after [c]) and takes
    at most [p] ms between its two readings of the clock. *)
Fixpoint polled (p c : Z) (l : list (Z * Z)) : bool :=
  match l with
  | [] => true
  | (t1, t2) :: l' =>
      (c <=? t1) && (t1 <=? c + p) && (t1 <=? t2) && (t2 <=? t1 + p)
      && (t2 <? U32.modulus) && polled p t2 l'
  end.

(** The clock value at the end of the last call. *)
Fixpoint lastClock (c : Z) (l : list (Z * Z)) : Z :=
  match l with
  | [] => c
  | (_, t2) :: l' => lastClock t2 l'
  end.

(** A call as the two callers make it: never for less than one beep, and
    [beeps * 2] fits an [int]. *)
Definition validStart (c : Call) : Prop :=
  match c with
  | Start beeps _ => 1 <= beeps <= 1073741823
  | Handle _ _ => True
  end.

(** The buzzer is silent when no pattern is running; while one is running
    there are steps left, and the pin is HIGH exactly on the even ones. *)
Definition consistent (b : Fsm) : Prop :=
  if buzzerActive b
  then 0 < buzzerSteps b /\ pin b = Z.even (buzzerSteps b)
  else pin b = false.

End Buzzer.

(** *** The fall time string of main_controller.ino

  Lines 150-154: [sprintf(buf, "%02lu:%02lu:%02lu", (t/3600)%24,
  (t/60)%60, t%60)] for [t = millis() / 1000]. *)

Module TimeString.

Import Ascii String.

(** The character of the decimal digit [d]. *)
Definition digit (d : Z) : ascii := ascii_of_N (48 + Z.to_N d).

(** The conversion [%lu]: the decimal digits of [n], most significant
    first; an [unsigned long] has at most ten. *)
Fixpoint decimal_from (fuel : nat) (n : Z) (acc : string) : string :=
  match fuel with
  | O => acc
  | S fuel' =>
      let acc' := String (digit (n mod 10)) acc in
      if n / 10 =? 0 then acc' else decimal_from fuel' (n / 10) acc'
  end.

Definition decimal (n : Z) : string := decimal_from 10 n EmptyString.

(** The flag [0] with a field width: zeros on the left up to [width]
    characters. *)
Fixpoint zeros (k : nat) (s : string) : string :=
  match k with
  | O => s
  | S k' => String "0" (zeros k' s)
  end.

Definition pad0 (width : nat) (s : string) : string :=
  zeros (width - length s) s.

(** The conversion [%02lu]. *)
Definition fmt02lu (n : Z) : string := pad0 2 (decimal n).

(** The string written to [buf] for [t] seconds. *)
Definition formatTime (t : Z) : string :=
  fmt02lu ((t / 3600) mod 24) ++ ":" ++ fmt02lu ((t / 60) mod 60)
  ++ ":" ++ fmt02lu (t mod 60).

(** The initial value of [lastFallTimeStr] (line 49). *)
Definition NOT_AVAILABLE : string := "N/A".

(** The size of [buf] (line 151). *)
Definition BUF_SIZE : nat := 16.

End TimeString.

(** *** The magnitude of the acceleration in main_controller.ino

  Lines 111-118.  The raw readings are [int16_t]; [ax / 16384.0] is a
  [double] division whose result initialises a [float]; the products and
  sums are [float] operations, each rounded on its own. *)

Module Accel.

Import F32.

(** An integer as a [double]. *)
Definition of_int (a : Z) : double := binary_normalize dprec demax a 0 false.

(** The literal [16384.0]. *)
Definition LSB_PER_G : double := Eval vm_compute in of_int 16384.

(** Lines 114-116. *)
Definition toG (raw : Z) : float :=
  narrow (SFdiv dprec demax (of_int raw) LSB_PER_G).

Definition mul (a b : float) : float := SFmul prec emax a b.
Definition add (a b : float) : float := SFadd prec emax a b.

(** [sqrt] applied to a [float]: C++ selects the overload that takes and
    returns a [float]. *)
Definition sqrtf (a : float) : float := SFsqrt prec emax a.

(** The function [sqrt] of C, on [double]: the argument is widened and
    the result is rounded to [float]. *)
Definition sqrt (a : float) : float := narrow (SFsqrt dprec demax (widen a)).

(** Line 118, with either square root. *)
Definition totalAccWith (root : float -> float) (ax ay az : Z) : float :=
  let axg := toG ax in
  let ayg := toG ay in
  let azg := toG az in
  root (add (add (mul axg axg) (mul ayg ayg)) (mul azg azg)).

Definition totalAccOf (ax ay az : Z) : float := totalAccWith sqrtf ax ay az.

(** Not a NaN, and with the sign bit [sg]. *)
Definition hasSign (sg : bool) (a : spec_float) : bool :=
  match a with
  | S754_nan => false
  | S754_zero s | S754_infinity s | S754_finite s _ _ => Bool.eqb s sg
  end.

(** Neither a NaN nor negative: the sign bit is clear. *)
Definition nonneg (a : spec_float) : bool := hasSign false a.

Definition isNaN (a : spec_float) : bool :=
  match a with
  | S754_nan => true
  | _ => false
  end.

End Accel.

(** *** The inactivity timer and the last fall *)

Module Timer.

Import Controller.

(** While [inactivityTriggered] is set, no movement has been stamped
    since the last fall. *)
Definition timerFromFall (s : State) : Prop :=
  fallDetected s = false
  /\ (inactivityTriggered s = true -> lastMovementTime s = lastFallTime s).

End Timer.

(** *** The whole of [loop()] in main_controller.ino

  Lines 105-168: [handleBuzzer], the sensor reading, the detector
  ([Controller.loop]) and the two calls of [startBuzzer], with the fall
  time string.  The web server and the GPS reader only read these
  globals. *)

Module Firmware.

Import F32 Controller.

Record Globals : Type := mkGlobals {
  detector : Controller.State;
  buzzer : Buzzer.Fsm;
  lastFallTimeStr : String.string
}.

Definition boot : Globals :=
  mkGlobals Controller.boot Buzzer.setup TimeString.NOT_AVAILABLE.

(** What one iteration reads: the raw acceleration and the clock, once
    per [millis()] in the order of the calls ([tHandle1], [tHandle2] in
    [handleBuzzer], [tNow] at line 119, [tFallBuzz] in [startBuzzer(2)],
    [tFallStr] at line 150, [tAlertBuzz] in [startBuzzer(5)]). *)
Record Reads : Type := mkReads {
  tHandle1 : Z;
  tHandle2 : Z;
  ax : Z;
  ay : Z;
  az : Z;
  tNow : Z;
  tFallBuzz : Z;
  tFallStr : Z;
  tAlertBuzz : Z
}.

Definition sampleOf (r : Reads) : Sample :=
  mkSample (tNow r) (Accel.totalAccOf (ax r) (ay r) (az r)).

Definition loop (g : Globals) (r : Reads) : Globals :=
  let b1 := Buzzer.handleBuzzer (tHandle1 r) (tHandle2 r) (buzzer g) in
  let '(s, o) := Controller.loop (detector g) (sampleOf r) in
  let b2 := if fallEvent o then Buzzer.startBuzzer 2 (tFallBuzz r) b1 else b1 in
  let str := if fallEvent o
             then TimeString.formatTime (tFallStr r / 1000)
             else lastFallTimeStr g in
  let b3 := if inactivityAlert o
            then Buzzer.startBuzzer 5 (tAlertBuzz r) b2 else b2 in
  mkGlobals s b3 str.

Fixpoint run (g : Globals) (l : list Reads) : Globals :=
  match l with
  | [] => g
  | r :: l' => run (loop g r) l'
  end.

End Firmware.

(** *** The transmitter node

  [loop()] of src/esp8266-nodes/transmitter/transmitter.ino (lines 56-82):
  the distance sent for an echo pulse of [duration] microseconds.
  [duration * 0.034 / 2] is evaluated in [double], the [long] and the [2]
  converted first, and the result is converted to [int] by truncation. *)

Module Transmitter.

Import F32.

(** A [long] as a [double]. *)
Definition of_long (a : Z) : double := binary_normalize dprec demax a 0 false.

(** [TIMEOUT_DURATION] of the transmitter's config.h (in the sources it
    follows receiver.ino, line 273): the sensor timeout in
    microseconds. *)
Definition TIMEOUT_DURATION : Z := 30000.

(** The literals [0.034] and [2]. *)
Definition CM_PER_US : double := Eval vm_compute in dlit 34 1000.
Definition TWO : double := Eval vm_compute in of_long 2.

(** The conversion [double -> int], toward zero; it is undefined on
    infinities and NaN, which the multiplication of a [long] does not
    produce. *)
Definition to_int (a : double) : Z :=
  match a with
  | S754_finite s m e =>
      let v := match e with
               | Z0 => Zpos m
               | Zpos _ => Zpos m * 2 ^ e
               | Zneg p => Zpos m / 2 ^ Zpos p
               end in
      if s then - v else v
  | _ => 0
  end.

(** Lines 65-68. *)
Definition distance (duration : Z) : Z :=
  to_int (SFdiv dprec demax (SFmul dprec demax (of_long duration) CM_PER_US)
                TWO).

(** Whether the [n] durations from [d] on give the distance
    [17 * duration / 1000], rounded down. *)
Fixpoint exact_from (n : nat) (d : Z) : bool :=
  match n with
  | O => true
  | S n' => (distance d =? 17 * d / 1000) && exact_from n' (d + 1)
  end.

End Transmitter.

(** *** The receiver node

  [OnDataRecv] of src/esp8266-nodes/receiver/receiver.ino (lines 19-59):
  the five motor pins are driven LOW, then the band of the received
  distance drives some of them HIGH. *)

Module Receiver.

Record Motors : Type := mkMotors {
  MOTOR1 : bool;
  MOTOR2 : bool;
  MOTOR3 : bool;
  MOTOR4 : bool;
  MOTOR5 : bool
}.

(** The levels of the five pins after the callback has run for the
    distance [d]. *)
Definition OnDataRecv (d : Z) : Motors :=
  if (d <=? 100) && (d >? 80) then mkMotors true false false false false
  else if (d <=? 80) && (d >? 60) then mkMotors true true false false false
  else if (d <=? 60) && (d >? 40) then mkMotors true true true false false
  else if (d <=? 40) && (d >? 20) then mkMotors true true true true false
  else if d <=? 20 then mkMotors true true true true true
  else mkMotors false false false false false.

Definition running (b : bool) : Z := if b then 1 else 0.

(** The number of motors that run. *)
Definition motorsOn (m : Motors) : Z :=
  running (MOTOR1 m) + running (MOTOR2 m) + running (MOTOR3 m)
  + running (MOTOR4 m) + running (MOTOR5 m).

End Receiver.

(** *** The advanced transmitter

  [sortArray] (lines 401-411), the distance filter of [processSensorData]
  (lines 277-291) and the battery level of [readBattery] (lines 261-262)
  of the advanced transmitter sketch (src/unnamed/part_005).  Its
  config.h is not part of the sources, so [FILTER_SIZE] is a parameter.
  Arrays are lists, indexed from 0.  The rest of [processSensorData]
  (lines 293-300) sets error flags from the temperature and the humidity
  and does not touch the distance. *)

Module AdvancedTransmitter.

(** [arr[i] = v]; nothing is written outside the array. *)
Fixpoint store (i : nat) (v : Z) (arr : list Z) : list Z :=
  match arr, i with
  | [], _ => []
  | _ :: r, O => v :: r
  | a :: r, S i' => a :: store i' v r
  end.

(** Lines 404-408: [arr[j]] and [arr[j + 1]] are exchanged when they are
    out of order. *)
Definition compareSwap (j : nat) (arr : list Z) : list Z :=
  match nth_error arr j, nth_error arr (S j) with
  | Some a, Some b =>
      if a >? b then store (S j) a (store j b arr) else arr
  | _, _ => arr
  end.

(** The inner loop, [j = 0 .. bound - 1]. *)
Definition innerLoop (bound : nat) (arr : list Z) : list Z :=
  fold_left (fun a j => compareSwap j a) (seq 0 bound) arr.

(** The inner loop as a recursion on the array: what [bound] steps do
    from its first element on ([innerLoop_bubble]). *)
Fixpoint bubble (bound : nat) (arr : list Z) : list Z :=
  match bound, arr with
  | S bound', a :: b :: r =>
      if a >? b then b :: bubble bound' (a :: r)
      else a :: bubble bound' (b :: r)
  | _, _ => arr
  end.

(** The outer loop, [i = 0 .. size - 2], with the inner bound
    [size - i - 1]. *)
Definition sortArray (arr : list Z) (size : nat) : list Z :=
  fold_left (fun a i => innerLoop (size - i - 1) a) (seq 0 (size - 1)) arr.

(** The static locals of [processSensorData]: the ring of readings and
    the [uint8_t] index of the next one. *)
Record Filter : Type := mkFilter {
  distanceReadings : list Z;
  readingIndex : nat
}.

(** Static storage is zero-initialised. *)
Definition initFilter (FILTER_SIZE : nat) : Filter :=
  mkFilter (repeat 0 FILTER_SIZE) 0.

(** Lines 277-291: the reading [distance] enters the ring, and the median
    of the ring is the new [sensorData.distance]. *)
Definition processSensorData (FILTER_SIZE : nat) (distance : Z) (f : Filter)
  : Filter * Z :=
  let readings := store (readingIndex f) distance (distanceReadings f) in
  let index := (((readingIndex f + 1) mod FILTER_SIZE) mod 256)%nat in
  let sortedReadings := sortArray readings FILTER_SIZE in
  (mkFilter readings index, nth (FILTER_SIZE / 2) sortedReadings 0).

(** The filter after a sequence of readings. *)
Fixpoint filterRun (FILTER_SIZE : nat) (f : Filter) (l : list Z) : Filter :=
  match l with
  | [] => f
  | d :: l' => filterRun FILTER_SIZE (fst (processSensorData FILTER_SIZE d f)) l'
  end.

(** The ring holds the window [w], oldest reading first: the next reading
    replaces the oldest one. *)
Definition holds (FILTER_SIZE : nat) (f : Filter) (w : list Z) : Prop :=
  exists older newer : list Z,
    distanceReadings f = newer ++ older
    /\ length newer = readingIndex f
    /\ w = older ++ newer
    /\ length w = FILTER_SIZE
    /\ older <> [].

(** The last [n] elements of a list. *)
Definition lastn (n : nat) (l : list Z) : list Z := skipn (length l - n) l.

(** The number of elements of [l] that satisfy [p]. *)
Definition count (p : Z -> bool) (l : list Z) : nat := length (filter p l).

(** The macro [constrain] of Arduino.h. *)
Definition constrain (amt low high : Z) : Z :=
  if amt <? low then low else if amt >? high then high else amt.

(** The conversion to [uint8_t]. *)
Definition to_uint8 (v : Z) : Z := v mod 256.

(** Lines 261-262, from the [long] that [map] returns: the cast comes
    first, [constrain] second, and its result is stored in a [uint8_t]
    again. *)
Definition batteryLevel (mapped : Z) : Z :=
  to_uint8 (constrain (to_uint8 mapped) 0 100).

(** The test of line 396, which raises [ERROR_BATTERY]. *)
Definition batteryError (level : Z) : bool := level <? 5.

End AdvancedTransmitter.

(* ================================================================== *)
(** ** Properties *)
(* ================================================================== *)

Import F32 Controller Scenarios.

(** *** Time stamps *)

Lemma u32_sub_exact (a b : Z) :
  0 <= b -> b <= a -> a < U32.modulus -> U32.sub a b = a - b.
Proof.
  intros Hb Hab Ha. unfold U32.sub. apply Z.mod_small. lia.
Qed.

Lemma u32_sub_diag (a : Z) : U32.sub a a = 0.
Proof.
  unfold U32.sub. rewrite Z.sub_diag. reflexivity.
Qed.

(** *** One iteration *)

Ltac unfold_loop :=
  unfold loop, inactivityBlock, fallEventBlock, fallDetection, movementCheck.

Ltac simpl_state :=
  cbn [lastLowTime lastFallTime lastMovementTime lastBuzzToggle inLowWindow
       fallDetected inactivityTriggered lastAcc
       set_lastLowTime set_lastFallTime set_lastMovementTime set_lastBuzzToggle
       set_inLowWindow set_fallDetected set_inactivityTriggered set_lastAcc
       fallEvent inactivityAlert fst snd andb negb] in *.

(** Case analysis on every test of the iteration, innermost first and one
    conjunct at a time. *)
Ltac destruct_test c :=
  lazymatch c with
  | context [if _ then _ else _] => fail
  | negb ?a => destruct_test a
  | ?a && _ => destruct_test a
  | _ => destruct c eqn:?
  end.

Ltac split_tests :=
  repeat (simpl_state;
          match goal with
          | |- context [if ?c then _ else _] => destruct_test c
          end);
  simpl_state.

Ltac loop_cases := unfold_loop; split_tests.

(** Boolean comparisons of time stamps, as facts for [lia]. *)
Ltac ltb_to_Z :=
  repeat match goal with
         | H : (_ <? _) = true |- _ => apply Z.ltb_lt in H
         | H : (_ <? _) = false |- _ => apply Z.ltb_ge in H
         end.

(** [fallDetected] is false again at the end of every iteration
    (line 156). *)
Lemma loop_clears_fallDetected (s : State) (x : Sample) :
  fallDetected (fst (loop s x)) = false.
Proof.
  loop_cases; congruence.
Qed.

(** The FALL EVENT block runs exactly when the cooldown is over, the low-g
    window is open and the sample is above [FALL_HIGH_G]. *)
Lemma fall_iff (s : State) (x : Sample) :
  fallDetected s = false ->
  fallEvent (snd (loop s x)) = true <->
  (COOLDOWN_MS <? U32.sub (now x) (lastFallTime s)) = true
  /\ inLowWindow s = true /\ isHigh x = true.
Proof.
  intros Hf. unfold isHigh. loop_cases; intuition congruence.
Qed.

(** What the FALL EVENT block leaves behind. *)
Lemma fall_stamps (s : State) (x : Sample) :
  fallEvent (snd (loop s x)) = true ->
  let s' := fst (loop s x) in
  lastFallTime s' = now x /\ lastMovementTime s' = now x
  /\ lastBuzzToggle s' = now x /\ inactivityTriggered s' = true
  /\ inactivityAlert (snd (loop s x)) = false.
Proof.
  cbv zeta. loop_cases; rewrite ?u32_sub_diag in *;
    intuition (try congruence; try discriminate).
Qed.

(** The INACTIVITY ALERT block raises the alert exactly when no fall was
    detected in this iteration, the flag is set, the reading is no
    movement, and both [lastMovementTime] and [lastBuzzToggle] are more
    than 10000 ms old. *)
Lemma alert_iff (s : State) (x : Sample) :
  inactivityAlert (snd (loop s x)) = true <->
  fallEvent (snd (loop s x)) = false
  /\ inactivityTriggered s = true
  /\ moved (totalAcc x) (lastAcc s) = false
  /\ (INACTIVITY_TIMEOUT_MS <? U32.sub (now x) (lastMovementTime s)) = true
  /\ (INACTIVITY_ALERT_INTERVAL_MS
       <? U32.sub (now x) (lastBuzzToggle s)) = true.
Proof.
  loop_cases; rewrite ?u32_sub_diag in *;
    intuition (try congruence; try discriminate).
Qed.

(** Without a fall event the last-fall time stamp stays. *)
Lemma nofall_keeps_lastFallTime (s : State) (x : Sample) :
  fallEvent (snd (loop s x)) = false ->
  lastFallTime (fst (loop s x)) = lastFallTime s.
Proof.
  loop_cases; congruence.
Qed.

(** While the cooldown test of line 129 fails, the iteration is the
    movement check followed by the inactivity alert, and nothing else. *)
Lemma gate_closed_loop (s : State) (x : Sample) :
  fallDetected s = false ->
  U32.sub (now x) (lastFallTime s) <= COOLDOWN_MS ->
  loop s x =
  (fst (inactivityBlock x (movementCheck x s)),
   mkOutput false (snd (inactivityBlock x (movementCheck x s)))).
Proof.
  intros Hf Hg. apply Z.ltb_ge in Hg.
  unfold loop, fallEventBlock, fallDetection.
  replace (lastFallTime (movementCheck x s)) with (lastFallTime s)
    by (unfold movementCheck; split_tests; reflexivity).
  rewrite Hg.
  replace (fallDetected (movementCheck x s)) with (fallDetected s)
    by (unfold movementCheck; split_tests; reflexivity).
  rewrite Hf. destruct (inactivityBlock x (movementCheck x s)); reflexivity.
Qed.

(** *** Sequences of iterations *)

Lemma final_app (l1 l2 : list Sample) (s : State) :
  final s (l1 ++ l2) = final (final s l1) l2.
Proof.
  revert s. induction l1 as [|x l1 IH]; intros s; cbn; [reflexivity|apply IH].
Qed.

Lemma outputs_app (l1 l2 : list Sample) (s : State) :
  outputs s (l1 ++ l2) = outputs s l1 ++ outputs (final s l1) l2.
Proof.
  revert s. induction l1 as [|x l1 IH]; intros s; cbn;
    [reflexivity|rewrite IH; reflexivity].
Qed.

Lemma final_clears_fallDetected (l : list Sample) (s : State) :
  fallDetected s = false -> fallDetected (final s l) = false.
Proof.
  revert s. induction l as [|x l IH]; intros s Hf; cbn; [exact Hf|].
  apply IH, loop_clears_fallDetected.
Qed.

(** As long as every sample is within [COOLDOWN_MS] of the recorded fall
    time (in [unsigned long] arithmetic), no iteration runs the FALL EVENT
    block and the recorded fall time stays. *)
Lemma cooldown_run (l : list Sample) (s : State) :
  fallDetected s = false ->
  Forall (fun y => U32.sub (now y) (lastFallTime s) <= COOLDOWN_MS) l ->
  Forall noFall (outputs s l) /\ lastFallTime (final s l) = lastFallTime s.
Proof.
  revert s. induction l as [|y l IH]; intros s Hf Hl; cbn.
  - split; [constructor|reflexivity].
  - inversion Hl as [|? ? Hy Hl']; subst.
    assert (Hno : fallEvent (snd (loop s y)) = false).
    { rewrite (gate_closed_loop s y Hf Hy). reflexivity. }
    pose proof (nofall_keeps_lastFallTime s y Hno) as Hk.
    destruct (IH (fst (loop s y))) as [IH1 IH2].
    + apply loop_clears_fallDetected.
    + rewrite Hk. exact Hl'.
    + split; [constructor; [exact Hno|exact IH1]|congruence].
Qed.

(** *** Cooldown *)

(** C2 (cooldown enforcement).  Once an iteration at time [T = now x] has
    detected a fall, no later iteration whose time stamp lies in
    [(T, T + COOLDOWN_MS]] detects a fall, whatever the magnitudes read
    (NaN and infinities included). *)
Theorem cooldown_enforcement (s : State) (x : Sample) (l : list Sample) :
  U32.inRange (now x) ->
  fallEvent (snd (loop s x)) = true ->
  Forall (fun y => now x < now y <= now x + COOLDOWN_MS
                   /\ now y < U32.modulus) l ->
  Forall noFall (outputs (fst (loop s x)) l).
Proof.
  intros [Hx0 Hx1] Hfall Hl.
  destruct (fall_stamps s x Hfall) as [HT _]. cbv zeta in HT.
  apply cooldown_run.
  - apply loop_clears_fallDetected.
  - rewrite HT. eapply Forall_impl; [|exact Hl].
    intros y [[Hy0 Hy1] Hy2]. cbv beta.
    rewrite u32_sub_exact by lia. lia.
Qed.

(** A fall at T = 2150, then a spike 50 ms later and a complete dip/impact
    pair ending exactly at T + 1000. *)
Lemma cooldown_enforcement_witness :
  let s := final boot [mkSample 2000 ONE_G; mkSample 2050 g_0_2;
                       mkSample 2100 g_0_25] in
  let x := mkSample 2150 g_3_0 in
  let l := [mkSample 2200 g_3_0; mkSample 3100 g_0_2; mkSample 3150 g_3_0] in
  U32.inRange (now x)
  /\ fallEvent (snd (loop s x)) = true
  /\ Forall (fun y => now x < now y <= now x + COOLDOWN_MS
                      /\ now y < U32.modulus) l
  /\ Forall noFall (outputs (fst (loop s x)) l).
Proof.
  cbv zeta.
  assert (H1 : U32.inRange (now (mkSample 2150 g_3_0)))
    by (unfold U32.inRange, U32.modulus; cbn; lia).
  assert (H2 : fallEvent (snd (loop (final boot [mkSample 2000 ONE_G;
                 mkSample 2050 g_0_2; mkSample 2100 g_0_25])
                 (mkSample 2150 g_3_0))) = true) by (vm_compute; reflexivity).
  assert (H3 : Forall (fun y => now (mkSample 2150 g_3_0) < now y
                                <= now (mkSample 2150 g_3_0) + COOLDOWN_MS
                                /\ now y < U32.modulus)
                 [mkSample 2200 g_3_0; mkSample 3100 g_0_2; mkSample 3150 g_3_0])
    by (repeat constructor; unfold COOLDOWN_MS, U32.modulus; cbn; lia).
  split; [exact H1|]. split; [exact H2|]. split; [exact H3|].
  exact (cooldown_enforcement _ _ _ H1 H2 H3).
Defined.

(** C10 (boot cooldown).  [lastFallTime] starts at 0, so the test of
    line 129 fails for every sample read at most [COOLDOWN_MS] after the
    clock origin: none of them is detected as a fall, even when the
    magnitudes form a low-g dip followed by a high-g impact. *)
Theorem boot_cooldown_blocks_detection (l : list Sample) :
  Forall (fun y => 0 <= now y <= COOLDOWN_MS) l ->
  Forall noFall (outputs boot l).
Proof.
  intros Hl. apply cooldown_run; [reflexivity|].
  eapply Forall_impl; [|exact Hl].
  intros y [Hy0 Hy1]. cbn [lastFallTime boot].
  rewrite u32_sub_exact; unfold U32.modulus, COOLDOWN_MS in *; lia.
Qed.

Lemma boot_cooldown_blocks_detection_witness :
  Forall (fun y => 0 <= now y <= COOLDOWN_MS) scenarioA
  /\ Forall noFall (outputs boot scenarioA).
Proof.
  assert (H : Forall (fun y => 0 <= now y <= COOLDOWN_MS) scenarioA)
    by (repeat constructor; unfold COOLDOWN_MS; cbn; lia).
  split; [exact H|exact (boot_cooldown_blocks_detection _ H)].
Defined.

(** C7 (state frozen during cooldown).  When the sample's time stamp is
    within [COOLDOWN_MS] of [lastFallTime], the iteration leaves
    [inLowWindow], [lastLowTime], [lastFallTime] and [fallDetected] as they
    were and detects nothing, while the movement check and the inactivity
    alert run as usual: the new globals and the alert are those of lines
    121-126 followed by lines 161-167; in particular a movement stamps
    [lastMovementTime] and clears [inactivityTriggered], and an overdue
    alert is raised. *)
Theorem cooldown_freezes_detection (s : State) (x : Sample) :
  fallDetected s = false ->
  U32.sub (now x) (lastFallTime s) <= COOLDOWN_MS ->
  let s' := fst (loop s x) in
  let o := snd (loop s x) in
  (inLowWindow s' = inLowWindow s /\ lastLowTime s' = lastLowTime s
   /\ lastFallTime s' = lastFallTime s /\ fallDetected s' = fallDetected s
   /\ fallEvent o = false)
  /\ (s' = fst (inactivityBlock x (movementCheck x s))
      /\ inactivityAlert o = snd (inactivityBlock x (movementCheck x s)))
  /\ lastAcc s' = totalAcc x
  /\ (moved (totalAcc x) (lastAcc s) = true ->
      lastMovementTime s' = now x /\ inactivityTriggered s' = false)
  /\ (moved (totalAcc x) (lastAcc s) = false ->
      inactivityTriggered s = true ->
      INACTIVITY_TIMEOUT_MS < U32.sub (now x) (lastMovementTime s) ->
      INACTIVITY_ALERT_INTERVAL_MS < U32.sub (now x) (lastBuzzToggle s) ->
      inactivityAlert o = true /\ lastBuzzToggle s' = now x).
Proof.
  intros Hf Hg. cbv zeta. rewrite (gate_closed_loop s x Hf Hg).
  cbn [fst snd fallEvent inactivityAlert].
  repeat split; intros.
  all: unfold inactivityBlock, movementCheck; split_tests;
    rewrite ?u32_sub_diag in *; try congruence; try discriminate.
  all: ltb_to_Z; lia.
Qed.

Lemma cooldown_freezes_detection_witness :
  let s := final boot (scenarioA_from 2000) in
  let x := mkSample 2650 ONE_G in
  fallDetected s = false
  /\ U32.sub (now x) (lastFallTime s) <= COOLDOWN_MS
  /\ inLowWindow (fst (loop s x)) = inLowWindow s
  /\ lastFallTime (fst (loop s x)) = lastFallTime s.
Proof.
  cbv zeta.
  assert (H1 : fallDetected (final boot (scenarioA_from 2000)) = false)
    by (vm_compute; reflexivity).
  assert (H2 : U32.sub (now (mkSample 2650 ONE_G))
                 (lastFallTime (final boot (scenarioA_from 2000)))
               <= COOLDOWN_MS)
    by (vm_compute; discriminate).
  split; [exact H1|]. split; [exact H2|].
  pose proof (cooldown_freezes_detection _ _ H1 H2) as H. cbv zeta in H.
  destruct H as [[Ha [_ [Hb _]]] _]. split; [exact Ha|exact Hb].
Defined.

(** *** Edge triggering *)

(** [a < b] on two positive finite numbers needs [a]'s exponent not to
    exceed [b]'s. *)
Lemma ltb_finite_exponents (m1 m2 : positive) (e1 e2 : Z) :
  ltb (S754_finite false m1 e1) (S754_finite false m2 e2) = true -> e1 <= e2.
Proof.
  unfold ltb, SFltb, SFcompare.
  destruct (Z.compare_spec e1 e2) as [He|He|He]; intros Hlt;
    try lia; discriminate.
Qed.

(** A reading above [FALL_HIGH_G] is not below [FALL_LOW_G]. *)
Lemma high_not_low (x : Sample) : isHigh x = true -> isLow x = false.
Proof.
  unfold isHigh, isLow, FALL_HIGH_G, FALL_LOW_G. intros Hh.
  destruct (ltb (totalAcc x) _) eqn:Hl; [exfalso|reflexivity].
  destruct (totalAcc x) as [sg|sg| |sg m e].
  - destruct sg; discriminate.
  - destruct sg; discriminate.
  - discriminate.
  - destruct sg; [discriminate|].
    apply ltb_finite_exponents in Hh, Hl. lia.
Qed.

(** A fall event closes the low-g window (line 137). *)
Lemma fall_closes_window (s : State) (x : Sample) :
  fallDetected s = false ->
  fallEvent (snd (loop s x)) = true ->
  inLowWindow (fst (loop s x)) = false.
Proof.
  intros Hf. loop_cases; congruence.
Qed.

(** The window opens only on a reading below [FALL_LOW_G] (line 130). *)
Lemma window_stays_closed (s : State) (x : Sample) :
  inLowWindow s = false -> isLow x = false ->
  inLowWindow (fst (loop s x)) = false.
Proof.
  unfold isLow. intros Hw Hl. loop_cases; congruence.
Qed.

(** With the window closed, a fall can only be detected after some reading
    below [FALL_LOW_G]. *)
Lemma next_fall_needs_dip (l : list Sample) (s : State) (y : Sample) :
  fallDetected s = false -> inLowWindow s = false ->
  fallEvent (snd (loop (final s l) y)) = true ->
  Exists (fun z => isLow z = true) l.
Proof.
  revert s. induction l as [|z l IH]; intros s Hf Hw Hy; cbn in Hy.
  - apply fall_iff in Hy; [|exact Hf]. destruct Hy as [_ [Hy _]]. congruence.
  - destruct (isLow z) eqn:Hz; [left; exact Hz|]. right.
    apply (IH (fst (loop s z))); [apply loop_clears_fallDetected| |exact Hy].
    apply window_stays_closed; assumption.
Qed.

Lemma chronological_weaken (l : list Sample) (t0 t1 : Z) :
  t0 <= t1 -> chronological t1 l = true -> chronological t0 l = true.
Proof.
  destruct l as [|x l]; cbn [chronological]; [reflexivity|]. intros Ht H.
  apply andb_true_iff in H. destruct H as [H H3].
  apply andb_true_iff in H. destruct H as [H1 H2].
  apply Z.leb_le in H1. rewrite H2, H3.
  replace (t0 <=? now x) with true by (symmetry; apply Z.leb_le; lia).
  reflexivity.
Qed.

Lemma chronological_cons (x : Sample) (l : list Sample) (t0 : Z) :
  chronological t0 (x :: l) = true ->
  t0 <= now x /\ now x < U32.modulus /\ chronological (now x) l = true.
Proof.
  cbn [chronological]. intros H.
  apply andb_true_iff in H. destruct H as [H H3].
  apply andb_true_iff in H. destruct H as [H1 H2].
  apply Z.leb_le in H1. apply Z.ltb_lt in H2. auto.
Qed.

Lemma chronological_app (l1 l2 : list Sample) (t0 : Z) :
  chronological t0 (l1 ++ l2) = true ->
  chronological t0 l1 = true /\ chronological t0 l2 = true.
Proof.
  revert t0. induction l1 as [|x l1 IH]; intros t0 H.
  - split; [reflexivity|exact H].
  - rewrite <- app_comm_cons in H.
    destruct (chronological_cons _ _ _ H) as [H1 [H2 H3]].
    destruct (IH _ H3) as [Ha Hb]. split.
    + cbn [chronological]. rewrite Ha.
      replace (t0 <=? now x) with true by (symmetry; apply Z.leb_le; lia).
      replace (now x <? U32.modulus) with true
        by (symmetry; apply Z.ltb_lt; lia).
      reflexivity.
    + apply (chronological_weaken _ t0 (now x)); assumption.
Qed.

(** On a chronological trace that starts at or after the recorded fall
    time, a fall is detected only more than [COOLDOWN_MS] after it. *)
Lemma next_fall_after_cooldown (l : list Sample) (s : State) (y : Sample) :
  fallDetected s = false -> 0 <= lastFallTime s ->
  chronological (lastFallTime s) (l ++ [y]) = true ->
  fallEvent (snd (loop (final s l) y)) = true ->
  COOLDOWN_MS < now y - lastFallTime s.
Proof.
  revert s. induction l as [|z l IH]; intros s Hf H0 Hc Hy.
  - cbn in Hy. apply fall_iff in Hy; [|exact Hf]. destruct Hy as [Hy _].
    destruct (chronological_cons _ _ _ Hc) as [H1 [H2 _]].
    apply Z.ltb_lt in Hy. rewrite u32_sub_exact in Hy by lia. exact Hy.
  - rewrite <- app_comm_cons in Hc.
    destruct (chronological_cons _ _ _ Hc) as [H1 [H2 H3]].
    cbn in Hy.
    assert (Hlf : lastFallTime s <= lastFallTime (fst (loop s z)) <= now z).
    { destruct (fallEvent (snd (loop s z))) eqn:Hz.
      - destruct (fall_stamps s z Hz) as [HT _]. cbv zeta in HT. lia.
      - rewrite (nofall_keeps_lastFallTime s z Hz). lia. }
    assert (IH' := IH (fst (loop s z)) (loop_clears_fallDetected s z)).
    specialize (IH' ltac:(lia)
                    (chronological_weaken _ _ _ (proj2 Hlf) H3) Hy).
    lia.
Qed.

(** C4 (edge triggering).  Take any sequence of samples
    [l1 ++ xi :: l2 ++ [xj]] in which both [xi] and [xj] are detected as
    falls.  Then (a) some sample strictly between them reads below
    [FALL_LOW_G]: each detection needs a low-g dip of its own, so one
    low-then-high transition gives one detection; (b) the readings between
    them are not all above [FALL_HIGH_G]: a reading that stays high after
    a detection is never detected again; and (c) when the time stamps are
    chronological, the two detections are more than [COOLDOWN_MS] apart,
    so no interval of length [COOLDOWN_MS] holds two of them. *)
Theorem edge_triggered
  (s : State) (l1 l2 : list Sample) (xi xj : Sample) :
  fallDetected s = false ->
  fallEvent (snd (loop (final s l1) xi)) = true ->
  fallEvent (snd (loop (final (fst (loop (final s l1) xi)) l2) xj)) = true ->
  Exists (fun z => isLow z = true) l2
  /\ ~ Forall (fun z => isHigh z = true) l2
  /\ (chronological 0 (l1 ++ xi :: l2 ++ [xj]) = true ->
      COOLDOWN_MS < now xj - now xi).
Proof.
  intros Hf Hi Hj.
  pose proof (final_clears_fallDetected l1 s Hf) as Hfi.
  pose proof (loop_clears_fallDetected (final s l1) xi) as Hf'.
  pose proof (fall_closes_window _ _ Hfi Hi) as Hw.
  pose proof (next_fall_needs_dip l2 _ xj Hf' Hw Hj) as Hdip.
  split; [exact Hdip|]. split.
  - intros Hall. apply Exists_exists in Hdip. destruct Hdip as [z [Hin Hz]].
    rewrite Forall_forall in Hall. specialize (Hall z Hin).
    apply high_not_low in Hall. congruence.
  - intros Hc. apply chronological_app in Hc. destruct Hc as [_ Hc].
    destruct (chronological_cons _ _ _ Hc) as [H0 [H1 H2]].
    destruct (fall_stamps _ _ Hi) as [HT _]. cbv zeta in HT.
    rewrite <- HT. apply (next_fall_after_cooldown l2); try assumption.
    + rewrite HT. exact H0.
    + rewrite HT. exact H2.
Qed.

(** Two falls 1100 ms apart, with a new dip in between. *)
Lemma edge_triggered_witness :
  let l1 := [mkSample 2000 ONE_G; mkSample 2050 g_0_2; mkSample 2100 g_0_25] in
  let xi := mkSample 2150 g_3_0 in
  let l2 := [mkSample 2200 g_3_0; mkSample 3200 g_0_2] in
  let xj := mkSample 3250 g_3_0 in
  fallDetected boot = false
  /\ fallEvent (snd (loop (final boot l1) xi)) = true
  /\ fallEvent (snd (loop (final (fst (loop (final boot l1) xi)) l2) xj)) = true
  /\ Exists (fun z => isLow z = true) l2
  /\ COOLDOWN_MS < now xj - now xi.
Proof.
  cbv zeta.
  assert (H1 : fallDetected boot = false) by reflexivity.
  assert (H2 : fallEvent (snd (loop (final boot
                 [mkSample 2000 ONE_G; mkSample 2050 g_0_2;
                  mkSample 2100 g_0_25]) (mkSample 2150 g_3_0))) = true)
    by (vm_compute; reflexivity).
  assert (H3 : fallEvent (snd (loop (final (fst (loop (final boot
                 [mkSample 2000 ONE_G; mkSample 2050 g_0_2;
                  mkSample 2100 g_0_25]) (mkSample 2150 g_3_0)))
                 [mkSample 2200 g_3_0; mkSample 3200 g_0_2])
                 (mkSample 3250 g_3_0))) = true)
    by (vm_compute; reflexivity).
  split; [exact H1|]. split; [exact H2|]. split; [exact H3|].
  destruct (edge_triggered _ _ _ _ _ H1 H2 H3) as [Ha [_ Hc]].
  split; [exact Ha|]. apply Hc. vm_compute. reflexivity.
Defined.

(** *** The detection window *)

Ltac time_facts :=
  ltb_to_Z; unfold COOLDOWN_MS, WINDOW_MS in *;
  rewrite ?u32_sub_exact in * by lia.

(** Line 130-132: a reading below [FALL_LOW_G], read after the cooldown
    with the window closed, opens the window and detects nothing. *)
Lemma dip_opens_window (s : State) (x : Sample) :
  fallDetected s = false -> inLowWindow s = false ->
  COOLDOWN_MS < U32.sub (now x) (lastFallTime s) -> isLow x = true ->
  pending (now x) (lastFallTime s) (fst (loop s x))
  /\ fallEvent (snd (loop s x)) = false.
Proof.
  unfold pending, isLow. intros Hf Hw Hg Hl. apply Z.ltb_lt in Hg.
  loop_cases; repeat split; congruence.
Qed.

Section WindowOpen.

(** A window opened at [T], after a last fall recorded at [F] more than
    [COOLDOWN_MS] earlier. *)
Variables T F : Z.
Hypothesis F_nonneg : 0 <= F.
Hypothesis F_before_T : F <= T.
Hypothesis cooldown_over : COOLDOWN_MS < T - F.

(** Inside the window a reading that is not above [FALL_HIGH_G] changes
    nothing. *)
Lemma pending_stays (s : State) (y : Sample) :
  pending T F s ->
  T <= now y <= T + WINDOW_MS -> now y < U32.modulus -> isHigh y = false ->
  pending T F (fst (loop s y)) /\ fallEvent (snd (loop s y)) = false.
Proof.
  unfold pending, isHigh. intros [Hf [Hw [HT HF]]] Hy Hr Hh.
  revert F_nonneg F_before_T cooldown_over. subst T F. intros H0 HFT Hg.
  loop_cases; time_facts; repeat split; try congruence; lia.
Qed.

(** The first reading later than [T + WINDOW_MS] closes the window; it is
    a fall exactly when it is above [FALL_HIGH_G]. *)
Lemma pending_expires (s : State) (y : Sample) :
  pending T F s ->
  T + WINDOW_MS < now y -> now y < U32.modulus ->
  inLowWindow (fst (loop s y)) = false
  /\ fallEvent (snd (loop s y)) = isHigh y.
Proof.
  unfold pending, isHigh. intros [Hf [Hw [HT HF]]] Hy Hr.
  revert F_nonneg F_before_T cooldown_over. subst T F. intros H0 HFT Hg.
  loop_cases; time_facts; repeat split; try congruence; lia.
Qed.

(** Lines 135-138 and 144-158: with the window open and the cooldown over,
    a reading above [FALL_HIGH_G] is a fall, inside the window or on the
    first sample after it. *)
Lemma pending_impact (s : State) (y : Sample) :
  pending T F s ->
  T <= now y -> now y < U32.modulus -> isHigh y = true ->
  fallEvent (snd (loop s y)) = true
  /\ lastFallTime (fst (loop s y)) = now y
  /\ inactivityTriggered (fst (loop s y)) = true
  /\ inLowWindow (fst (loop s y)) = false.
Proof.
  unfold pending, isHigh. intros [Hf [Hw [HT HF]]] Hy Hr Hh.
  revert F_nonneg F_before_T cooldown_over. subst T F. intros H0 HFT Hg.
  loop_cases; time_facts; repeat split; try congruence; lia.
Qed.

Lemma pending_run (l : list Sample) (s : State) :
  pending T F s ->
  Forall (fun y => T <= now y <= T + WINDOW_MS /\ now y < U32.modulus
                   /\ isHigh y = false) l ->
  pending T F (final s l) /\ Forall noFall (outputs s l).
Proof.
  revert s. induction l as [|y l IH]; intros s Hp Hl; cbn [final outputs].
  - split; [exact Hp|constructor].
  - inversion Hl as [|? ? [Hy [Hr Hh]] Hl']; subst.
    destruct (pending_stays s y Hp Hy Hr Hh) as [Hp' Hn].
    destruct (IH _ Hp' Hl') as [IH1 IH2].
    split; [exact IH1|constructor; [exact Hn|exact IH2]].
Qed.

End WindowOpen.

(** C3 as stated fails: the dip at T = 2000 opens the window, no reading
    up to T + 300 is above 2.8 g, and yet the impact read at T + 400 is
    detected as a fall for that dip, because line 135 is evaluated before
    the window test of line 139. *)
Lemma window_expiry_counterexample :
  let l := [mkSample 2000 g_0_2; mkSample 2100 ONE_G; mkSample 2200 ONE_G;
            mkSample 2300 ONE_G; mkSample 2400 g_3_0] in
  inLowWindow (fst (loop boot (mkSample 2000 g_0_2))) = true
  /\ Forall (fun y => now y <= 2000 + WINDOW_MS -> isHigh y = false) l
  /\ map fallEvent (outputs boot l) = [false; false; false; false; true]
  /\ lastLowTime (final boot [mkSample 2000 g_0_2; mkSample 2100 ONE_G;
                              mkSample 2200 ONE_G; mkSample 2300 ONE_G])
     = 2000.
Proof.
  cbv zeta. split; [vm_compute; reflexivity|]. split.
  - repeat constructor; cbn [now]; unfold WINDOW_MS; intros;
      try (vm_compute; reflexivity); lia.
  - split; vm_compute; reflexivity.
Qed.

(** C3 (window expiry), amended.  Let the reading at [T = now x0] be below
    [FALL_LOW_G] and open the low-g window, let the readings [l] that
    follow up to [T + WINDOW_MS] not be above [FALL_HIGH_G], and let the
    first reading [xc] later than [T + WINDOW_MS] not be above
    [FALL_HIGH_G] either.  Then none of these iterations detects a fall,
    the window is still open before [xc] and closed after it, and any fall
    detected later follows a new reading below [FALL_LOW_G]. *)
Theorem window_expiry
  (s : State) (x0 : Sample) (l : list Sample) (xc : Sample) :
  fallDetected s = false -> inLowWindow s = false ->
  0 <= lastFallTime s <= now x0 -> now x0 < U32.modulus ->
  COOLDOWN_MS < U32.sub (now x0) (lastFallTime s) -> isLow x0 = true ->
  Forall (fun y => now x0 <= now y <= now x0 + WINDOW_MS
                   /\ now y < U32.modulus /\ isHigh y = false) l ->
  now x0 + WINDOW_MS < now xc < U32.modulus -> isHigh xc = false ->
  Forall noFall (outputs s (x0 :: l ++ [xc]))
  /\ inLowWindow (final s (x0 :: l)) = true
  /\ lastLowTime (final s (x0 :: l)) = now x0
  /\ inLowWindow (final s (x0 :: l ++ [xc])) = false
  /\ (forall (l' : list Sample) (y : Sample),
        fallEvent (snd (loop (final s (x0 :: l ++ xc :: l')) y)) = true ->
        Exists (fun z => isLow z = true) l').
Proof.
  intros Hf Hw HF Hr Hg Hlow Hl [Hc Hcr] Hh.
  destruct (dip_opens_window s x0 Hf Hw Hg Hlow) as [Hp Hn0].
  assert (Hg' : COOLDOWN_MS < now x0 - lastFallTime s)
    by (rewrite u32_sub_exact in Hg by lia; exact Hg).
  destruct (pending_run _ _ (proj1 HF) (proj2 HF) Hg' l _ Hp Hl) as [Hp' Hn].
  destruct (pending_expires _ _ (proj1 HF) (proj2 HF) Hg' _ xc Hp' Hc Hcr)
    as [Hclosed Hnc].
  rewrite Hh in Hnc.
  assert (Hfin : final s (x0 :: l ++ [xc])
                 = fst (loop (final (fst (loop s x0)) l) xc)).
  { cbn [final]. rewrite final_app. reflexivity. }
  split; [|split; [|split; [|split]]].
  - cbn [outputs app]. constructor; [exact Hn0|].
    rewrite outputs_app. apply Forall_app. split; [exact Hn|].
    cbn [outputs]. constructor; [exact Hnc|constructor].
  - cbn [final]. exact (proj1 (proj2 Hp')).
  - cbn [final]. exact (proj1 (proj2 (proj2 Hp'))).
  - rewrite Hfin. exact Hclosed.
  - intros l' y Hy.
    replace (x0 :: l ++ xc :: l') with ((x0 :: l ++ [xc]) ++ l') in Hy
      by (cbn; rewrite <- app_assoc; reflexivity).
    rewrite final_app in Hy.
    apply (next_fall_needs_dip l' (final s (x0 :: l ++ [xc])) y).
    + apply final_clears_fallDetected. exact Hf.
    + rewrite Hfin. exact Hclosed.
    + exact Hy.
Qed.

(** The dip of the counterexample, followed by a reading at rest at
    T + 400 instead of the impact. *)
Lemma window_expiry_witness :
  let x0 := mkSample 2000 g_0_2 in
  let l := [mkSample 2100 ONE_G; mkSample 2200 ONE_G; mkSample 2300 ONE_G] in
  let xc := mkSample 2400 ONE_G in
  (fallDetected boot = false /\ inLowWindow boot = false
   /\ 0 <= lastFallTime boot <= now x0 /\ now x0 < U32.modulus
   /\ COOLDOWN_MS < U32.sub (now x0) (lastFallTime boot) /\ isLow x0 = true
   /\ Forall (fun y => now x0 <= now y <= now x0 + WINDOW_MS
                       /\ now y < U32.modulus /\ isHigh y = false) l
   /\ now x0 + WINDOW_MS < now xc < U32.modulus /\ isHigh xc = false)
  /\ Forall noFall (outputs boot (x0 :: l ++ [xc]))
  /\ inLowWindow (final boot (x0 :: l ++ [xc])) = false.
Proof.
  cbv zeta.
  assert (H1 : fallDetected boot = false) by reflexivity.
  assert (H2 : inLowWindow boot = false) by reflexivity.
  assert (H3 : 0 <= lastFallTime boot <= now (mkSample 2000 g_0_2))
    by (cbn; lia).
  assert (H4 : now (mkSample 2000 g_0_2) < U32.modulus) by reflexivity.
  assert (H5 : COOLDOWN_MS < U32.sub (now (mkSample 2000 g_0_2))
                                     (lastFallTime boot)) by reflexivity.
  assert (H6 : isLow (mkSample 2000 g_0_2) = true) by reflexivity.
  assert (H7 : Forall (fun y => now (mkSample 2000 g_0_2) <= now y
                                <= now (mkSample 2000 g_0_2) + WINDOW_MS
                                /\ now y < U32.modulus /\ isHigh y = false)
                 [mkSample 2100 ONE_G; mkSample 2200 ONE_G;
                  mkSample 2300 ONE_G])
    by (repeat constructor; cbn; unfold WINDOW_MS; lia).
  assert (H8 : now (mkSample 2000 g_0_2) + WINDOW_MS
               < now (mkSample 2400 ONE_G) < U32.modulus)
    by (cbn; unfold WINDOW_MS, U32.modulus; lia).
  assert (H9 : isHigh (mkSample 2400 ONE_G) = false) by reflexivity.
  split; [repeat (split; [assumption|]); assumption|].
  destruct (window_expiry _ _ _ _ H1 H2 H3 H4 H5 H6 H7 H8 H9)
    as [Ha [_ [_ [Hb _]]]].
  split; [exact Ha|exact Hb].
Defined.

(** Scenario B read from t = 2000 on: at rest, a dip at 2050, and the
    next reading only at 2400, after the window; no fall, and the window is
    closed again. *)
Lemma scenarioB_run :
  let l := [mkSample 2000 ONE_G; mkSample 2050 g_0_2; mkSample 2400 g_0_25] in
  map fallEvent (outputs boot l) = [false; false; false]
  /\ inLowWindow (final boot [mkSample 2000 ONE_G; mkSample 2050 g_0_2]) = true
  /\ inLowWindow (final boot l) = false.
Proof.
  cbv zeta. repeat split; vm_compute; reflexivity.
Qed.

(** *** Scenario A *)

(** With the window closed, a reading that is not below [FALL_LOW_G]
    leaves the detector as it is. *)
Lemma quiet_step (s : State) (x : Sample) :
  fallDetected s = false -> inLowWindow s = false -> isLow x = false ->
  fallEvent (snd (loop s x)) = false
  /\ fallDetected (fst (loop s x)) = false
  /\ inLowWindow (fst (loop s x)) = false
  /\ lastFallTime (fst (loop s x)) = lastFallTime s.
Proof.
  unfold isLow. intros Hf Hw Hl. loop_cases; repeat split; congruence.
Qed.

(** The first three samples of Scenario A, read from [T] on after the
    boot cooldown: nothing is detected, and the 0.2 g reading opens the
    window at [T + 50]. *)
Lemma scenarioA_window (T : Z) :
  COOLDOWN_MS < T -> T + 150 < U32.modulus ->
  let l2 := [mkSample T ONE_G; mkSample (T + 50) g_0_2] in
  let l3 := l2 ++ [mkSample (T + 100) g_0_25] in
  map fallEvent (outputs boot l3) = [false; false; false]
  /\ pending (T + 50) 0 (final boot l2)
  /\ pending (T + 50) 0 (final boot l3).
Proof.
  intros HT Hr. unfold COOLDOWN_MS in HT. unfold U32.modulus in Hr.
  cbv zeta. cbn [app final outputs map].
  set (x1 := mkSample T ONE_G). set (x2 := mkSample (T + 50) g_0_2).
  set (x3 := mkSample (T + 100) g_0_25).
  destruct (quiet_step boot x1) as [H1 [H1f [H1w H1t]]]; try reflexivity.
  cbn [lastFallTime boot] in H1t.
  assert (Hgate : COOLDOWN_MS
                  < U32.sub (now x2) (lastFallTime (fst (loop boot x1)))).
  { rewrite H1t. cbn [now x2].
    rewrite u32_sub_exact by (unfold U32.modulus; lia).
    unfold COOLDOWN_MS. lia. }
  destruct (dip_opens_window (fst (loop boot x1)) x2 H1f H1w Hgate)
    as [H2p H2]; [reflexivity|].
  rewrite H1t in H2p. cbn [now x2] in H2p.
  assert (Hg : COOLDOWN_MS < T + 50 - 0) by (unfold COOLDOWN_MS; lia).
  destruct (pending_stays (T + 50) 0 ltac:(lia) ltac:(lia) Hg _ x3 H2p)
    as [H3p H3]; try reflexivity;
    try (cbn [now x3]; unfold WINDOW_MS, U32.modulus); try lia.
  rewrite H1, H2, H3.
  split; [reflexivity|]. split; [exact H2p|exact H3p].
Qed.

(** C1 as stated fails: the four samples of Scenario A are read at most
    [COOLDOWN_MS] after the clock origin, where line 129 skips the
    detection; the iteration at t = 150 detects nothing and records
    nothing. *)
Lemma scenarioA_counterexample :
  map fallEvent (outputs boot scenarioA) = [false; false; false; false]
  /\ lastFallTime (final boot scenarioA) = 0
  /\ inactivityTriggered (final boot scenarioA) = false.
Proof.
  repeat split; vm_compute; reflexivity.
Qed.

(** C1 (Scenario A), amended.  When the four readings of Scenario A are
    taken at [T], [T + 50], [T + 100] and [T + 150] with [T] later than
    [COOLDOWN_MS] after the clock origin, the iteration at [T + 150], and
    only that one, detects a fall.  The low-g window was opened at [T + 50]
    by the 0.2 g reading, the fall is triggered by the 3.0 g reading, and
    the time from the opening of the window to the fall is 100 ms.  The
    loop records the fall as [lastFallTime = T + 150] and sets
    [inactivityTriggered]; it keeps no record of the two magnitudes. *)
Theorem scenarioA_detected (T : Z) :
  COOLDOWN_MS < T -> T + 150 < U32.modulus ->
  map fallEvent (outputs boot (scenarioA_from T)) = [false; false; false; true]
  /\ pending (T + 50) 0
       (final boot [mkSample T ONE_G; mkSample (T + 50) g_0_2])
  /\ pending (T + 50) 0
       (final boot [mkSample T ONE_G; mkSample (T + 50) g_0_2;
                    mkSample (T + 100) g_0_25])
  /\ lastFallTime (final boot (scenarioA_from T)) = T + 150
  /\ U32.sub (T + 150) (T + 50) = 100
  /\ inactivityTriggered (final boot (scenarioA_from T)) = true
  /\ inLowWindow (final boot (scenarioA_from T)) = false.
Proof.
  intros HT Hr.
  destruct (scenarioA_window T HT Hr) as [Hout [Hp2 Hp3]]. cbv zeta in *.
  cbn [app] in *. unfold scenarioA_from.
  set (l3 := [mkSample T ONE_G; mkSample (T + 50) g_0_2;
              mkSample (T + 100) g_0_25]) in *.
  set (x4 := mkSample (T + 150) g_3_0).
  change [mkSample T ONE_G; mkSample (T + 50) g_0_2;
          mkSample (T + 100) g_0_25; x4] with (l3 ++ [x4]).
  rewrite outputs_app, map_app, Hout, final_app. cbn [outputs final map app].
  unfold COOLDOWN_MS in HT. unfold U32.modulus in Hr.
  assert (Hg : COOLDOWN_MS < T + 50 - 0) by (unfold COOLDOWN_MS; lia).
  destruct (pending_impact (T + 50) 0 ltac:(lia) ltac:(lia) Hg _ x4 Hp3)
    as [H4 [H4t [H4i H4w]]];
    try reflexivity; try (cbn [now x4]; unfold U32.modulus); try lia.
  rewrite H4, H4t, H4i, H4w. cbn [now x4].
  split; [reflexivity|]. split; [exact Hp2|]. split; [exact Hp3|].
  split; [reflexivity|]. split; [|split; reflexivity].
  rewrite u32_sub_exact by (unfold U32.modulus; lia). lia.
Qed.

Lemma scenarioA_detected_witness :
  COOLDOWN_MS < 2000 /\ 2000 + 150 < U32.modulus
  /\ map fallEvent (outputs boot (scenarioA_from 2000))
     = [false; false; false; true].
Proof.
  assert (H1 : COOLDOWN_MS < 2000) by reflexivity.
  assert (H2 : 2000 + 150 < U32.modulus) by reflexivity.
  split; [exact H1|]. split; [exact H2|].
  exact (proj1 (scenarioA_detected 2000 H1 H2)).
Defined.

(** C8 (Scenario D).  After the four samples of Scenario A, a further
    sample read at t = 1500 is not detected as a fall, whatever its
    magnitude: no iteration of the extended trace runs the FALL EVENT
    block. *)
Theorem scenarioD_no_second_fall (m : float) :
  map fallEvent (outputs boot (scenarioA ++ [mkSample 1500 m]))
  = [false; false; false; false; false].
Proof.
  rewrite outputs_app, map_app.
  replace (map fallEvent (outputs boot scenarioA))
    with [false; false; false; false] by (vm_compute; reflexivity).
  cbn [outputs map app]. repeat f_equal.
  destruct (fallEvent (snd (loop (final boot scenarioA) (mkSample 1500 m))))
    eqn:Hfall; [|reflexivity].
  apply fall_iff in Hfall; [|vm_compute; reflexivity].
  destruct Hfall as [_ [Hw _]]. vm_compute in Hw. discriminate.
Qed.

(** The same holds when Scenario A is read after the boot cooldown and its
    fall is detected at [T + 150]: the sample 1350 ms later is outside the
    cooldown, but the window is closed and a single reading cannot be a
    fall. *)
Lemma scenarioD_after_detected_fall (T : Z) (m : float) :
  COOLDOWN_MS < T -> T + 150 < U32.modulus ->
  fallEvent (snd (loop (final boot (scenarioA_from T))
                       (mkSample (T + 1500) m))) = false.
Proof.
  intros HT Hr.
  destruct (scenarioA_window T HT Hr) as [_ [_ Hp3]]. cbv zeta in Hp3.
  cbn [app] in Hp3. unfold scenarioA_from.
  set (l3 := [mkSample T ONE_G; mkSample (T + 50) g_0_2;
              mkSample (T + 100) g_0_25]) in *.
  set (x4 := mkSample (T + 150) g_3_0).
  change [mkSample T ONE_G; mkSample (T + 50) g_0_2;
          mkSample (T + 100) g_0_25; x4] with (l3 ++ [x4]).
  rewrite final_app. cbn [final].
  unfold COOLDOWN_MS in HT. unfold U32.modulus in Hr.
  assert (Hg : COOLDOWN_MS < T + 50 - 0) by (unfold COOLDOWN_MS; lia).
  destruct (pending_impact (T + 50) 0 ltac:(lia) ltac:(lia) Hg _ x4 Hp3)
    as [_ [_ [_ Hw]]];
    try reflexivity; try (cbn [now x4]; unfold U32.modulus); try lia.
  destruct (fallEvent _) eqn:Hfall; [|reflexivity].
  apply fall_iff in Hfall; [|apply loop_clears_fallDetected].
  destruct Hfall as [_ [Hw' _]]. congruence.
Qed.

(** *** binary32 arithmetic *)

(** The constants of the controller as binary numbers: 0.3f, 2.8f and
    1.0f, and the [double] 0.05. *)
Lemma constants_values :
  FALL_LOW_G = S754_finite false 10066330 (-25)
  /\ FALL_HIGH_G = S754_finite false 11744051 (-22)
  /\ ONE_G = S754_finite false 8388608 (-23)
  /\ MOVEMENT_DELTA = S754_finite false 7205759403792794 (-57)
  /\ valid FALL_LOW_G = true /\ valid FALL_HIGH_G = true
  /\ valid ONE_G = true.
Proof.
  repeat split.
Qed.

(** On the readings of the scenarios, [widen] is the rounding to binary64,
    which is exact. *)
Lemma widen_is_rounding :
  Forall (fun a => match a with
                   | S754_finite sg m e =>
                       widen a = binary_normalize dprec demax
                                   (cond_Zopp sg (Zpos m)) e sg
                   | _ => widen a = a
                   end)
         [ONE_G; g_0_2; g_0_25; g_3_0; FALL_LOW_G; FALL_HIGH_G].
Proof.
  repeat constructor.
Qed.

(** [digits2_pos] is the number of bits of a positive number. *)
Lemma digits2_size (m : positive) : digits2_pos m = Pos.size m.
Proof.
  induction m; cbn; congruence.
Qed.

(** A number of [d] bits lies between [2^(d-1)] and [2^d]. *)
Lemma digits2_bounds (m : positive) :
  2 ^ (Zpos (digits2_pos m) - 1) <= Zpos m < 2 ^ Zpos (digits2_pos m).
Proof.
  rewrite digits2_size. split.
  - pose proof (Pos.size_le m) as H.
    assert (H' : Zpos (2 ^ Pos.size m) <= Zpos m~0) by exact H.
    clear H. rewrite Pos2Z.inj_pow in H'.
    assert (Hs : 1 <= Zpos (Pos.size m)) by lia.
    replace (Zpos (Pos.size m)) with (1 + (Zpos (Pos.size m) - 1)) in H' by lia.
    rewrite Z.pow_add_r in H' by lia. change (2 ^ 1) with 2 in H'.
    change (Zpos m~0) with (2 * Zpos m) in H'. lia.
  - pose proof (Pos.size_gt m) as H.
    assert (H' : Zpos m < Zpos (2 ^ Pos.size m)) by exact H.
    clear H. rewrite Pos2Z.inj_pow in H'. exact H'.
Qed.

(** Adding one adds at most one bit. *)
Lemma digits2_succ (m : positive) :
  Zpos (digits2_pos m) <= Zpos (digits2_pos (m + 1))
  <= Zpos (digits2_pos m) + 1.
Proof.
  destruct (digits2_bounds m) as [B1 B2].
  destruct (digits2_bounds (m + 1)) as [C1 C2].
  set (k := Zpos (digits2_pos m)) in *.
  set (k' := Zpos (digits2_pos (m + 1))) in *.
  assert (Hk : 0 < k) by (subst k; lia).
  assert (Hk' : 0 < k') by (subst k'; lia).
  rewrite Pos2Z.inj_add in C1, C2.
  split.
  - destruct (Z_lt_le_dec k' k) as [Hlt|]; [exfalso|assumption].
    assert (2 ^ k' <= 2 ^ (k - 1)) by (apply Z.pow_le_mono_r; lia). lia.
  - destruct (Z_lt_le_dec (k + 1) k') as [Hlt|]; [exfalso|assumption].
    assert (2 ^ (k + 1) <= 2 ^ (k' - 1)) by (apply Z.pow_le_mono_r; lia).
    rewrite Z.pow_add_r in H by lia. change (2 ^ 1) with 2 in H. lia.
Qed.

(** A left shift by [d] adds [d] bits. *)
Lemma digits2_iter_xO (d m : positive) :
  digits2_pos (Pos.iter xO m d) = (digits2_pos m + d)%positive.
Proof.
  induction d as [|d IH] using Pos.peano_ind.
  - cbn. lia.
  - rewrite Pos.iter_succ. cbn. rewrite IH. lia.
Qed.

Lemma Zdigits2_succ (m : Z) :
  0 <= m -> Zdigits2 m <= Zdigits2 (m + 1) <= Zdigits2 m + 1 /\ 0 < Zdigits2 (m + 1).
Proof.
  destruct m as [|p|p]; intros Hm; try lia.
  - cbn. lia.
  - change (Z.pos p + 1) with (Z.pos (p + 1)). cbn [Zdigits2].
    pose proof (digits2_succ p). lia.
Qed.

Lemma Zdigits2_pos_iff (m : Z) : 0 <= m -> (0 < Zdigits2 m <-> 0 < m).
Proof.
  destruct m; cbn; lia.
Qed.

(** A right shift by one removes one bit. *)
Lemma shr_1_digits (mrs : shr_record) :
  0 <= shr_m mrs ->
  0 <= shr_m (shr_1 mrs)
  /\ Zdigits2 (shr_m (shr_1 mrs)) = Z.max 0 (Zdigits2 (shr_m mrs) - 1).
Proof.
  destruct mrs as [m r s]. cbn [shr_m]. intros Hm.
  destruct m as [|[p|p|]|p]; cbn [shr_1 shr_m Zdigits2 digits2_pos]; try lia.
Qed.

Lemma iter_shr_1_digits (p : positive) (mrs : shr_record) :
  0 <= shr_m mrs ->
  0 <= shr_m (iter_pos shr_1 p mrs)
  /\ Zdigits2 (shr_m (iter_pos shr_1 p mrs))
     = Z.max 0 (Zdigits2 (shr_m mrs) - Zpos p).
Proof.
  revert mrs. induction p as [p IH|p IH|]; intros mrs Hm; cbn [iter_pos].
  - destruct (shr_1_digits mrs Hm) as [H1 D1].
    destruct (IH _ H1) as [H2 D2]. destruct (IH _ H2) as [H3 D3].
    split; [exact H3|]. rewrite D3, D2, D1. lia.
  - destruct (IH _ Hm) as [H2 D2]. destruct (IH _ H2) as [H3 D3].
    split; [exact H3|]. rewrite D3, D2. lia.
  - apply shr_1_digits. exact Hm.
Qed.

Lemma round_nearest_even_cases (m : Z) (l : location) :
  round_nearest_even m l = m \/ round_nearest_even m l = m + 1.
Proof.
  destruct l as [|[| |]]; cbn; auto. destruct (Z.even m); auto.
Qed.

Lemma Zdigits2_nonneg (m : Z) : 0 <= Zdigits2 m.
Proof.
  destruct m; cbn; lia.
Qed.

(** What one normalising shift returns. *)
Lemma shr_fexp_spec (m e : Z) (l : location) :
  0 <= m ->
  let n := fexp 24 128 (Zdigits2 m + e) - e in
  let r := shr_fexp 24 128 m e l in
  0 <= shr_m (fst r)
  /\ Zdigits2 (shr_m (fst r)) = Z.max 0 (Zdigits2 m - Z.max 0 n)
  /\ snd r = e + Z.max 0 n
  /\ (n <= 0 -> shr_m (fst r) = m /\ loc_of_shr_record (fst r) = l).
Proof.
  intros Hm. cbv zeta. unfold shr_fexp, shr.
  pose proof (Zdigits2_nonneg m) as Hd.
  assert (Hl : shr_m (shr_record_of_loc m l) = m
               /\ loc_of_shr_record (shr_record_of_loc m l) = l)
    by (destruct l as [|[| |]]; split; reflexivity).
  destruct Hl as [Hl1 Hl2].
  destruct (fexp 24 128 (Zdigits2 m + e) - e) as [|p|p] eqn:Hn;
    cbn [fst snd].
  - rewrite Hl1, Hl2. repeat split; try lia.
  - pose proof (iter_shr_1_digits p (shr_record_of_loc m l)) as H.
    rewrite Hl1 in H. destruct (H Hm) as [H1 H2].
    split; [exact H1|]. split; [rewrite H2; lia|]. split; lia.
  - rewrite Hl1, Hl2. repeat split; try lia.
Qed.

(** Rounding a mantissa that is not too short gives a well-formed
    binary32 number. *)
Lemma binary_round_aux_valid (sx : bool) (mz : positive) (ez : Z) :
  ez <= fexp 24 128 (Zpos (digits2_pos mz) + ez) ->
  valid_binary 24 128
    (binary_round_aux 24 128 sx (Zpos mz) ez loc_Exact) = true.
Proof.
  intros Hez. unfold binary_round_aux.
  pose proof (shr_fexp_spec (Zpos mz) ez loc_Exact ltac:(lia)) as S1.
  cbv zeta in S1. cbn [Zdigits2] in S1.
  destruct (shr_fexp 24 128 (Z.pos mz) ez loc_Exact) as [mrs1 e1].
  cbn [fst snd] in S1. destruct S1 as [P1 [D1 [E1 Z1]]].
  set (m1 := shr_m mrs1) in *.
  set (m2 := round_nearest_even m1 (loc_of_shr_record mrs1)).
  assert (Hm2 : 0 <= m2
                /\ Zdigits2 m1 <= Zdigits2 m2 <= Zdigits2 m1 + 1
                /\ (Zdigits2 m2 = Zdigits2 m1 \/ 0 < Zdigits2 m2)
                /\ (fexp 24 128 (Z.pos (digits2_pos mz) + ez) - ez <= 0
                    -> Zdigits2 m2 = Zdigits2 m1)).
  { subst m2. pose proof (Zdigits2_succ m1 P1) as Hs.
    split; [|split; [|split]].
    - destruct (round_nearest_even_cases m1 (loc_of_shr_record mrs1)) as [H|H];
        rewrite H; lia.
    - destruct (round_nearest_even_cases m1 (loc_of_shr_record mrs1)) as [H|H];
        rewrite H; lia.
    - destruct (round_nearest_even_cases m1 (loc_of_shr_record mrs1)) as [H|H];
        rewrite H; lia.
    - intros Hn. destruct (Z1 Hn) as [_ Hl]. rewrite Hl. reflexivity. }
  destruct Hm2 as [P2 [D2 [C2 E2]]].
  pose proof (shr_fexp_spec m2 e1 loc_Exact P2) as S2. cbv zeta in S2.
  destruct (shr_fexp 24 128 m2 e1 loc_Exact) as [mrs2 e2].
  cbn [fst snd] in S2. destruct S2 as [P3 [D3 [E3 _]]].
  destruct (shr_m mrs2) as [|m3|m3] eqn:Hm3; [reflexivity| |lia].
  destruct (e2 <=? 128 - 24) eqn:Hb; [|reflexivity].
  cbn [valid_binary]. unfold bounded, canonical_mantissa.
  rewrite Hb, andb_true_r. apply Z.eqb_eq.
  cbn [Zdigits2] in D3. clear Z1 Hm3 Hb P1 P2 P3.
  unfold fexp, emin in *. lia.
Qed.

Lemma binary_round_valid (sx : bool) (mx : positive) (ex : Z) :
  valid_binary 24 128 (binary_round 24 128 sx mx ex) = true.
Proof.
  unfold binary_round, shl_align.
  destruct (fexp 24 128 (Z.pos (digits2_pos mx) + ex) - ex) as [|p|p] eqn:Hn.
  - apply binary_round_aux_valid. lia.
  - apply binary_round_aux_valid. lia.
  - apply binary_round_aux_valid. rewrite digits2_iter_xO.
    rewrite Pos2Z.inj_add.
    replace (Z.pos (digits2_pos mx) + Z.pos p
             + fexp 24 128 (Z.pos (digits2_pos mx) + ex))
      with (Z.pos (digits2_pos mx) + ex) by lia.
    lia.
Qed.

Lemma binary_normalize_valid (m e : Z) (sz : bool) :
  valid_binary 24 128 (binary_normalize 24 128 m e sz) = true.
Proof.
  destruct m; cbn [binary_normalize]; [reflexivity| |];
    apply binary_round_valid.
Qed.

(** The difference of two well-formed binary32 numbers is one. *)
Lemma sub_valid (a b : float) :
  valid a = true -> valid b = true -> valid (sub a b) = true.
Proof.
  unfold valid, sub, prec, emax. intros Ha Hb.
  destruct a as [sa|sa| |sa ma ea], b as [sb|sb| |sb mb eb];
    try (destruct sa, sb; reflexivity); try reflexivity; try assumption.
  unfold SFsub. apply binary_normalize_valid.
Qed.

(** *** Movement and inactivity *)

(** A well-formed binary32 mantissa has at most 24 bits. *)
Lemma valid_digits (sg : bool) (m : positive) (e : Z) :
  valid (S754_finite sg m e) = true -> Zpos (digits2_pos m) <= 24.
Proof.
  unfold valid, valid_binary, bounded, canonical_mantissa, fexp, emin, prec, emax.
  intros H. apply andb_true_iff in H. destruct H as [H _].
  apply Z.eqb_eq in H. lia.
Qed.

(** No binary32 value equals the [double] literal [0.05]: for the
    difference of two [float] readings, "at least 0.05" and "more than
    0.05" are the same test. *)
Lemma delta_ge_is_gt (d : float) :
  valid d = true ->
  leb MOVEMENT_DELTA (widen (fabs d)) = true ->
  ltb MOVEMENT_DELTA (widen (fabs d)) = true.
Proof.
  destruct d as [sg|sg| |sg m e]; try (intros _ H; exact H || discriminate H).
  intros Hv. apply valid_digits in Hv.
  unfold fabs, SFabs, widen, dprec.
  replace (0 <? 53 - Z.pos (digits2_pos m)) with true
    by (symmetry; apply Z.ltb_lt; lia).
  unfold leb, ltb, SFleb, SFltb, SFcompare, MOVEMENT_DELTA.
  destruct (Z.compare_spec (-57) (e - (53 - Z.pos (digits2_pos m))));
    try congruence.
  rewrite Pos.compare_cont_spec.
  destruct (Pos.compare_spec 7205759403792794
              (shift_pos (Z.to_pos (53 - Z.pos (digits2_pos m))) m))
    as [He|Hlt|Hgt]; cbn [Pos.switch_Eq]; try congruence.
  exfalso.
  apply (f_equal Zpos) in He. rewrite shift_pos_correct in He.
  rewrite Z.pow_pos_fold in He.
  rewrite Z2Pos.id in He by lia.
  replace (53 - Z.pos (digits2_pos m))
    with (2 + (51 - Z.pos (digits2_pos m))) in He by lia.
  rewrite Z.pow_add_r in He by lia.
  set (q := 2 ^ (51 - Z.pos (digits2_pos m)) * Z.pos m) in *.
  assert (Hq : Z.pos 7205759403792794 = 4 * q) by (subst q; lia).
  lia.
Qed.

(** Lines 122-125 on their own: a movement stamps [lastMovementTime] and
    clears [inactivityTriggered]. *)
Lemma movementCheck_moved (s : State) (x : Sample) :
  moved (totalAcc x) (lastAcc s) = true ->
  lastMovementTime (movementCheck x s) = now x
  /\ inactivityTriggered (movementCheck x s) = false.
Proof.
  intros Hm. unfold movementCheck. rewrite Hm. split; reflexivity.
Qed.

(** After a movement the iteration raises no alert, and the flag is set at
    its end exactly when the same iteration detected a fall. *)
Lemma moved_step (s : State) (x : Sample) :
  moved (totalAcc x) (lastAcc s) = true ->
  inactivityAlert (snd (loop s x)) = false
  /\ lastMovementTime (fst (loop s x)) = now x
  /\ inactivityTriggered (fst (loop s x)) = fallEvent (snd (loop s x)).
Proof.
  intros Hm. loop_cases; rewrite ?u32_sub_diag in *;
    repeat split; try congruence; try discriminate.
Qed.

(** With the flag cleared, no alert is raised before the next fall. *)
Lemma untriggered_run (l : list Sample) (s : State) :
  inactivityTriggered s = false ->
  Forall noFall (outputs s l) ->
  Forall noAlert (outputs s l) /\ inactivityTriggered (final s l) = false.
Proof.
  revert s. induction l as [|y l IH]; intros s Ht Hl; cbn.
  - split; [constructor|exact Ht].
  - cbn in Hl. inversion Hl as [|? ? Hy Hl']; subst.
    assert (Hstep : inactivityAlert (snd (loop s y)) = false
                    /\ inactivityTriggered (fst (loop s y)) = false).
    { unfold noFall in Hy. revert Hy. loop_cases; intros;
        split; congruence. }
    destruct Hstep as [Ha Ht'].
    destruct (IH _ Ht' Hl') as [IH1 IH2].
    split; [constructor; [exact Ha|exact IH1]|exact IH2].
Qed.

(** C6 as stated fails: 1100 ms after the fall of t = 2150, the reading
    of t = 3250 differs from the previous one by 2.8 g, which is a
    movement, and it completes a second fall; line 157 sets
    [inactivityTriggered] again, so the flag is set, not cleared, when the
    iteration ends. *)
Lemma movement_cancels_counterexample :
  let l := scenarioA_from 2000 ++ [mkSample 3200 g_0_2] in
  let x := mkSample 3250 g_3_0 in
  map fallEvent (outputs boot l) = [false; false; false; true; false]
  /\ valid (totalAcc x) = true /\ valid (lastAcc (final boot l)) = true
  /\ leb MOVEMENT_DELTA
       (widen (fabs (sub (totalAcc x) (lastAcc (final boot l))))) = true
  /\ U32.sub (now x) 2150 <= INACTIVITY_TIMEOUT_MS
  /\ inactivityTriggered (movementCheck x (final boot l)) = false
  /\ inactivityTriggered (fst (loop (final boot l) x)) = true.
Proof.
  cbv zeta. repeat split; vm_compute; try reflexivity; discriminate.
Qed.

(** C6 (movement cancels inactivity), amended.  When a reading differs
    from the previous one (both well-formed binary32 numbers) by at least
    0.05 g, the iteration stamps
    [lastMovementTime] and raises no inactivity alert; and, unless the same
    iteration detects a new fall (which sets the flag again),
    [inactivityTriggered] is cleared when it ends and no inactivity alert
    is raised before the next detected fall. *)
Theorem movement_cancels_inactivity (s : State) (x : Sample) :
  valid (totalAcc x) = true -> valid (lastAcc s) = true ->
  leb MOVEMENT_DELTA (widen (fabs (sub (totalAcc x) (lastAcc s)))) = true ->
  inactivityAlert (snd (loop s x)) = false
  /\ lastMovementTime (fst (loop s x)) = now x
  /\ (fallEvent (snd (loop s x)) = false ->
      inactivityTriggered (fst (loop s x)) = false
      /\ forall l : list Sample,
           Forall noFall (outputs (fst (loop s x)) l) ->
           Forall noAlert (outputs (fst (loop s x)) l)).
Proof.
  intros Hx Hs Hge.
  assert (Hm : moved (totalAcc x) (lastAcc s) = true)
    by (apply delta_ge_is_gt; [apply sub_valid|]; assumption).
  destruct (moved_step s x Hm) as [Ha [Ht Hi]].
  split; [exact Ha|]. split; [exact Ht|].
  intros Hn. rewrite Hn in Hi. split; [exact Hi|].
  intros l Hl. apply (untriggered_run l _ Hi Hl).
Qed.

(** The first reading at rest after the fall of t = 2150. *)
Lemma movement_cancels_inactivity_witness :
  let s := final boot (scenarioA_from 2000) in
  let x := mkSample 2250 ONE_G in
  valid (totalAcc x) = true /\ valid (lastAcc s) = true
  /\ leb MOVEMENT_DELTA (widen (fabs (sub (totalAcc x) (lastAcc s)))) = true
  /\ inactivityTriggered s = true
  /\ inactivityAlert (snd (loop s x)) = false
  /\ inactivityTriggered (fst (loop s x)) = false.
Proof.
  cbv zeta.
  assert (H0 : valid (totalAcc (mkSample 2250 ONE_G)) = true)
    by (vm_compute; reflexivity).
  assert (H1 : valid (lastAcc (final boot (scenarioA_from 2000))) = true)
    by (vm_compute; reflexivity).
  assert (H2 : leb MOVEMENT_DELTA
                 (widen (fabs (sub (totalAcc (mkSample 2250 ONE_G))
                    (lastAcc (final boot (scenarioA_from 2000)))))) = true)
    by (vm_compute; reflexivity).
  split; [exact H0|]. split; [exact H1|]. split; [exact H2|].
  split; [vm_compute; reflexivity|].
  destruct (movement_cancels_inactivity _ _ H0 H1 H2) as [Ha [_ Hb]].
  split; [exact Ha|]. apply Hb. vm_compute. reflexivity.
Defined.

(** The reading at rest, 1.0 g, is a movement with respect to the 3.0 g
    of the impact, and no movement with respect to itself. *)
Lemma rest_after_impact_is_movement :
  moved ONE_G g_3_0 = true /\ moved ONE_G ONE_G = false.
Proof.
  split; vm_compute; reflexivity.
Qed.

(** Readings at rest never open the window. *)
Lemma atRest_quiet (n : nat) (t p : Z) (s : State) :
  fallDetected s = false -> inLowWindow s = false ->
  Forall noFall (outputs s (atRest n t p)).
Proof.
  revert t s. induction n as [|n IH]; intros t s Hf Hw; cbn; [constructor|].
  destruct (quiet_step s (mkSample t ONE_G) Hf Hw) as [H1 [H2 [H3 _]]];
    [reflexivity|].
  constructor; [exact H1|apply IH; assumption].
Qed.

(** C5 (Scenario C) on the code.  Let a fall be detected on a 3.0 g
    impact at any time [T], and let all later readings be 1.0 g, with any
    number of samples at any times.  Then no iteration raises the
    inactivity alert: the first reading at rest differs from the impact by
    more than 0.05 g, so line 124 clears [inactivityTriggered], and
    nothing sets it again. *)
Theorem still_after_fall_never_alerts
  (s : State) (T : Z) (n : nat) (t p : Z) :
  fallDetected s = false ->
  fallEvent (snd (loop s (mkSample T g_3_0))) = true ->
  Forall noAlert (outputs (fst (loop s (mkSample T g_3_0)))
                          (atRest (S n) t p))
  /\ inactivityTriggered (final (fst (loop s (mkSample T g_3_0)))
                                (atRest (S n) t p)) = false.
Proof.
  intros Hf Hfall.
  set (s1 := fst (loop s (mkSample T g_3_0))).
  assert (Hacc : lastAcc s1 = g_3_0)
    by (subst s1; loop_cases; reflexivity).
  pose proof (fall_closes_window _ _ Hf Hfall) as Hw. fold s1 in Hw.
  pose proof (loop_clears_fallDetected s (mkSample T g_3_0)) as Hf1.
  fold s1 in Hf1.
  cbn [atRest outputs final].
  set (x := mkSample t ONE_G).
  assert (Hm : moved (totalAcc x) (lastAcc s1) = true)
    by (rewrite Hacc; exact (proj1 rest_after_impact_is_movement)).
  destruct (moved_step s1 x Hm) as [Ha [_ Hi]].
  destruct (quiet_step s1 x Hf1 Hw) as [Hn [Hf2 [Hw2 _]]]; [reflexivity|].
  rewrite Hn in Hi.
  destruct (untriggered_run (atRest n (t + p) p) _ Hi
              (atRest_quiet n (t + p) p _ Hf2 Hw2)) as [H1 H2].
  split; [constructor; [exact Ha|exact H1]|exact H2].
Qed.

(** Scenario C read after the boot cooldown: the fall of t = 2150, then
    220 readings at rest, 100 ms apart, up to t = 24150. *)
Lemma still_after_fall_never_alerts_witness :
  let s := final boot [mkSample 2000 ONE_G; mkSample 2050 g_0_2;
                       mkSample 2100 g_0_25] in
  fallDetected s = false
  /\ fallEvent (snd (loop s (mkSample 2150 g_3_0))) = true
  /\ Forall noAlert (outputs (fst (loop s (mkSample 2150 g_3_0)))
                             (atRest 220 2250 100)).
Proof.
  cbv zeta.
  assert (H1 : fallDetected (final boot [mkSample 2000 ONE_G;
                 mkSample 2050 g_0_2; mkSample 2100 g_0_25]) = false)
    by (vm_compute; reflexivity).
  assert (H2 : fallEvent (snd (loop (final boot [mkSample 2000 ONE_G;
                 mkSample 2050 g_0_2; mkSample 2100 g_0_25])
                 (mkSample 2150 g_3_0))) = true)
    by (vm_compute; reflexivity).
  split; [exact H1|]. split; [exact H2|].
  exact (proj1 (still_after_fall_never_alerts _ 2150 219 2250 100 H1 H2)).
Defined.

(** The inactivity timer while the reading holds: with the last movement
    at [T] and the last buzz at [B], not before [T], a reading that is no
    movement raises the alert exactly when it is read more than 10000 ms
    after [B], and the alert moves [B] to that time. *)
Lemma armed_step (T B : Z) (s : State) (y : Sample) :
  armed T B s -> 0 <= T <= B -> B <= now y < U32.modulus ->
  moved (totalAcc y) (lastAcc s) = false -> isLow y = false ->
  fallEvent (snd (loop s y)) = false
  /\ inactivityAlert (snd (loop s y))
     = (INACTIVITY_ALERT_INTERVAL_MS <? now y - B)
  /\ armed T (if INACTIVITY_ALERT_INTERVAL_MS <? now y - B then now y else B)
           (fst (loop s y)).
Proof.
  unfold armed, isLow. intros [Hf [Hw [Ht [HT HB]]]] HTB Hy Hm Hl.
  subst T B.
  rewrite <- (u32_sub_exact (now y) (lastBuzzToggle s)) by lia.
  pose proof (u32_sub_exact (now y) (lastMovementTime s)) as E1.
  pose proof (u32_sub_exact (now y) (lastBuzzToggle s)) as E2.
  loop_cases; ltb_to_Z;
    unfold INACTIVITY_TIMEOUT_MS, INACTIVITY_ALERT_INTERVAL_MS in *;
    repeat split; try congruence; lia.
Qed.

(** After a fall at [T], while the readings hold and are read at most
    10000 ms after [T], no alert is raised; the first reading later than
    that raises it. *)
Lemma alert_after_timeout (T : Z) (l : list Sample) (y : Sample) (s : State) :
  armed T T s -> 0 <= T ->
  still (lastAcc s) (l ++ [y]) = true ->
  chronological T (l ++ [y]) = true ->
  Forall (fun z => now z <= T + INACTIVITY_TIMEOUT_MS) l ->
  T + INACTIVITY_TIMEOUT_MS < now y ->
  Forall noAlert (outputs s l)
  /\ inactivityAlert (snd (loop (final s l) y)) = true
  /\ armed T (now y) (fst (loop (final s l) y)).
Proof.
  intros Ha HT. revert s Ha.
  induction l as [|z l IH]; intros s Ha Hs Hc Hl Hy.
  - cbn [app] in Hs, Hc. cbn [final outputs].
    cbn [still] in Hs. apply andb_true_iff in Hs. destruct Hs as [Hs _].
    apply andb_true_iff in Hs. destruct Hs as [Hm Hlow].
    apply negb_true_iff in Hm, Hlow.
    destruct (chronological_cons _ _ _ Hc) as [H1 [H2 _]].
    destruct (armed_step T T s y Ha ltac:(lia) ltac:(lia) Hm Hlow)
      as [_ [Hal Har]].
    replace (INACTIVITY_ALERT_INTERVAL_MS <? now y - T) with true in *
      by (symmetry; apply Z.ltb_lt;
          unfold INACTIVITY_ALERT_INTERVAL_MS, INACTIVITY_TIMEOUT_MS in *; lia).
    split; [constructor|]. split; assumption.
  - rewrite <- app_comm_cons in Hs, Hc. cbn [final outputs].
    cbn [still] in Hs. apply andb_true_iff in Hs. destruct Hs as [Hs Hrest].
    apply andb_true_iff in Hs. destruct Hs as [Hm Hlow].
    apply negb_true_iff in Hm, Hlow.
    destruct (chronological_cons _ _ _ Hc) as [H1 [H2 H3]].
    inversion Hl as [|? ? Hz Hl']; subst.
    destruct (armed_step T T s z Ha ltac:(lia) ltac:(lia) Hm Hlow)
      as [_ [Hal Har]].
    replace (INACTIVITY_ALERT_INTERVAL_MS <? now z - T) with false in *
      by (symmetry; apply Z.ltb_ge;
          unfold INACTIVITY_ALERT_INTERVAL_MS, INACTIVITY_TIMEOUT_MS in *; lia).
    assert (Hacc : lastAcc (fst (loop s z)) = totalAcc z)
      by (loop_cases; reflexivity).
    rewrite <- Hacc in Hrest.
    destruct (IH _ Har Hrest (chronological_weaken _ _ _ H1 H3) Hl' Hy)
      as [IH1 IH2].
    split; [constructor; [exact Hal|exact IH1]|exact IH2].
Qed.

(** While the reading holds within 0.05 g of the impact, the alert is
    raised on the first sample more than [INACTIVITY_TIMEOUT_MS] after
    the fall (not on a sample exactly at that distance), and again on the
    first sample more than [INACTIVITY_ALERT_INTERVAL_MS] after the
    previous alert. *)
Lemma alert_while_reading_holds :
  map inactivityAlert
      (outputs (final boot (scenarioA_from 2000))
               [mkSample 12150 g_3_0; mkSample 12151 g_3_0;
                mkSample 22151 g_3_0; mkSample 22152 g_3_0])
  = [false; true; false; true].
Proof.
  vm_compute. reflexivity.
Qed.

(** *** Reset of the [FallDetector] *)

(** C9 (idempotent reset).  Resetting twice gives the same detector as
    resetting once; after a reset the state machine is Normal,
    [getLastFall] returns the zero-valued record, [isInCooldown] is false,
    the history buffer is empty and the inactivity tracker is cleared. *)
Theorem reset_idempotent (d : FallDetector.Detector) :
  FallDetector.reset (FallDetector.reset d) = FallDetector.reset d
  /\ FallDetector.getCurrentState (FallDetector.reset d)
     = FallDetector.FALL_STATE_NORMAL
  /\ FallDetector.getLastFall (FallDetector.reset d) = FallDetector.noFallYet
  /\ FallDetector.isInCooldown (FallDetector.reset d) = false
  /\ FallDetector.accelHistory (FallDetector.reset d) = []
  /\ FallDetector.accelHistoryCount (FallDetector.reset d) = 0
  /\ FallDetector.lastMovementTime (FallDetector.reset d) = 0
  /\ FallDetector.triggered (FallDetector.reset d) = false
  /\ FallDetector.lastAlertTimestamp (FallDetector.reset d) = 0.
Proof.
  split; [|repeat split].
  destruct d; reflexivity.
Qed.

(** *** Further properties of the detector *)

(** X1 (a dip followed by an impact is detected).  A reading below
    [FALL_LOW_G] after the cooldown, with the window closed; then
    readings inside the window that are not above [FALL_HIGH_G]; then a
    reading above [FALL_HIGH_G], read inside the window or as the first
    reading after it.  The fall is detected on that last reading and on
    none before it, [lastFallTime] is its time stamp, the inactivity
    timer is armed and the window is closed. *)
Theorem dip_then_impact_detected
  (s : State) (x0 : Sample) (l : list Sample) (y : Sample) :
  fallDetected s = false -> inLowWindow s = false ->
  0 <= lastFallTime s <= now x0 -> now x0 < U32.modulus ->
  COOLDOWN_MS < U32.sub (now x0) (lastFallTime s) -> isLow x0 = true ->
  Forall (fun z => now x0 <= now z <= now x0 + WINDOW_MS
                   /\ now z < U32.modulus /\ isHigh z = false) l ->
  now x0 <= now y < U32.modulus -> isHigh y = true ->
  Forall noFall (outputs s (x0 :: l))
  /\ fallEvent (snd (loop (final s (x0 :: l)) y)) = true
  /\ lastFallTime (final s (x0 :: l ++ [y])) = now y
  /\ inactivityTriggered (final s (x0 :: l ++ [y])) = true
  /\ inLowWindow (final s (x0 :: l ++ [y])) = false.
Proof.
  intros Hf Hw HF Hr Hg Hlow Hl [Hy Hyr] Hh.
  destruct (dip_opens_window s x0 Hf Hw Hg Hlow) as [Hp Hn0].
  assert (Hg' : COOLDOWN_MS < now x0 - lastFallTime s)
    by (rewrite u32_sub_exact in Hg by lia; exact Hg).
  destruct (pending_run _ _ (proj1 HF) (proj2 HF) Hg' l _ Hp Hl) as [Hp' Hn].
  destruct (pending_impact _ _ (proj1 HF) (proj2 HF) Hg' _ y Hp' Hy Hyr Hh)
    as [I1 [I2 [I3 I4]]].
  assert (Hfin : final s (x0 :: l ++ [y])
                 = fst (loop (final (fst (loop s x0)) l) y)).
  { cbn [final]. rewrite final_app. reflexivity. }
  rewrite Hfin. cbn [final outputs].
  split; [constructor; assumption|]. repeat split; assumption.
Qed.

(** A dip at 2000, two readings inside the window, the impact at 2400,
    after the window. *)
Lemma dip_then_impact_detected_witness :
  let l := [mkSample 2100 ONE_G; mkSample 2300 g_0_25] in
  Forall noFall (outputs boot (mkSample 2000 g_0_2 :: l))
  /\ fallEvent (snd (loop (final boot (mkSample 2000 g_0_2 :: l))
                          (mkSample 2400 g_3_0))) = true.
Proof.
  cbv zeta.
  assert (Hl : Forall (fun z => 2000 <= now z <= 2000 + WINDOW_MS
                                /\ now z < U32.modulus /\ isHigh z = false)
                 [mkSample 2100 ONE_G; mkSample 2300 g_0_25])
    by (repeat constructor; cbn [now]; unfold WINDOW_MS, U32.modulus; lia).
  assert (Hg : COOLDOWN_MS < U32.sub 2000 0) by (vm_compute; reflexivity).
  destruct (dip_then_impact_detected boot (mkSample 2000 g_0_2) _
              (mkSample 2400 g_3_0) eq_refl eq_refl
              ltac:(cbn; lia) ltac:(cbn; unfold U32.modulus; lia) Hg eq_refl Hl
              ltac:(cbn; unfold U32.modulus; lia) eq_refl)
    as [H1 [H2 _]].
  split; [exact H1|exact H2].
Defined.

(** The state the FALL EVENT block leaves behind arms the inactivity
    timer. *)
Lemma fall_arms (s : State) (x : Sample) :
  fallDetected s = false -> fallEvent (snd (loop s x)) = true ->
  armed (now x) (now x) (fst (loop s x))
  /\ lastAcc (fst (loop s x)) = totalAcc x.
Proof.
  intros Hf Hx.
  destruct (fall_stamps s x Hx) as [_ [H2 [H3 [H4 _]]]].
  unfold armed. repeat split; try assumption.
  - apply loop_clears_fallDetected.
  - apply fall_closes_window; assumption.
  - loop_cases; reflexivity.
Qed.

(** With the timer armed and the last buzz at [B], readings that hold are
    silent up to [B + 10000] and the first later one raises the alert. *)
Lemma armed_run (T B : Z) (l : list Sample) (y : Sample) (rest : list Sample)
  (s : State) :
  armed T B s -> 0 <= T <= B ->
  still (lastAcc s) (l ++ y :: rest) = true ->
  chronological B (l ++ y :: rest) = true ->
  Forall (fun z => now z <= B + INACTIVITY_ALERT_INTERVAL_MS) l ->
  B + INACTIVITY_ALERT_INTERVAL_MS < now y ->
  Forall noAlert (outputs s l)
  /\ inactivityAlert (snd (loop (final s l) y)) = true
  /\ armed T (now y) (fst (loop (final s l) y))
  /\ lastAcc (fst (loop (final s l) y)) = totalAcc y
  /\ still (totalAcc y) rest = true
  /\ chronological (now y) rest = true.
Proof.
  intros Ha HT. revert s Ha.
  induction l as [|z l IH]; intros s Ha Hs Hc Hl Hy.
  - cbn [app] in Hs, Hc. cbn [final outputs].
    cbn [still] in Hs. apply andb_true_iff in Hs. destruct Hs as [Hs Hrest].
    apply andb_true_iff in Hs. destruct Hs as [Hm Hlow].
    apply negb_true_iff in Hm, Hlow.
    destruct (chronological_cons _ _ _ Hc) as [H1 [H2 H3]].
    destruct (armed_step T B s y Ha HT ltac:(lia) Hm Hlow)
      as [_ [Hal Har]].
    replace (INACTIVITY_ALERT_INTERVAL_MS <? now y - B) with true in *
      by (symmetry; apply Z.ltb_lt; lia).
    split; [constructor|]. repeat split; try assumption; try apply Har.
    loop_cases; reflexivity.
  - rewrite <- app_comm_cons in Hs, Hc. cbn [final outputs].
    cbn [still] in Hs. apply andb_true_iff in Hs. destruct Hs as [Hs Hrest].
    apply andb_true_iff in Hs. destruct Hs as [Hm Hlow].
    apply negb_true_iff in Hm, Hlow.
    destruct (chronological_cons _ _ _ Hc) as [H1 [H2 H3]].
    inversion Hl as [|? ? Hz Hl']; subst.
    destruct (armed_step T B s z Ha HT ltac:(lia) Hm Hlow)
      as [_ [Hal Har]].
    replace (INACTIVITY_ALERT_INTERVAL_MS <? now z - B) with false in *
      by (symmetry; apply Z.ltb_ge; lia).
    assert (Hacc : lastAcc (fst (loop s z)) = totalAcc z)
      by (loop_cases; reflexivity).
    rewrite <- Hacc in Hrest.
    destruct (IH _ Har Hrest (chronological_weaken _ _ _ H1 H3) Hl' Hy)
      as [IH1 IH2].
    split; [constructor; [exact Hal|exact IH1]|exact IH2].
Qed.

(** X2 (the schedule of the inactivity alert).  After a fall at [T], as
    long as every reading stays within 0.05 g of its predecessor (the
    first one of the reading of the impact) and not below [FALL_LOW_G],
    the alert is raised on the first reading later than [T + 10000],
    then on the first reading more than 10000 ms after that one, and on
    no reading in between. *)
Theorem inactivity_alert_schedule
  (s : State) (x : Sample) (l1 : list Sample) (y1 : Sample)
  (l2 : list Sample) (y2 : Sample) :
  fallDetected s = false -> fallEvent (snd (loop s x)) = true ->
  0 <= now x ->
  still (totalAcc x) (l1 ++ y1 :: l2 ++ [y2]) = true ->
  chronological (now x) (l1 ++ y1 :: l2 ++ [y2]) = true ->
  Forall (fun z => now z <= now x + INACTIVITY_TIMEOUT_MS) l1 ->
  now x + INACTIVITY_TIMEOUT_MS < now y1 ->
  Forall (fun z => now z <= now y1 + INACTIVITY_ALERT_INTERVAL_MS) l2 ->
  now y1 + INACTIVITY_ALERT_INTERVAL_MS < now y2 ->
  let s1 := fst (loop s x) in
  let s2 := fst (loop (final s1 l1) y1) in
  Forall noAlert (outputs s1 l1)
  /\ inactivityAlert (snd (loop (final s1 l1) y1)) = true
  /\ Forall noAlert (outputs s2 l2)
  /\ inactivityAlert (snd (loop (final s2 l2) y2)) = true.
Proof.
  intros Hf Hx H0 Hs Hc Hl1 Hy1 Hl2 Hy2. cbv zeta.
  destruct (fall_arms s x Hf Hx) as [Ha Hacc].
  rewrite <- Hacc in Hs.
  destruct (armed_run (now x) (now x) l1 y1 (l2 ++ [y2]) _ Ha ltac:(lia)
              Hs Hc Hl1 Hy1) as [A1 [A2 [A3 [A4 [A5 A6]]]]].
  rewrite <- A4 in A5.
  assert (Hy : now x <= now y1) by
    (unfold INACTIVITY_TIMEOUT_MS in Hy1; lia).
  destruct (armed_run (now x) (now y1) l2 y2 [] _ A3 ltac:(lia)
              A5 A6 Hl2 Hy2) as [B1 [B2 _]].
  repeat split; assumption.
Qed.

(** The fall of t = 2150 with the reading held at 3.0 g: silent at 7000
    and 12150, the alert at 12151. *)
Lemma inactivity_alert_schedule_witness :
  let s := final boot [mkSample 2000 ONE_G; mkSample 2050 g_0_2;
                       mkSample 2100 g_0_25] in
  let s1 := fst (loop s (mkSample 2150 g_3_0)) in
  fallEvent (snd (loop s (mkSample 2150 g_3_0))) = true
  /\ Forall noAlert (outputs s1 [mkSample 7000 g_3_0; mkSample 12150 g_3_0])
  /\ inactivityAlert
       (snd (loop (final s1 [mkSample 7000 g_3_0; mkSample 12150 g_3_0])
                  (mkSample 12151 g_3_0))) = true.
Proof.
  cbv zeta.
  assert (H1 : fallDetected (final boot [mkSample 2000 ONE_G;
                 mkSample 2050 g_0_2; mkSample 2100 g_0_25]) = false)
    by (vm_compute; reflexivity).
  assert (H2 : fallEvent (snd (loop (final boot [mkSample 2000 ONE_G;
                 mkSample 2050 g_0_2; mkSample 2100 g_0_25])
                 (mkSample 2150 g_3_0))) = true)
    by (vm_compute; reflexivity).
  assert (H3 : still g_3_0 ([mkSample 7000 g_3_0; mkSample 12150 g_3_0]
                              ++ mkSample 12151 g_3_0
                              :: [mkSample 17000 g_3_0] ++ [mkSample 22152 g_3_0])
               = true) by (vm_compute; reflexivity).
  assert (H4 : chronological 2150
                 ([mkSample 7000 g_3_0; mkSample 12150 g_3_0]
                    ++ mkSample 12151 g_3_0
                    :: [mkSample 17000 g_3_0] ++ [mkSample 22152 g_3_0])
               = true) by (vm_compute; reflexivity).
  assert (H5 : Forall (fun z => now z <= 2150 + INACTIVITY_TIMEOUT_MS)
                 [mkSample 7000 g_3_0; mkSample 12150 g_3_0])
    by (repeat constructor; cbn [now]; unfold INACTIVITY_TIMEOUT_MS; lia).
  assert (H6 : Forall (fun z => now z <= 12151 + INACTIVITY_ALERT_INTERVAL_MS)
                 [mkSample 17000 g_3_0])
    by (repeat constructor; cbn [now];
        unfold INACTIVITY_ALERT_INTERVAL_MS; lia).
  destruct (inactivity_alert_schedule _ (mkSample 2150 g_3_0) _
              (mkSample 12151 g_3_0) _ (mkSample 22152 g_3_0)
              H1 H2 ltac:(cbn [now]; lia) H3 H4 H5
              ltac:(cbn [now]; unfold INACTIVITY_TIMEOUT_MS; lia) H6
              ltac:(cbn [now]; unfold INACTIVITY_ALERT_INTERVAL_MS; lia))
    as [A1 [A2 _]].
  split; [exact H2|]. split; [exact A1|exact A2].
Defined.

(** [Timer.timerFromFall] is kept by every iteration. *)
Lemma timerFromFall_step (s : State) (x : Sample) :
  Timer.timerFromFall s -> Timer.timerFromFall (fst (loop s x)).
Proof.
  unfold Timer.timerFromFall. intros [Hf Ht].
  split; [apply loop_clears_fallDetected|].
  revert Ht. loop_cases; intros Ht H; try discriminate; try congruence;
    try (apply Ht; congruence).
Qed.

Lemma timerFromFall_run (l : list Sample) (s : State) :
  Timer.timerFromFall s -> Timer.timerFromFall (final s l).
Proof.
  revert s. induction l as [|x l IH]; intros s Hs; cbn [final];
    [exact Hs|apply IH, timerFromFall_step, Hs].
Qed.

(** X3 (no alert without a fall).  From boot on, whatever is read, an
    iteration raises the inactivity alert only if an earlier iteration
    detected a fall, no movement has been stamped since the last detected
    fall, that fall is more than 10000 ms old, and the iteration itself
    detects no fall. *)
Theorem alert_only_long_after_fall (l : list Sample) (y : Sample) :
  inactivityAlert (snd (loop (final boot l) y)) = true ->
  Exists (fun o => fallEvent o = true) (outputs boot l)
  /\ lastMovementTime (final boot l) = lastFallTime (final boot l)
  /\ INACTIVITY_TIMEOUT_MS < U32.sub (now y) (lastFallTime (final boot l))
  /\ fallEvent (snd (loop (final boot l) y)) = false.
Proof.
  intros Hy. apply alert_iff in Hy. destruct Hy as [H1 [H2 [_ [H4 _]]]].
  assert (Hi : Timer.timerFromFall (final boot l))
    by (apply timerFromFall_run; split; [reflexivity|discriminate]).
  destruct Hi as [_ Hi]. specialize (Hi H2).
  split; [|split; [exact Hi|split; [|exact H1]]].
  - destruct (Forall_Exists_dec noFall
                (fun o => bool_dec (fallEvent o) false) (outputs boot l))
      as [Hall|Hex].
    + destruct (untriggered_run l boot eq_refl Hall) as [_ Hu]. congruence.
    + apply Exists_impl with (P := fun o => ~ noFall o); [|exact Hex].
      intros o Ho. unfold noFall in Ho. destruct (fallEvent o); congruence.
  - rewrite <- Hi. apply Z.ltb_lt. exact H4.
Qed.

(** The alert of t = 12151 after the fall of t = 2150. *)
Lemma alert_only_long_after_fall_witness :
  let l := scenarioA_from 2000 ++ [mkSample 12150 g_3_0] in
  inactivityAlert (snd (loop (final boot l) (mkSample 12151 g_3_0))) = true
  /\ INACTIVITY_TIMEOUT_MS
     < U32.sub 12151 (lastFallTime (final boot l)).
Proof.
  cbv zeta.
  assert (H : inactivityAlert
                (snd (loop (final boot (scenarioA_from 2000
                                          ++ [mkSample 12150 g_3_0]))
                           (mkSample 12151 g_3_0))) = true)
    by (vm_compute; reflexivity).
  split; [exact H|].
  exact (proj1 (proj2 (proj2 (alert_only_long_after_fall _ _ H)))).
Defined.

(** X4 (a NaN reading).  A NaN reading is never a fall, never opens the
    low-g window and is never a movement: the time stamps of the last
    fall and of the last movement and the inactivity flag stay as they
    are.  Since it becomes [lastAcc], the reading after it is no
    movement either, whatever its value. *)
Theorem nan_reading_inert (s : State) (t : Z) :
  fallDetected s = false ->
  let r := loop s (mkSample t S754_nan) in
  fallEvent (snd r) = false
  /\ (inLowWindow (fst r) = true -> inLowWindow s = true)
  /\ lastFallTime (fst r) = lastFallTime s
  /\ lastMovementTime (fst r) = lastMovementTime s
  /\ inactivityTriggered (fst r) = inactivityTriggered s
  /\ (forall a : float, moved a (lastAcc (fst r)) = false).
Proof.
  intros Hf. cbv zeta.
  assert (Hm : moved S754_nan (lastAcc s) = false)
    by (unfold moved, sub, SFsub; destruct (lastAcc s); reflexivity).
  assert (Hl : ltb S754_nan FALL_LOW_G = false) by reflexivity.
  assert (Hh : ltb FALL_HIGH_G S754_nan = false) by reflexivity.
  assert (Hacc : lastAcc (fst (loop s (mkSample t S754_nan))) = S754_nan)
    by (loop_cases; reflexivity).
  assert (Hn : forall a : float, moved a S754_nan = false)
    by (intros a; unfold moved, sub, SFsub; destruct a; reflexivity).
  rewrite Hacc.
  unfold_loop. cbn [totalAcc now]. rewrite Hm.
  unfold set_lastAcc at 1. cbn [inLowWindow lastFallTime lastLowTime
    fallDetected].
  rewrite Hl, Hh. split_tests; repeat split; try congruence; try exact Hn.
Qed.

(** A NaN read while the window of the dip of t = 2000 is open. *)
Lemma nan_reading_inert_witness :
  let s := final boot [mkSample 2000 g_0_2] in
  fallDetected s = false
  /\ inLowWindow s = true
  /\ fallEvent (snd (loop s (mkSample 2100 S754_nan))) = false
  /\ moved g_3_0 (lastAcc (fst (loop s (mkSample 2100 S754_nan)))) = false.
Proof.
  cbv zeta.
  assert (H : fallDetected (final boot [mkSample 2000 g_0_2]) = false)
    by (vm_compute; reflexivity).
  destruct (nan_reading_inert _ 2100 H) as [H1 [_ [_ [_ [_ H6]]]]].
  split; [exact H|]. split; [vm_compute; reflexivity|].
  split; [exact H1|exact (H6 g_3_0)].
Defined.
(** After an alert at [X], on time stamps that do not go back,
    [lastBuzzToggle] stays between [X] and the time of the last
    sample. *)
Lemma buzz_stamp_run (X : Z) (l : list Sample) (s : State) (t : Z) :
  0 <= X -> X <= lastBuzzToggle s <= t ->
  chronological t l = true ->
  X <= lastBuzzToggle (final s l)
  /\ (forall y, chronological t (l ++ [y]) = true ->
                lastBuzzToggle (final s l) <= now y).
Proof.
  intros HX. revert s t.
  induction l as [|z l IH]; intros s t Hs Hc; cbn [final app].
  - split; [lia|]. intros y Hy.
    destruct (chronological_cons _ _ _ Hy) as [H1 _]. lia.
  - destruct (chronological_cons _ _ _ Hc) as [H1 [H2 H3]].
    assert (Hz : X <= lastBuzzToggle (fst (loop s z)) <= now z).
    { destruct Hs as [Hs1 Hs2]. loop_cases; lia. }
    destruct (IH _ _ Hz H3) as [I1 I2].
    split; [exact I1|]. intros y Hy.
    destruct (chronological_cons _ _ _ Hy) as [_ [_ Hy']].
    apply I2, Hy'.
Qed.

(** X5 (alerts are spaced).  On time stamps that do not go back or wrap,
    whatever is read, two iterations that raise the inactivity alert are
    more than 10000 ms apart. *)
Theorem alerts_are_spaced (s : State) (x : Sample) (l : list Sample)
  (y : Sample) :
  0 <= now x ->
  chronological (now x) (l ++ [y]) = true ->
  inactivityAlert (snd (loop s x)) = true ->
  inactivityAlert (snd (loop (final (fst (loop s x)) l) y)) = true ->
  INACTIVITY_ALERT_INTERVAL_MS < now y - now x.
Proof.
  intros H0 Hc Hx Hy.
  assert (Hb : lastBuzzToggle (fst (loop s x)) = now x).
  { revert Hx. loop_cases; intros; congruence. }
  destruct (chronological_app _ _ _ Hc) as [Hl Hy1].
  destruct (chronological_cons _ _ _ Hy1) as [_ [Hy2 _]].
  destruct (buzz_stamp_run (now x) l (fst (loop s x)) (now x) H0
              ltac:(lia) Hl) as [B1 B2].
  specialize (B2 y Hc).
  apply alert_iff in Hy. destruct Hy as [_ [_ [_ [_ H5]]]].
  apply Z.ltb_lt in H5. rewrite u32_sub_exact in H5 by lia. lia.
Qed.

(** The alerts of t = 12151 and t = 22152 after the fall of t = 2150. *)
Lemma alerts_are_spaced_witness :
  let s := final boot (scenarioA_from 2000 ++ [mkSample 12150 g_3_0]) in
  inactivityAlert (snd (loop s (mkSample 12151 g_3_0))) = true
  /\ inactivityAlert
       (snd (loop (final (fst (loop s (mkSample 12151 g_3_0)))
                         [mkSample 22151 g_3_0])
                  (mkSample 22152 g_3_0))) = true
  /\ INACTIVITY_ALERT_INTERVAL_MS < 22152 - 12151.
Proof.
  cbv zeta.
  assert (H1 : inactivityAlert
                 (snd (loop (final boot (scenarioA_from 2000
                                           ++ [mkSample 12150 g_3_0]))
                            (mkSample 12151 g_3_0))) = true)
    by (vm_compute; reflexivity).
  assert (H2 : inactivityAlert
                 (snd (loop (final (fst (loop
                                (final boot (scenarioA_from 2000
                                               ++ [mkSample 12150 g_3_0]))
                                (mkSample 12151 g_3_0)))
                              [mkSample 22151 g_3_0])
                            (mkSample 22152 g_3_0))) = true)
    by (vm_compute; reflexivity).
  split; [exact H1|]. split; [exact H2|].
  exact (alerts_are_spaced _ (mkSample 12151 g_3_0) [mkSample 22151 g_3_0]
           (mkSample 22152 g_3_0) ltac:(cbn [now]; lia) eq_refl H1 H2).
Defined.

(** *** The buzzer automaton *)

Lemma even_pred (n : Z) : Z.even (n - 1) = negb (Z.even n).
Proof.
  replace (n - 1) with (Z.pred n) by lia. rewrite Z.even_pred.
  rewrite <- Z.negb_even. reflexivity.
Qed.

(** [startBuzzer] for at least one beep leaves a consistent automaton,
    whatever it was doing. *)
Lemma startBuzzer_consistent (beeps t : Z) (b : Buzzer.Fsm) :
  1 <= beeps -> Buzzer.consistent (Buzzer.startBuzzer beeps t b).
Proof.
  intros H. unfold Buzzer.consistent, Buzzer.startBuzzer.
  cbn [Buzzer.buzzerActive Buzzer.buzzerSteps Buzzer.pin].
  split; [lia|]. rewrite Z.mul_comm, Z.even_mul. reflexivity.
Qed.

(** [handleBuzzer] keeps a consistent automaton consistent. *)
Lemma handleBuzzer_consistent (t1 t2 : Z) (b : Buzzer.Fsm) :
  Buzzer.consistent b -> Buzzer.consistent (Buzzer.handleBuzzer t1 t2 b).
Proof.
  intros H. unfold Buzzer.consistent in H.
  destruct (Buzzer.buzzerActive b) eqn:Ha.
  - destruct H as [Hs Hp].
    unfold Buzzer.handleBuzzer. rewrite Ha. cbn [negb].
    destruct (Buzzer.elapsed t1 b).
    + destruct (Buzzer.buzzerSteps b - 1 <=? 0) eqn:Hz;
        unfold Buzzer.consistent;
        cbn [Buzzer.buzzerActive Buzzer.buzzerSteps Buzzer.pin].
      * reflexivity.
      * apply Z.leb_gt in Hz. split; [exact Hz|].
        rewrite even_pred, Hp. reflexivity.
    + unfold Buzzer.consistent. rewrite Ha. split; assumption.
  - unfold Buzzer.handleBuzzer. rewrite Ha. cbn [negb].
    unfold Buzzer.consistent. rewrite Ha. exact H.
Qed.

(** X6 (buzzer invariant).  After [setup()] and any sequence of calls of
    [startBuzzer] (for at least one beep) and [handleBuzzer], at any clock
    values: when no pattern is running the pin is LOW; while one is
    running there are steps left and the pin is HIGH exactly when their
    number is even. *)
Theorem buzzer_consistent (l : list Buzzer.Call) :
  Forall Buzzer.validStart l ->
  Buzzer.consistent (Buzzer.run Buzzer.setup l).
Proof.
  assert (G : forall b, Buzzer.consistent b -> Forall Buzzer.validStart l ->
                        Buzzer.consistent (Buzzer.run b l)).
  { induction l as [|c l IH]; intros b Hb Hl; cbn [Buzzer.run]; [exact Hb|].
    inversion Hl as [|? ? Hc Hl']; subst. apply IH; [|exact Hl'].
    destruct c as [beeps t|t1 t2]; cbn [Buzzer.call].
    - apply startBuzzer_consistent. exact (proj1 Hc).
    - apply handleBuzzer_consistent. exact Hb. }
  apply G. reflexivity.
Qed.

(** With no pattern running, [handleBuzzer] does nothing. *)
Lemma handles_inactive (l : list (Z * Z)) (b : Buzzer.Fsm) :
  Buzzer.buzzerActive b = false ->
  Buzzer.handles b l = b /\ Buzzer.toggles b l = 0.
Proof.
  intros Ha. induction l as [|[t1 t2] l IH]; cbn [Buzzer.handles Buzzer.toggles].
  - split; reflexivity.
  - assert (E : Buzzer.handleBuzzer t1 t2 b = b)
      by (unfold Buzzer.handleBuzzer; rewrite Ha; reflexivity).
    rewrite E, Ha. cbn [andb]. destruct IH as [IH1 IH2].
    rewrite IH1, IH2. split; reflexivity.
Qed.

(** A running pattern with [m] steps left, under any calls of
    [handleBuzzer]: each call that passes the test of line 62 takes one
    step, and the [m]-th one ends the pattern. *)
Lemma handles_pattern (l : list (Z * Z)) (b : Buzzer.Fsm) (m : Z) :
  Buzzer.buzzerActive b = true -> Buzzer.buzzerSteps b = m -> 1 <= m ->
  Buzzer.pin b = Z.even m ->
  let k := Buzzer.toggles b l in
  let b' := Buzzer.handles b l in
  0 <= k <= m
  /\ Buzzer.buzzerActive b' = (k <? m)
  /\ Buzzer.buzzerSteps b' = m - k
  /\ Buzzer.pin b' = (k <? m) && Z.even (m - k).
Proof.
  cbv zeta. revert b m.
  induction l as [|[t1 t2] l IH]; intros b m Ha Hs Hm Hp;
    cbn [Buzzer.handles Buzzer.toggles].
  - replace (0 <? m) with true by (symmetry; apply Z.ltb_lt; lia).
    rewrite Z.sub_0_r. cbn [andb]. repeat split; try assumption; lia.
  - rewrite Ha. cbn [andb]. unfold Buzzer.handleBuzzer. rewrite Ha.
    cbn [negb]. destruct (Buzzer.elapsed t1 b).
    + rewrite Hs. destruct (m - 1 <=? 0) eqn:Hz.
      * apply Z.leb_le in Hz. assert (m = 1) by lia. subst m.
        match goal with
        | |- context [Buzzer.toggles ?c l] =>
            destruct (handles_inactive l c eq_refl) as [E1 E2]
        end.
        rewrite E1, E2.
        cbn [Buzzer.buzzerActive Buzzer.buzzerSteps Buzzer.pin].
        repeat split; reflexivity || lia.
      * apply Z.leb_gt in Hz.
        match goal with
        | |- context [Buzzer.toggles ?c l] =>
            destruct (IH c (m - 1) eq_refl eq_refl ltac:(lia)) as [I1 [I2 [I3 I4]]];
              [cbn [Buzzer.pin]; rewrite Hp, even_pred; reflexivity|];
              set (k := Buzzer.toggles c l) in *
        end.
        rewrite I2, I3, I4.
        replace (1 + k <? m) with (k <? m - 1)
          by (destruct (Z.ltb_spec k (m - 1)), (Z.ltb_spec (1 + k) m);
              reflexivity || lia).
        replace (m - (1 + k)) with (m - 1 - k) by lia.
        repeat split; reflexivity || lia.
    + destruct (IH b m Ha Hs Hm Hp) as [I1 [I2 [I3 I4]]].
      rewrite Z.add_0_l. repeat split; assumption || lia.
Qed.

(** X7 (length of a pattern).  After [startBuzzer(n)], under any calls
    of [handleBuzzer], the calls that toggle the pin number at most
    [2 n]; the pattern is running exactly until the [2 n]-th of them, and
    while it runs the pin is HIGH after an even number of them and LOW
    after an odd number: [n] beeps and [n] pauses, then silence. *)
Theorem buzzer_pattern_length
  (n t0 : Z) (b : Buzzer.Fsm) (l : list (Z * Z)) :
  1 <= n <= 1073741823 ->
  let b0 := Buzzer.startBuzzer n t0 b in
  let k := Buzzer.toggles b0 l in
  0 <= k <= 2 * n
  /\ Buzzer.buzzerActive (Buzzer.handles b0 l) = (k <? 2 * n)
  /\ Buzzer.buzzerSteps (Buzzer.handles b0 l) = 2 * n - k
  /\ Buzzer.pin (Buzzer.handles b0 l) = (k <? 2 * n) && Z.even k.
Proof.
  intros Hn. cbv zeta.
  destruct (handles_pattern l (Buzzer.startBuzzer n t0 b) (2 * n))
    as [H1 [H2 [H3 H4]]].
  - reflexivity.
  - cbn [Buzzer.startBuzzer Buzzer.buzzerSteps]. lia.
  - lia.
  - cbn [Buzzer.startBuzzer Buzzer.pin]. rewrite Z.even_mul. reflexivity.
  - replace (Z.even (2 * n - Buzzer.toggles (Buzzer.startBuzzer n t0 b) l))
      with (Z.even (Buzzer.toggles (Buzzer.startBuzzer n t0 b) l)) in H4.
    + repeat split; assumption || lia.
    + rewrite Z.even_sub, Z.even_mul. cbn [Z.even orb].
      destruct (Z.even (Buzzer.toggles (Buzzer.startBuzzer n t0 b) l));
        reflexivity.
Qed.

(** *** The duration of a pattern *)

Lemma ordered_weaken (l : list (Z * Z)) (t t' : Z) :
  t <= t' -> Buzzer.ordered t' l = true -> Buzzer.ordered t l = true.
Proof.
  intros Ht. destruct l as [|[t1 t2] l]; cbn [Buzzer.ordered]; [reflexivity|].
  intros H. apply andb_true_iff in H. destruct H as [H H4].
  apply andb_true_iff in H. destruct H as [H H3].
  apply andb_true_iff in H. destruct H as [H1 H2].
  apply Z.leb_le in H1. rewrite H2, H3, H4.
  replace (t <=? t1) with true by (symmetry; apply Z.leb_le; lia).
  reflexivity.
Qed.

(** As long as the steps left, at 300 ms each, reach beyond [D], a call
    before [D] cannot end the pattern. *)
Lemma handles_before_deadline (l : list (Z * Z)) (b : Buzzer.Fsm) (D : Z) :
  Buzzer.buzzerActive b = true -> 0 <= Buzzer.buzzerTimer b ->
  D <= Buzzer.buzzerTimer b
       + Buzzer.BUZZER_BEEP_DURATION_MS * Buzzer.buzzerSteps b ->
  Buzzer.ordered (Buzzer.buzzerTimer b) l = true ->
  Forall (fun c => fst c < D) l ->
  Buzzer.buzzerActive (Buzzer.handles b l) = true.
Proof.
  revert b. induction l as [|[t1 t2] l IH]; intros b Ha H0 HD Ho Hl;
    cbn [Buzzer.handles]; [exact Ha|].
  inversion Hl as [|? ? Hc Hl']; subst. cbn [fst] in Hc.
  cbn [Buzzer.ordered] in Ho.
  apply andb_true_iff in Ho. destruct Ho as [Ho H4].
  apply andb_true_iff in Ho. destruct Ho as [Ho H3].
  apply andb_true_iff in Ho. destruct Ho as [H1 H2].
  apply Z.leb_le in H1, H2. apply Z.ltb_lt in H3.
  unfold Buzzer.handleBuzzer. rewrite Ha. cbn [negb].
  unfold Buzzer.elapsed, Buzzer.BUZZER_BEEP_DURATION_MS in *.
  rewrite u32_sub_exact by lia.
  destruct (300 <=? t1 - Buzzer.buzzerTimer b) eqn:He.
  - apply Z.leb_le in He.
    destruct (Buzzer.buzzerSteps b - 1 <=? 0) eqn:Hz;
      [apply Z.leb_le in Hz; lia|].
    apply IH; cbn [Buzzer.buzzerActive Buzzer.buzzerTimer Buzzer.buzzerSteps];
      try assumption; try reflexivity; lia.
  - apply IH; try assumption.
    apply (ordered_weaken l _ t2); [lia|exact H4].
Qed.

(** X8 (duration of a pattern).  On a clock that does not wrap, a
    pattern started at [t0] by [startBuzzer(n)] is still running after
    every call of [handleBuzzer] made before [t0 + 600 n] ms: each of its
    [2 n] phases lasts at least [BUZZER_BEEP_DURATION_MS]. *)
Theorem buzzer_pattern_duration
  (n t0 : Z) (b : Buzzer.Fsm) (l : list (Z * Z)) :
  1 <= n <= 1073741823 -> 0 <= t0 ->
  Buzzer.ordered t0 l = true ->
  Forall (fun c => fst c < t0 + 2 * Buzzer.BUZZER_BEEP_DURATION_MS * n) l ->
  Buzzer.buzzerActive (Buzzer.handles (Buzzer.startBuzzer n t0 b) l) = true.
Proof.
  intros Hn H0 Ho Hl.
  apply (handles_before_deadline l _
           (t0 + 2 * Buzzer.BUZZER_BEEP_DURATION_MS * n)).
  - reflexivity.
  - exact H0.
  - cbn [Buzzer.startBuzzer Buzzer.buzzerTimer Buzzer.buzzerSteps].
    unfold Buzzer.BUZZER_BEEP_DURATION_MS. lia.
  - exact Ho.
  - exact Hl.
Qed.

(** The two beeps of the fall alert, started at 1000 and polled until
    2199. *)
Lemma buzzer_pattern_duration_witness :
  let l := [(1100, 1100); (1300, 1301); (1599, 1599); (1601, 1601);
            (1901, 1902); (2199, 2199)] in
  Buzzer.ordered 1000 l = true
  /\ Forall (fun c => fst c < 1000 + 2 * Buzzer.BUZZER_BEEP_DURATION_MS * 2) l
  /\ Buzzer.buzzerActive
       (Buzzer.handles (Buzzer.startBuzzer 2 1000 Buzzer.setup) l) = true.
Proof.
  cbv zeta.
  assert (H1 : Buzzer.ordered 1000
                 [(1100, 1100); (1300, 1301); (1599, 1599); (1601, 1601);
                  (1901, 1902); (2199, 2199)] = true)
    by (vm_compute; reflexivity).
  assert (H2 : Forall
                 (fun c => fst c < 1000 + 2 * Buzzer.BUZZER_BEEP_DURATION_MS * 2)
                 [(1100, 1100); (1300, 1301); (1599, 1599); (1601, 1601);
                  (1901, 1902); (2199, 2199)])
    by (repeat constructor).
  split; [exact H1|]. split; [exact H2|].
  exact (buzzer_pattern_duration 2 1000 Buzzer.setup _
           ltac:(lia) ltac:(lia) H1 H2).
Defined.



(** A fall alert, two polls, an inactivity alert and a poll. *)
Lemma buzzer_consistent_witness :
  let l := [Buzzer.Start 2 1000; Buzzer.Handle 1300 1300;
            Buzzer.Handle 1600 1601; Buzzer.Start 5 2000;
            Buzzer.Handle 2300 2300] in
  Forall Buzzer.validStart l
  /\ Buzzer.consistent (Buzzer.run Buzzer.setup l).
Proof.
  cbv zeta.
  assert (H : Forall Buzzer.validStart
                [Buzzer.Start 2 1000; Buzzer.Handle 1300 1300;
                 Buzzer.Handle 1600 1601; Buzzer.Start 5 2000;
                 Buzzer.Handle 2300 2300])
    by (repeat (constructor; [cbn; try lia; exact I|]); constructor).
  split; [exact H|]. exact (buzzer_consistent _ H).
Defined.

(** The two beeps of the fall alert, polled until they are over: four
    toggles. *)
Lemma buzzer_pattern_length_witness :
  let l := [(1100, 1100); (1300, 1301); (1700, 1700); (2000, 2000);
            (2300, 2300); (2600, 2600)] in
  1 <= 2 <= 1073741823
  /\ Buzzer.toggles (Buzzer.startBuzzer 2 1000 Buzzer.setup) l = 4
  /\ Buzzer.buzzerActive
       (Buzzer.handles (Buzzer.startBuzzer 2 1000 Buzzer.setup) l) = false
  /\ Buzzer.pin
       (Buzzer.handles (Buzzer.startBuzzer 2 1000 Buzzer.setup) l) = false.
Proof.
  cbv zeta.
  assert (H : 1 <= 2 <= 1073741823) by lia.
  destruct (buzzer_pattern_length 2 1000 Buzzer.setup
              [(1100, 1100); (1300, 1301); (1700, 1700); (2000, 2000);
               (2300, 2300); (2600, 2600)] H)
    as [_ [H2 [_ H4]]].
  split; [exact H|]. split; [vm_compute; reflexivity|]. split.
  - rewrite H2. vm_compute. reflexivity.
  - rewrite H4. vm_compute. reflexivity.
Defined.

(** *** The end of a pattern *)

(** While the pattern runs under close polling, the clock is less than
    one phase of [300 + 3 p] ms ahead of the deadline of the steps
    taken. *)
Lemma handles_polled (p D : Z) (l : list (Z * Z)) (b : Buzzer.Fsm) (c : Z) :
  0 <= p ->
  Buzzer.buzzerActive b = true -> 1 <= Buzzer.buzzerSteps b ->
  0 <= Buzzer.buzzerTimer b <= c ->
  c < Buzzer.buzzerTimer b + Buzzer.BUZZER_BEEP_DURATION_MS + p
  \/ c = Buzzer.buzzerTimer b ->
  Buzzer.buzzerTimer b
  + (Buzzer.BUZZER_BEEP_DURATION_MS + 3 * p) * Buzzer.buzzerSteps b <= D ->
  Buzzer.polled p c l = true ->
  D <= Buzzer.lastClock c l ->
  Buzzer.buzzerActive (Buzzer.handles b l) = false
  /\ Buzzer.pin (Buzzer.handles b l) = false.
Proof.
  intros Hp. revert b c.
  induction l as [|[t1 t2] l IH]; intros b c Ha Hs Ht Hc HD Hl HL;
    cbn [Buzzer.handles Buzzer.polled Buzzer.lastClock] in *;
    unfold Buzzer.BUZZER_BEEP_DURATION_MS in *.
  - exfalso. nia.
  - apply andb_true_iff in Hl. destruct Hl as [Hl H6].
    apply andb_true_iff in Hl. destruct Hl as [Hl H5].
    apply andb_true_iff in Hl. destruct Hl as [Hl H4].
    apply andb_true_iff in Hl. destruct Hl as [Hl H3].
    apply andb_true_iff in Hl. destruct Hl as [H1 H2].
    apply Z.leb_le in H1, H2, H3, H4. apply Z.ltb_lt in H5.
    unfold Buzzer.handleBuzzer. rewrite Ha. cbn [negb].
    unfold Buzzer.elapsed, Buzzer.BUZZER_BEEP_DURATION_MS.
    rewrite u32_sub_exact by lia.
    destruct (300 <=? t1 - Buzzer.buzzerTimer b) eqn:He.
    + apply Z.leb_le in He.
      destruct (Buzzer.buzzerSteps b - 1 <=? 0) eqn:Hz.
      * match goal with
        | |- context [Buzzer.handles ?s l] =>
            destruct (handles_inactive l s eq_refl) as [E _]; rewrite E
        end.
        split; reflexivity.
      * apply Z.leb_gt in Hz.
        apply (IH _ t2);
          cbn [Buzzer.buzzerActive Buzzer.buzzerTimer Buzzer.buzzerSteps];
          try reflexivity; try assumption; try lia.
    + apply Z.leb_gt in He. apply (IH b t2); try assumption; lia.
Qed.

(** X10 (a pattern ends).  When [handleBuzzer] is called at least every
    [p] ms, on a clock that does not wrap, a pattern started at [t0] by
    [startBuzzer(n)] is over, with the pin LOW, once the clock has
    reached [t0 + 2 n (300 + 3 p)]: the buzzer does not sound for
    ever. *)
Theorem buzzer_pattern_ends
  (n t0 p : Z) (b : Buzzer.Fsm) (l : list (Z * Z)) :
  1 <= n <= 1073741823 -> 0 <= t0 -> 0 <= p ->
  Buzzer.polled p t0 l = true ->
  t0 + 2 * n * (Buzzer.BUZZER_BEEP_DURATION_MS + 3 * p)
  <= Buzzer.lastClock t0 l ->
  Buzzer.buzzerActive (Buzzer.handles (Buzzer.startBuzzer n t0 b) l) = false
  /\ Buzzer.pin (Buzzer.handles (Buzzer.startBuzzer n t0 b) l) = false.
Proof.
  intros Hn H0 Hp Hl HL.
  apply (handles_polled p
           (t0 + 2 * n * (Buzzer.BUZZER_BEEP_DURATION_MS + 3 * p)) l _ t0 Hp);
    cbn [Buzzer.startBuzzer Buzzer.buzzerActive Buzzer.buzzerTimer
         Buzzer.buzzerSteps];
    try reflexivity; try assumption; lia.
Qed.

(** The fall alert of t = 1000, polled every 100 ms until 2800. *)
Lemma buzzer_pattern_ends_witness :
  let l := map (fun k => (1000 + 100 * k, 1000 + 100 * k))
               [1; 2; 3; 4; 5; 6; 7; 8; 9; 10; 11; 12; 13; 14; 15; 16; 17;
                18; 19; 20; 21; 22; 23; 24; 25; 26; 27; 28; 29; 30; 31; 32;
                33; 34; 35; 36] in
  Buzzer.polled 100 1000 l = true
  /\ 1000 + 2 * 2 * (Buzzer.BUZZER_BEEP_DURATION_MS + 3 * 100)
     <= Buzzer.lastClock 1000 l
  /\ Buzzer.buzzerActive
       (Buzzer.handles (Buzzer.startBuzzer 2 1000 Buzzer.setup) l) = false.
Proof.
  cbv zeta.
  assert (H1 : Buzzer.polled 100 1000
                 (map (fun k => (1000 + 100 * k, 1000 + 100 * k))
                    [1; 2; 3; 4; 5; 6; 7; 8; 9; 10; 11; 12; 13; 14; 15; 16;
                     17; 18; 19; 20; 21; 22; 23; 24; 25; 26; 27; 28; 29; 30;
                     31; 32; 33; 34; 35; 36]) = true)
    by (vm_compute; reflexivity).
  assert (H2 : 1000 + 2 * 2 * (Buzzer.BUZZER_BEEP_DURATION_MS + 3 * 100)
               <= Buzzer.lastClock 1000
                    (map (fun k => (1000 + 100 * k, 1000 + 100 * k))
                       [1; 2; 3; 4; 5; 6; 7; 8; 9; 10; 11; 12; 13; 14; 15;
                        16; 17; 18; 19; 20; 21; 22; 23; 24; 25; 26; 27; 28;
                        29; 30; 31; 32; 33; 34; 35; 36]))
    by (vm_compute; discriminate).
  split; [exact H1|]. split; [exact H2|].
  exact (proj1 (buzzer_pattern_ends 2 1000 100 Buzzer.setup _
                  ltac:(lia) ltac:(lia) ltac:(lia) H1 H2)).
Defined.

(** *** The fall time string *)

(** A number below 100 is printed by [%02lu] as its two decimal digits. *)
Lemma fmt02lu_two_digits (n : Z) :
  0 <= n < 100 ->
  TimeString.fmt02lu n
  = String.String (TimeString.digit (n / 10))
      (String.String (TimeString.digit (n mod 10)) String.EmptyString).
Proof.
  intros Hn. unfold TimeString.fmt02lu, TimeString.decimal.
  cbn [TimeString.decimal_from].
  destruct (n / 10 =? 0) eqn:Hq.
  - apply Z.eqb_eq in Hq. rewrite Hq. reflexivity.
  - apply Z.eqb_neq in Hq.
    replace (n / 10 / 10 =? 0) with true
      by (symmetry; apply Z.eqb_eq; apply Z.div_small; split;
          [apply Z.div_pos; lia|apply Z.div_lt_upper_bound; lia]).
    rewrite (Z.mod_small (n / 10) 10)
      by (split; [apply Z.div_pos; lia|apply Z.div_lt_upper_bound; lia]).
    reflexivity.
Qed.

(** Different digits are different characters. *)
Lemma digit_injective (a b : Z) :
  0 <= a <= 9 -> 0 <= b <= 9 ->
  TimeString.digit a = TimeString.digit b -> a = b.
Proof.
  intros Ha Hb H. unfold TimeString.digit in H.
  apply (f_equal Ascii.N_of_ascii) in H.
  rewrite !Ascii.N_ascii_embedding in H by lia. lia.
Qed.

(** The three fields of the string and the second of the day. *)
Lemma time_fields (t : Z) :
  0 <= (t / 3600) mod 24 < 24 /\ 0 <= (t / 60) mod 60 < 60
  /\ 0 <= t mod 60 < 60
  /\ t mod 86400
     = 3600 * ((t / 3600) mod 24) + 60 * ((t / 60) mod 60) + t mod 60.
Proof.
  pose proof (Z.mod_pos_bound (t / 3600) 24 ltac:(lia)).
  pose proof (Z.mod_pos_bound (t / 60) 60 ltac:(lia)).
  pose proof (Z.mod_pos_bound t 60 ltac:(lia)).
  repeat (split; [lia|]).
  symmetry. apply Z.mod_unique_pos with (q := t / 3600 / 24); [lia|].
  replace (t / 3600) with (t / 60 / 60) by (rewrite Z.div_div by lia; reflexivity).
  pose proof (Z.div_mod t 60 ltac:(lia)).
  pose proof (Z.div_mod (t / 60) 60 ltac:(lia)).
  pose proof (Z.div_mod (t / 60 / 60) 24 ltac:(lia)).
  lia.
Qed.

(** The two decimal digits of a number below 100. *)
Lemma two_digits (n : Z) :
  0 <= n < 100 -> 0 <= n / 10 <= 9 /\ 0 <= n mod 10 <= 9
                  /\ n = 10 * (n / 10) + n mod 10.
Proof.
  intros Hn. pose proof (Z.div_mod n 10 ltac:(lia)).
  pose proof (Z.mod_pos_bound n 10 ltac:(lia)). lia.
Qed.

(** The string, field by field; 58 is the colon. *)
Lemma formatTime_chars (t : Z) :
  TimeString.formatTime t
  = String.append (TimeString.fmt02lu ((t / 3600) mod 24))
      (String.String (Ascii.ascii_of_N 58)
         (String.append (TimeString.fmt02lu ((t / 60) mod 60))
            (String.String (Ascii.ascii_of_N 58)
               (TimeString.fmt02lu (t mod 60))))).
Proof. reflexivity. Qed.

Lemma formatTime_8_chars (t : Z) :
  String.length (TimeString.formatTime t) = 8%nat.
Proof.
  destruct (time_fields t) as [H1 [H2 [H3 _]]].
  rewrite formatTime_chars.
  rewrite !fmt02lu_two_digits by lia. reflexivity.
Qed.

(** X11 (length of the time string).  Whatever the clock reads, each of
    the three fields is printed with exactly two digits, and the string
    is 8 characters long: with the terminating NUL it takes 9 of the 16
    bytes of [buf]. *)
Theorem formatTime_length (t : Z) :
  TimeString.formatTime t
  = String.append (TimeString.fmt02lu ((t / 3600) mod 24))
      (String.String (Ascii.ascii_of_N 58)
         (String.append (TimeString.fmt02lu ((t / 60) mod 60))
            (String.String (Ascii.ascii_of_N 58)
               (TimeString.fmt02lu (t mod 60)))))
  /\ String.length (TimeString.fmt02lu ((t / 3600) mod 24)) = 2%nat
  /\ String.length (TimeString.fmt02lu ((t / 60) mod 60)) = 2%nat
  /\ String.length (TimeString.fmt02lu (t mod 60)) = 2%nat
  /\ String.length (TimeString.formatTime t) = 8%nat
  /\ (String.length (TimeString.formatTime t) + 1
      <= TimeString.BUF_SIZE)%nat.
Proof.
  destruct (time_fields t) as [H1 [H2 [H3 _]]].
  split; [reflexivity|].
  rewrite formatTime_8_chars, !fmt02lu_two_digits by lia.
  repeat split. unfold TimeString.BUF_SIZE. lia.
Qed.

(** X12 (what the time string tells).  Two clock values give the same
    string exactly when they are the same second of the day: the string
    is the time since boot modulo 24 hours, and nothing else. *)
Theorem formatTime_same_iff (t1 t2 : Z) :
  TimeString.formatTime t1 = TimeString.formatTime t2
  <-> t1 mod 86400 = t2 mod 86400.
Proof.
  destruct (time_fields t1) as [A1 [A2 [A3 A4]]].
  destruct (time_fields t2) as [B1 [B2 [B3 B4]]].
  split.
  - intros H. rewrite !formatTime_chars in H.
    rewrite (fmt02lu_two_digits ((t1 / 3600) mod 24)) in H by lia.
    rewrite (fmt02lu_two_digits ((t2 / 3600) mod 24)) in H by lia.
    rewrite (fmt02lu_two_digits ((t1 / 60) mod 60)) in H by lia.
    rewrite (fmt02lu_two_digits ((t2 / 60) mod 60)) in H by lia.
    rewrite (fmt02lu_two_digits (t1 mod 60)) in H by lia.
    rewrite (fmt02lu_two_digits (t2 mod 60)) in H by lia.
    cbn [String.append] in H.
    injection H as H1 H2 H3 H4 H5 H6.
    destruct (two_digits ((t1 / 3600) mod 24)) as [? [? ?]]; [lia|].
    destruct (two_digits ((t2 / 3600) mod 24)) as [? [? ?]]; [lia|].
    destruct (two_digits ((t1 / 60) mod 60)) as [? [? ?]]; [lia|].
    destruct (two_digits ((t2 / 60) mod 60)) as [? [? ?]]; [lia|].
    destruct (two_digits (t1 mod 60)) as [? [? ?]]; [lia|].
    destruct (two_digits (t2 mod 60)) as [? [? ?]]; [lia|].
    apply digit_injective in H1; [|assumption..].
    apply digit_injective in H2; [|assumption..].
    apply digit_injective in H3; [|assumption..].
    apply digit_injective in H4; [|assumption..].
    apply digit_injective in H5; [|assumption..].
    apply digit_injective in H6; [|assumption..].
    lia.
  - intros H.
    assert (E : forall t, (t / 3600) mod 24 = (t mod 86400) / 3600
                          /\ (t / 60) mod 60 = ((t mod 86400) / 60) mod 60
                          /\ t mod 60 = (t mod 86400) mod 60).
    { intros t. destruct (time_fields t) as [C1 [C2 [C3 C4]]].
      rewrite C4. repeat split.
      - apply Z.div_unique with (r := 60 * ((t / 60) mod 60) + t mod 60); lia.
      - replace ((3600 * ((t / 3600) mod 24) + 60 * ((t / 60) mod 60) + t mod 60) / 60)
          with (60 * ((t / 3600) mod 24) + (t / 60) mod 60)
          by (apply Z.div_unique with (r := t mod 60); lia).
        apply Z.mod_unique_pos with (q := (t / 3600) mod 24); lia.
      - apply Z.mod_unique_pos
          with (q := 60 * ((t / 3600) mod 24) + (t / 60) mod 60); lia. }
    unfold TimeString.formatTime.
    destruct (E t1) as [E1 [E2 E3]]. destruct (E t2) as [F1 [F2 F3]].
    rewrite E1, E2, E3, F1, F2, F3, H. reflexivity.
Qed.

(** *** The magnitude of the acceleration *)

(** A normalising shift of a mantissa that is not negative gives one
    that is not negative, at any precision. *)
Lemma shr_fexp_nonneg (p em m e : Z) (l : location) :
  0 <= m -> 0 <= shr_m (fst (shr_fexp p em m e l)).
Proof.
  intros Hm. unfold shr_fexp, shr.
  assert (Hl : shr_m (shr_record_of_loc m l) = m)
    by (destruct l as [|[| |]]; reflexivity).
  destruct (fexp p em (Zdigits2 m + e) - e) as [|n|n]; cbn [fst];
    try (rewrite Hl; exact Hm).
  apply iter_shr_1_digits. rewrite Hl. exact Hm.
Qed.

(** Rounding a mantissa that is not negative never gives a NaN, and it
    keeps the sign. *)
Lemma binary_round_aux_sign (p em : Z) (sx : bool) (mx ex : Z) (lx : location) :
  0 <= mx ->
  Accel.hasSign sx (binary_round_aux p em sx mx ex lx) = true.
Proof.
  intros Hm. unfold binary_round_aux.
  pose proof (shr_fexp_nonneg p em mx ex lx Hm) as H1.
  destruct (shr_fexp p em mx ex lx) as [mrs1 e1]. cbn [fst] in H1.
  assert (H2 : 0 <= round_nearest_even (shr_m mrs1) (loc_of_shr_record mrs1))
    by (destruct (round_nearest_even_cases (shr_m mrs1)
                    (loc_of_shr_record mrs1)) as [E|E]; rewrite E; lia).
  pose proof (shr_fexp_nonneg p em _ e1 loc_Exact H2) as H3.
  destruct (shr_fexp p em _ e1 loc_Exact) as [mrs2 e2]. cbn [fst] in H3.
  destruct (shr_m mrs2) as [|m|m]; [| |lia].
  - cbn. apply eqb_reflx.
  - destruct (e2 <=? em - p); cbn; apply eqb_reflx.
Qed.

Lemma binary_round_sign (p em : Z) (sx : bool) (mx : positive) (ex : Z) :
  Accel.hasSign sx (binary_round p em sx mx ex) = true.
Proof.
  unfold binary_round.
  destruct (shl_align mx ex (fexp p em (Z.pos (digits2_pos mx) + ex)))
    as [mz ez].
  apply binary_round_aux_sign. lia.
Qed.

Lemma hasSign_not_nan (sg : bool) (a : spec_float) :
  Accel.hasSign sg a = true -> Accel.isNaN a = false.
Proof.
  destruct a; cbn; congruence.
Qed.

Lemma narrow_sign (sg : bool) (a : double) :
  Accel.hasSign sg a = true -> Accel.hasSign sg (narrow a) = true.
Proof.
  destruct a as [s|s| |s m e]; cbn [narrow]; try (intros H; exact H).
  cbn [Accel.hasSign]. intros H. apply eqb_prop in H. subst s.
  destruct sg; cbn [cond_Zopp Z.opp binary_normalize]; apply binary_round_sign.
Qed.


Lemma widen_sign (sg : bool) (a : float) :
  Accel.hasSign sg a = true -> Accel.hasSign sg (widen a) = true.
Proof.
  destruct a as [s|s| |s m e]; cbn [widen]; try (intros H; exact H).
  cbn [Accel.hasSign]. intros H.
  destruct (0 <? dprec - Z.pos (digits2_pos m)); [exact H|].
  apply eqb_prop in H. subst s.
  destruct sg; cbn [cond_Zopp Z.opp binary_normalize]; apply binary_round_sign.
Qed.

Lemma of_int_not_nan (a : Z) : Accel.isNaN (Accel.of_int a) = false.
Proof.
  unfold Accel.of_int. destruct a as [|m|m]; cbn [binary_normalize].
  - reflexivity.
  - apply (hasSign_not_nan false), binary_round_sign.
  - apply (hasSign_not_nan true), binary_round_sign.
Qed.

Lemma div_eucl_quotient (a b q r : Z) :
  Z.div_eucl a b = (q, r) -> q = a / b.
Proof.
  intros H. unfold Z.div. rewrite H. reflexivity.
Qed.

(** Line 114: a raw reading in g is never a NaN. *)
Lemma toG_not_nan (raw : Z) : Accel.isNaN (Accel.toG raw) = false.
Proof.
  unfold Accel.toG. pose proof (of_int_not_nan raw) as H.
  destruct (Accel.of_int raw) as [s|s| |s m e]; try discriminate H;
    try reflexivity.
  unfold Accel.LSB_PER_G, SFdiv, SFdiv_core_binary.
  match goal with
  | |- context [Z.div_eucl ?a ?b] =>
      destruct (Z.div_eucl a b) as [q r] eqn:E;
        assert (Hq : 0 <= q)
  end.
  { apply div_eucl_quotient in E. subst q. apply Z.div_pos; [|lia].
    match goal with
    | |- 0 <= match ?x with _ => _ end =>
        destruct x; try lia; apply Z.shiftl_nonneg; lia
    end. }
  apply (hasSign_not_nan (xorb s false)), narrow_sign.
  apply binary_round_aux_sign. exact Hq.
Qed.

(** A square, a sum of numbers that are not negative and a square root
    of such a number are not negative, and no NaN. *)
Lemma mul_self_nonneg (a : float) :
  Accel.isNaN a = false -> Accel.nonneg (Accel.mul a a) = true.
Proof.
  unfold Accel.nonneg, Accel.mul, SFmul.
  destruct a as [s|s| |s m e]; intros H; try discriminate H;
    try (destruct s; reflexivity).
  replace false with (xorb s s) at 1 by (destruct s; reflexivity).
  apply binary_round_aux_sign. lia.
Qed.

Lemma add_nonneg (a b : float) :
  Accel.nonneg a = true -> Accel.nonneg b = true ->
  Accel.nonneg (Accel.add a b) = true.
Proof.
  unfold Accel.nonneg, Accel.add, SFadd.
  destruct a as [sa|sa| |sa ma ea], b as [sb|sb| |sb mb eb];
    cbn [Accel.hasSign]; intros Ha Hb;
    try discriminate Ha; try discriminate Hb;
    try (apply eqb_prop in Ha; apply eqb_prop in Hb; subst; reflexivity).
  apply eqb_prop in Ha. apply eqb_prop in Hb. subst sa sb.
  cbn [cond_Zopp]. cbn [Z.add binary_normalize].
  apply binary_round_sign.
Qed.

Lemma sqrt_nonneg (a : float) :
  Accel.nonneg a = true -> Accel.nonneg (Accel.sqrt a) = true.
Proof.
  unfold Accel.nonneg, Accel.sqrt. intros H. apply widen_sign in H.
  apply narrow_sign.
  destruct (widen a) as [s|s| |s m e]; cbn [Accel.hasSign] in H;
    try discriminate H; try (apply eqb_prop in H; subst s; reflexivity).
  apply eqb_prop in H. subst s. unfold SFsqrt, SFsqrt_core_binary.
  match goal with
  | |- context [Z.sqrtrem ?a] =>
      pose proof (Z.sqrtrem_sqrt a) as E; destruct (Z.sqrtrem a) as [q r];
        cbn [fst] in E
  end.
  apply binary_round_aux_sign. rewrite E. apply Z.sqrt_nonneg.
Qed.

Lemma sqrtf_nonneg (a : float) :
  Accel.nonneg a = true -> Accel.nonneg (Accel.sqrtf a) = true.
Proof.
  unfold Accel.nonneg, Accel.sqrtf. intros H.
  destruct a as [s|s| |s m e]; cbn [Accel.hasSign] in H;
    try discriminate H; try (apply eqb_prop in H; subst s; reflexivity).
  apply eqb_prop in H. subst s. unfold SFsqrt, SFsqrt_core_binary.
  match goal with
  | |- context [Z.sqrtrem ?a] =>
      pose proof (Z.sqrtrem_sqrt a) as E; destruct (Z.sqrtrem a) as [q r];
        cbn [fst] in E
  end.
  apply binary_round_aux_sign. rewrite E. apply Z.sqrt_nonneg.
Qed.

Lemma sum_of_squares_nonneg (ax ay az : Z) :
  Accel.nonneg
    (Accel.add (Accel.add (Accel.mul (Accel.toG ax) (Accel.toG ax))
                          (Accel.mul (Accel.toG ay) (Accel.toG ay)))
               (Accel.mul (Accel.toG az) (Accel.toG az))) = true.
Proof.
  apply add_nonneg; [apply add_nonneg|]; apply mul_self_nonneg, toG_not_nan.
Qed.

(** Rounding at any location a mantissa that is not too short gives a
    well-formed binary32 number. *)
Lemma binary_round_aux_valid_at (sx : bool) (mz : positive) (ez : Z)
  (lx : location) :
  ez <= fexp 24 128 (Zpos (digits2_pos mz) + ez) ->
  valid_binary 24 128 (binary_round_aux 24 128 sx (Zpos mz) ez lx) = true.
Proof.
  intros Hez. unfold binary_round_aux.
  pose proof (shr_fexp_spec (Zpos mz) ez lx ltac:(lia)) as S1.
  cbv zeta in S1. cbn [Zdigits2] in S1.
  destruct (shr_fexp 24 128 (Z.pos mz) ez lx) as [mrs1 e1].
  cbn [fst snd] in S1. destruct S1 as [P1 [D1 [E1 Z1]]].
  set (m1 := shr_m mrs1) in *.
  set (m2 := round_nearest_even m1 (loc_of_shr_record mrs1)).
  assert (Hm2 : 0 <= m2
                /\ Zdigits2 m1 <= Zdigits2 m2 <= Zdigits2 m1 + 1
                /\ (Zdigits2 m2 = Zdigits2 m1 \/ 0 < Zdigits2 m2)).
  { subst m2. pose proof (Zdigits2_succ m1 P1) as Hs.
    destruct (round_nearest_even_cases m1 (loc_of_shr_record mrs1)) as [H|H];
      rewrite H; lia. }
  destruct Hm2 as [P2 [D2 C2]].
  pose proof (shr_fexp_spec m2 e1 loc_Exact P2) as S2. cbv zeta in S2.
  destruct (shr_fexp 24 128 m2 e1 loc_Exact) as [mrs2 e2].
  cbn [fst snd] in S2. destruct S2 as [P3 [D3 [E3 _]]].
  destruct (shr_m mrs2) as [|m3|m3] eqn:Hm3; [reflexivity| |lia].
  destruct (e2 <=? 128 - 24) eqn:Hb; [|reflexivity].
  cbn [valid_binary]. unfold bounded, canonical_mantissa.
  rewrite Hb, andb_true_r. apply Z.eqb_eq.
  cbn [Zdigits2] in D3. clear Z1 Hm3 Hb P1 P2 P3.
  unfold fexp, emin in *. lia.
Qed.

(** A number with [2^(k-1) <= n < 2^k] has [k] bits. *)
Lemma digits2_unique (n : positive) (k : Z) :
  2 ^ (k - 1) <= Zpos n < 2 ^ k -> Zpos (digits2_pos n) = k.
Proof.
  intros [H1 H2]. destruct (digits2_bounds n) as [B1 B2].
  set (d := Zpos (digits2_pos n)) in *.
  assert (Hd : 0 < d) by (subst d; lia).
  assert (Hk : 0 < k).
  { destruct (Z_lt_le_dec 0 k) as [|Hle]; [assumption|exfalso].
    assert (2 ^ k <= 2 ^ 0) by (destruct (Z_lt_le_dec k 0);
      [rewrite Z.pow_neg_r by lia; cbn; lia|apply Z.pow_le_mono_r; lia]).
    change (2 ^ 0) with 1 in H. lia. }
  destruct (Z.lt_trichotomy d k) as [Hlt|[Heq|Hgt]]; [exfalso|exact Heq|exfalso].
  - assert (2 ^ d <= 2 ^ (k - 1)) by (apply Z.pow_le_mono_r; lia). lia.
  - assert (2 ^ k <= 2 ^ (d - 1)) by (apply Z.pow_le_mono_r; lia). lia.
Qed.

(** The square root of a number of [k] bits has [(k + 1) / 2] bits. *)
Lemma sqrt_digits (n : positive) :
  exists q : positive,
    Z.sqrt (Zpos n) = Zpos q
    /\ Zpos (digits2_pos q) = (Zpos (digits2_pos n) + 1) / 2.
Proof.
  destruct (digits2_bounds n) as [B1 B2].
  set (k := Zpos (digits2_pos n)) in *.
  assert (Hk : 0 < k) by (subst k; lia).
  set (j := (k + 1) / 2).
  assert (Hj : 2 * j - 1 <= k <= 2 * j)
    by (subst j; pose proof (Z.div_mod (k + 1) 2 ltac:(lia));
        pose proof (Z.mod_pos_bound (k + 1) 2 ltac:(lia)); lia).
  pose proof (Z.sqrt_spec (Zpos n) ltac:(lia)) as [S1 S2].
  pose proof (Z.sqrt_nonneg (Zpos n)) as S0.
  set (r := Z.sqrt (Zpos n)) in *.
  assert (L : 2 ^ (j - 1) <= r).
  { destruct (Z_lt_le_dec r (2 ^ (j - 1))) as [Hlt|]; [exfalso|assumption].
    assert (Hs : Z.succ r <= 2 ^ (j - 1)) by lia.
    assert (Hp : 0 <= 2 ^ (j - 1)) by (apply Z.pow_nonneg; lia).
    assert (Hsq : Z.succ r * Z.succ r <= 2 ^ (j - 1) * 2 ^ (j - 1))
      by (apply Z.mul_le_mono_nonneg; lia).
    rewrite <- Z.pow_add_r in Hsq by lia.
    assert (2 ^ (j - 1 + (j - 1)) <= 2 ^ (k - 1))
      by (apply Z.pow_le_mono_r; lia).
    lia. }
  assert (U : r < 2 ^ j).
  { destruct (Z_lt_le_dec r (2 ^ j)) as [|Hge]; [assumption|exfalso].
    assert (Hp : 0 <= 2 ^ j) by (apply Z.pow_nonneg; lia).
    assert (Hsq : 2 ^ j * 2 ^ j <= r * r)
      by (apply Z.mul_le_mono_nonneg; lia).
    rewrite <- Z.pow_add_r in Hsq by lia.
    assert (2 ^ k <= 2 ^ (j + j)) by (apply Z.pow_le_mono_r; lia).
    lia. }
  assert (Hr : 0 < r).
  { assert (0 < 2 ^ (j - 1)) by (apply Z.pow_pos_nonneg; lia). lia. }
  destruct r as [|q|q] eqn:Er; try lia.
  exists q. split; [reflexivity|]. apply digits2_unique. split; assumption.
Qed.

Lemma shiftl_digits (m : positive) (s : positive) :
  exists m' : positive,
    Z.shiftl (Zpos m) (Zpos s) = Zpos m'
    /\ Zpos (digits2_pos m') = Zpos (digits2_pos m) + Zpos s.
Proof.
  exists (Pos.iter xO m s). split.
  - cbn [Z.shiftl]. induction s as [|s IH] using Pos.peano_ind.
    + reflexivity.
    + rewrite !Pos.iter_succ, IH. reflexivity.
  - rewrite digits2_iter_xO. lia.
Qed.

(** The square root of a binary32 number is a well-formed binary32
    number. *)
Lemma sqrtf_valid (a : float) : valid (Accel.sqrtf a) = true.
Proof.
  unfold valid, Accel.sqrtf, SFsqrt, prec, emax.
  destruct a as [s|[|]| |[|] m e]; try reflexivity.
  unfold SFsqrt_core_binary. cbn [Zdigits2].
  set (d := Zpos (digits2_pos m)).
  set (e' := Z.min (fexp 24 128 (Z.div2 (d + e + 1))) (Z.div2 e)).
  assert (He : 2 * e' <= e).
  { subst e'. rewrite !Z.div2_div.
    pose proof (Z.div_mod e 2 ltac:(lia)).
    pose proof (Z.mod_pos_bound e 2 ltac:(lia)). lia. }
  assert (Hm' : exists m' : positive,
             match e - 2 * e' with
             | 0 => Z.pos m
             | Z.pos _ => Z.shiftl (Z.pos m) (e - 2 * e')
             | Z.neg _ => 0
             end = Zpos m'
             /\ Zpos (digits2_pos m') = d + (e - 2 * e')).
  { destruct (e - 2 * e') as [|p|p] eqn:Es; [| |lia].
    - exists m. split; [reflexivity|subst d; lia].
    - destruct (shiftl_digits m p) as [m' [E1 E2]].
      exists m'. split; [exact E1|subst d; lia]. }
  destruct Hm' as [m' [E1 E2]]. rewrite E1.
  destruct (sqrt_digits m') as [q [Q1 Q2]].
  pose proof (Z.sqrtrem_sqrt (Zpos m')) as Hq.
  destruct (Z.sqrtrem (Z.pos m')) as [q' r]. cbn [fst] in Hq.
  rewrite Hq, Q1.
  apply binary_round_aux_valid_at.
  rewrite Q2, E2.
  replace ((d + (e - 2 * e') + 1) / 2 + e') with (Z.div2 (d + e + 1)).
  - subst e'. lia.
  - rewrite Z.div2_div.
    replace (d + (e - 2 * e') + 1) with (d + e + 1 + (- e') * 2) by lia.
    rewrite Z.div_add by lia. lia.
Qed.

(** The magnitude that [loop()] computes is a well-formed binary32 number
    without sign. *)
Lemma totalAccOf_valid (ax ay az : Z) :
  Accel.nonneg (Accel.totalAccOf ax ay az) = true
  /\ valid (Accel.totalAccOf ax ay az) = true.
Proof.
  unfold Accel.totalAccOf, Accel.totalAccWith. cbv zeta.
  split; [apply sqrtf_nonneg, sum_of_squares_nonneg|apply sqrtf_valid].
Qed.


(** *** The whole iteration *)

(** The detector inside the firmware is [Controller.loop] on the samples
    read. *)
Lemma firmware_detector (l : list Firmware.Reads) (g : Firmware.Globals) :
  Firmware.detector (Firmware.run g l)
  = final (Firmware.detector g) (map Firmware.sampleOf l).
Proof.
  revert g. induction l as [|r l IH]; intros g; cbn [Firmware.run map final];
    [reflexivity|].
  rewrite IH. unfold Firmware.loop.
  destruct (loop (Firmware.detector g) (Firmware.sampleOf r)) as [s o].
  reflexivity.
Qed.

(** One iteration keeps the buzzer consistent. *)
Lemma firmware_loop_consistent (g : Firmware.Globals) (r : Firmware.Reads) :
  Buzzer.consistent (Firmware.buzzer g) ->
  Buzzer.consistent (Firmware.buzzer (Firmware.loop g r)).
Proof.
  intros H. unfold Firmware.loop.
  destruct (loop (Firmware.detector g) (Firmware.sampleOf r)) as [s o].
  cbn [Firmware.buzzer].
  destruct (inactivityAlert o);
    [apply startBuzzer_consistent; lia|].
  destruct (fallEvent o); [apply startBuzzer_consistent; lia|].
  apply handleBuzzer_consistent. exact H.
Qed.

(** X14 (buzzer invariant of the firmware).  In every state that
    [loop()] reaches from boot, whatever the sensor and the clock
    deliver, the buzzer pin is LOW when no pattern is running, and while
    one is running it has steps left and the pin is HIGH exactly when
    their number is even. *)
Theorem firmware_buzzer_consistent (l : list Firmware.Reads) :
  Buzzer.consistent (Firmware.buzzer (Firmware.run Firmware.boot l)).
Proof.
  assert (G : forall g, Buzzer.consistent (Firmware.buzzer g) ->
                        Buzzer.consistent (Firmware.buzzer (Firmware.run g l))).
  { induction l as [|r l IH]; intros g Hg; cbn [Firmware.run]; [exact Hg|].
    apply IH, firmware_loop_consistent, Hg. }
  apply G. reflexivity.
Qed.

(** Before the first fall nothing starts the buzzer and the string is
    untouched. *)
Lemma firmware_quiet_run (l : list Firmware.Reads) (g : Firmware.Globals) :
  Firmware.buzzer g = Buzzer.setup ->
  inactivityTriggered (Firmware.detector g) = false ->
  Forall noFall (outputs (Firmware.detector g) (map Firmware.sampleOf l)) ->
  Firmware.buzzer (Firmware.run g l) = Buzzer.setup
  /\ Firmware.lastFallTimeStr (Firmware.run g l) = Firmware.lastFallTimeStr g.
Proof.
  revert g. induction l as [|r l IH]; intros g Hb Ht Hl;
    cbn [Firmware.run map outputs] in *; [split; [exact Hb|reflexivity]|].
  inversion Hl as [|? ? Hn Hl']; subst.
  destruct (untriggered_run [Firmware.sampleOf r] _ Ht) as [Ha Ht'].
  { cbn [outputs]. constructor; [exact Hn|constructor]. }
  cbn [outputs final] in Ha, Ht'. inversion Ha as [|? ? Ha' _]; subst.
  unfold noFall in Hn. unfold noAlert in Ha'.
  assert (E : Firmware.loop g r
              = Firmware.mkGlobals
                  (fst (loop (Firmware.detector g) (Firmware.sampleOf r)))
                  Buzzer.setup (Firmware.lastFallTimeStr g)).
  { unfold Firmware.loop.
    destruct (loop (Firmware.detector g) (Firmware.sampleOf r)) as [s o].
    cbn [fst snd] in *. rewrite Hn, Ha', Hb. reflexivity. }
  rewrite E. destruct (IH (Firmware.mkGlobals
                             (fst (loop (Firmware.detector g)
                                        (Firmware.sampleOf r)))
                             Buzzer.setup (Firmware.lastFallTimeStr g)))
    as [I1 I2]; try assumption; try reflexivity.
  split; assumption.
Qed.

(** Once a fall has been detected the string has 8 characters. *)
Lemma firmware_string_length (l : list Firmware.Reads) (g : Firmware.Globals) :
  String.length (Firmware.lastFallTimeStr g) = 8%nat
  \/ Exists (fun o => fallEvent o = true)
       (outputs (Firmware.detector g) (map Firmware.sampleOf l)) ->
  String.length (Firmware.lastFallTimeStr (Firmware.run g l)) = 8%nat.
Proof.
  revert g. induction l as [|r l IH]; intros g H;
    cbn [Firmware.run map outputs] in *.
  - destruct H as [H|H]; [exact H|inversion H].
  - apply IH.
    assert (E : Firmware.detector (Firmware.loop g r)
                = fst (loop (Firmware.detector g) (Firmware.sampleOf r))
                /\ (fallEvent (snd (loop (Firmware.detector g)
                                         (Firmware.sampleOf r))) = true ->
                    String.length
                      (Firmware.lastFallTimeStr (Firmware.loop g r)) = 8%nat)
                /\ (String.length (Firmware.lastFallTimeStr g) = 8%nat ->
                    String.length
                      (Firmware.lastFallTimeStr (Firmware.loop g r)) = 8%nat)).
    { unfold Firmware.loop.
      destruct (loop (Firmware.detector g) (Firmware.sampleOf r)) as [s o].
      cbn [fst snd Firmware.detector Firmware.lastFallTimeStr].
      split; [reflexivity|]. split.
      - intros Ho. rewrite Ho. apply formatTime_8_chars.
      - intros Hg. destruct (fallEvent o);
          [apply formatTime_8_chars|exact Hg]. }
    destruct E as [E1 [E2 E3]]. rewrite E1.
    destruct H as [H|H]; [left; apply E3, H|].
    inversion H as [? ? Ho|? ? Hex]; subst;
      [left; apply E2, Ho|right; exact Hex].
Qed.

(** X15 (the fall time of the web page).  [lastFallTimeStr] reads N/A
    exactly as long as no iteration since boot has detected a fall; from
    the first detected fall on it is a time string of 8 characters.  As
    long as it reads N/A, nothing has started the buzzer. *)
Theorem fallTime_available_after_first_fall (l : list Firmware.Reads) :
  let g := Firmware.run Firmware.boot l in
  let falls := outputs boot (map Firmware.sampleOf l) in
  (Firmware.lastFallTimeStr g = TimeString.NOT_AVAILABLE
   <-> Forall noFall falls)
  /\ (Firmware.lastFallTimeStr g = TimeString.NOT_AVAILABLE
      \/ String.length (Firmware.lastFallTimeStr g) = 8%nat)
  /\ (Firmware.lastFallTimeStr g = TimeString.NOT_AVAILABLE ->
      Firmware.buzzer g = Buzzer.setup).
Proof.
  cbv zeta.
  destruct (Forall_Exists_dec noFall
              (fun o => bool_dec (fallEvent o) false)
              (outputs boot (map Firmware.sampleOf l))) as [Hall|Hex].
  - destruct (firmware_quiet_run l Firmware.boot eq_refl eq_refl Hall)
      as [Hb Hs].
    split; [split; [intros _; exact Hall|intros _; exact Hs]|].
    split; [left; exact Hs|intros _; exact Hb].
  - assert (Hex' : Exists (fun o => fallEvent o = true)
                     (outputs boot (map Firmware.sampleOf l))).
    { apply Exists_impl with (P := fun o => ~ noFall o); [|exact Hex].
      intros o Ho. unfold noFall in Ho. destruct (fallEvent o); congruence. }
    pose proof (firmware_string_length l Firmware.boot (or_intror Hex'))
      as Hlen.
    assert (Hne : Firmware.lastFallTimeStr (Firmware.run Firmware.boot l)
                  <> TimeString.NOT_AVAILABLE).
    { intros E. rewrite E in Hlen. discriminate Hlen. }
    split; [split; [intros E; contradiction|]|].
    + intros Hall. exfalso.
      apply Exists_exists in Hex. destruct Hex as [o [Hin Ho]].
      rewrite Forall_forall in Hall. exact (Ho (Hall o Hin)).
    + split; [right; exact Hlen|intros E; contradiction].
Qed.
(** Line 126: the reading becomes [lastAcc]. *)
Lemma loop_lastAcc (s : State) (x : Sample) :
  lastAcc (fst (loop s x)) = totalAcc x.
Proof.
  loop_cases; reflexivity.
Qed.

Lemma sampleOf_valid (r : Firmware.Reads) :
  valid (totalAcc (Firmware.sampleOf r)) = true.
Proof.
  unfold Firmware.sampleOf. cbn [totalAcc]. apply totalAccOf_valid.
Qed.

(** Every reading the firmware compares is a well-formed binary32
    number. *)
Lemma firmware_lastAcc_valid (l : list Firmware.Reads) (g : Firmware.Globals) :
  valid (lastAcc (Firmware.detector g)) = true ->
  valid (lastAcc (Firmware.detector (Firmware.run g l))) = true.
Proof.
  revert g. induction l as [|r l IH]; intros g Hg; cbn [Firmware.run];
    [exact Hg|].
  apply IH.
  pose proof (loop_lastAcc (Firmware.detector g) (Firmware.sampleOf r)) as Hs.
  unfold Firmware.loop.
  destruct (loop (Firmware.detector g) (Firmware.sampleOf r)) as [s o].
  cbn [Firmware.detector]. cbn [fst] in Hs.
  rewrite Hs. apply sampleOf_valid.
Qed.

Lemma ltb_leb (a b : spec_float) : ltb a b = true -> leb a b = true.
Proof.
  unfold ltb, leb, SFltb, SFleb.
  destruct (SFcompare a b) as [[| |]|]; congruence.
Qed.

(** X16 (the movement threshold in the firmware).  In every iteration
    that [loop()] runs from boot, whatever the sensor delivers, the
    difference between the reading and the previous one is never the
    [double] 0.05 itself: the test [> 0.05] of line 122 gives the same
    answer as a test for "at least 0.05". *)
Theorem movement_threshold_in_firmware
  (l : list Firmware.Reads) (r : Firmware.Reads) :
  let last := lastAcc (Firmware.detector (Firmware.run Firmware.boot l)) in
  let acc := totalAcc (Firmware.sampleOf r) in
  valid last = true /\ valid acc = true
  /\ leb MOVEMENT_DELTA (widen (fabs (sub acc last))) = moved acc last.
Proof.
  cbv zeta.
  assert (H1 : valid (lastAcc (Firmware.detector
                                 (Firmware.run Firmware.boot l))) = true)
    by (apply firmware_lastAcc_valid; reflexivity).
  pose proof (sampleOf_valid r) as H2.
  split; [exact H1|]. split; [exact H2|].
  pose proof (sub_valid _ _ H2 H1) as Hv.
  unfold moved.
  destruct (leb MOVEMENT_DELTA _) eqn:Hl.
  - symmetry. apply delta_ge_is_gt; assumption.
  - destruct (ltb MOVEMENT_DELTA _) eqn:Hg; [|reflexivity].
    apply ltb_leb in Hg. congruence.
Qed.

(** *** The receiver node *)

Ltac band_cases d :=
  unfold Receiver.OnDataRecv;
  destruct (Z.leb_spec d 100), (Z.leb_spec d 80), (Z.leb_spec d 60),
    (Z.leb_spec d 40), (Z.leb_spec d 20);
  destruct (Z.gtb_spec d 80), (Z.gtb_spec d 60), (Z.gtb_spec d 40),
    (Z.gtb_spec d 20);
  try lia; cbn.

(** The bands of lines 35-58, motor by motor. *)
Lemma motor_thresholds_aux (d : Z) :
  Receiver.MOTOR1 (Receiver.OnDataRecv d) = (d <=? 100)
  /\ Receiver.MOTOR2 (Receiver.OnDataRecv d) = (d <=? 80)
  /\ Receiver.MOTOR3 (Receiver.OnDataRecv d) = (d <=? 60)
  /\ Receiver.MOTOR4 (Receiver.OnDataRecv d) = (d <=? 40)
  /\ Receiver.MOTOR5 (Receiver.OnDataRecv d) = (d <=? 20).
Proof.
  band_cases d; repeat split.
Qed.

(** X17 (one threshold per motor).  After [OnDataRecv], motor [k] runs
    exactly when the distance received is at most [120 - 20 k].  The
    bands leave no gap, and there is no lower limit: every distance up to
    20, zero and negative ones included, runs all five motors; above 100
    none runs. *)
Theorem motor_thresholds (d : Z) :
  let m := Receiver.OnDataRecv d in
  Receiver.MOTOR1 m = (d <=? 100) /\ Receiver.MOTOR2 m = (d <=? 80)
  /\ Receiver.MOTOR3 m = (d <=? 60) /\ Receiver.MOTOR4 m = (d <=? 40)
  /\ Receiver.MOTOR5 m = (d <=? 20).
Proof.
  cbv zeta. split; [|split; [|split; [|split]]].
  - apply motor_thresholds_aux.
  - apply motor_thresholds_aux.
  - apply motor_thresholds_aux.
  - apply motor_thresholds_aux.
  - apply motor_thresholds_aux.
Qed.

Lemma running_leb_antitone (c d1 d2 : Z) :
  d1 <= d2 -> Receiver.running (d2 <=? c) <= Receiver.running (d1 <=? c).
Proof.
  intros H. unfold Receiver.running.
  destruct (Z.leb_spec d1 c), (Z.leb_spec d2 c); lia.
Qed.

(** X18 (nearer is stronger).  A smaller distance never runs fewer
    motors. *)
Theorem motorsOn_antitone (d1 d2 : Z) :
  d1 <= d2 ->
  Receiver.motorsOn (Receiver.OnDataRecv d2)
  <= Receiver.motorsOn (Receiver.OnDataRecv d1).
Proof.
  intros H. unfold Receiver.motorsOn.
  destruct (motor_thresholds_aux d1) as [A1 [A2 [A3 [A4 A5]]]].
  destruct (motor_thresholds_aux d2) as [B1 [B2 [B3 [B4 B5]]]].
  rewrite A1, A2, A3, A4, A5, B1, B2, B3, B4, B5.
  pose proof (running_leb_antitone 100 d1 d2 H).
  pose proof (running_leb_antitone 80 d1 d2 H).
  pose proof (running_leb_antitone 60 d1 d2 H).
  pose proof (running_leb_antitone 40 d1 d2 H).
  pose proof (running_leb_antitone 20 d1 d2 H).
  lia.
Qed.

Lemma motorsOn_antitone_witness :
  35 <= 72
  /\ Receiver.motorsOn (Receiver.OnDataRecv 72)
     <= Receiver.motorsOn (Receiver.OnDataRecv 35).
Proof.
  split; [lia|]. apply (motorsOn_antitone 35 72). lia.
Defined.
(** *** The transmitter node *)

(** An exhaustive evaluation: for every duration up to
    [TIMEOUT_DURATION] the [double] expression of line 68 gives
    [17 * duration / 1000], rounded down. *)
Lemma distance_scan :
  Transmitter.exact_from (Z.to_nat (Transmitter.TIMEOUT_DURATION + 1)) 0
  = true.
Proof.
  vm_compute. reflexivity.
Qed.

Lemma exact_from_spec (n : nat) (d0 d : Z) :
  Transmitter.exact_from n d0 = true -> d0 <= d < d0 + Z.of_nat n ->
  Transmitter.distance d = 17 * d / 1000.
Proof.
  revert d0. induction n as [|n IH]; intros d0 H Hd; [lia|].
  cbn [Transmitter.exact_from] in H. apply andb_true_iff in H.
  destruct H as [H1 H2].
  destruct (Z.eq_dec d d0) as [->|Hne]; [apply Z.eqb_eq, H1|].
  apply (IH (d0 + 1)); [exact H2|lia].
Qed.

Lemma distance_exact (duration : Z) :
  0 <= duration <= Transmitter.TIMEOUT_DURATION ->
  Transmitter.distance duration = 17 * duration / 1000.
Proof.
  intros H.
  apply (exact_from_spec (Z.to_nat (Transmitter.TIMEOUT_DURATION + 1)) 0);
    [exact distance_scan|].
  rewrite Z2Nat.id; unfold Transmitter.TIMEOUT_DURATION in *; lia.
Qed.

(** X19 (the distance sent).  For an echo pulse of up to
    [TIMEOUT_DURATION] (30000 microseconds) the distance computed in
    [double] and truncated to [int] is exactly 17 times the duration
    divided by 1000, rounded down: no rounding error of the
    floating-point operations reaches the integer.  A pulse of 0, which
    is what [pulseIn] returns when it times out, is sent as the
    distance 0. *)
Theorem distance_is_exact (duration : Z) :
  0 <= duration <= Transmitter.TIMEOUT_DURATION ->
  Transmitter.distance duration = 17 * duration / 1000
  /\ 0 <= Transmitter.distance duration <= 510
  /\ (Transmitter.distance duration = 0 <-> duration <= 58).
Proof.
  intros H. rewrite (distance_exact duration H).
  unfold Transmitter.TIMEOUT_DURATION in H.
  pose proof (Z.div_mod (17 * duration) 1000 ltac:(lia)).
  pose proof (Z.mod_pos_bound (17 * duration) 1000 ltac:(lia)).
  lia.
Qed.

(** The first pulse that is sent as 100 cm. *)
Lemma distance_is_exact_witness :
  0 <= 5883 <= Transmitter.TIMEOUT_DURATION
  /\ Transmitter.distance 5883 = 17 * 5883 / 1000.
Proof.
  assert (H : 0 <= 5883 <= Transmitter.TIMEOUT_DURATION)
    by (unfold Transmitter.TIMEOUT_DURATION; lia).
  split; [exact H|]. exact (proj1 (distance_is_exact 5883 H)).
Defined.

(** X20 (from the echo to the motors).  For an echo pulse of up to
    [TIMEOUT_DURATION], measured by the transmitter and handled by
    [OnDataRecv]:
    motor 1 runs up to 5941 microseconds, motor 2 up to 4764, motor 3 up
    to 3588, motor 4 up to 2411 and motor 5 up to 1235.  An echo that
    never arrives (a pulse of 0) runs all five motors, as an obstacle at
    contact does. *)
Theorem echo_to_motors (duration : Z) :
  0 <= duration <= Transmitter.TIMEOUT_DURATION ->
  let m := Receiver.OnDataRecv (Transmitter.distance duration) in
  Receiver.MOTOR1 m = (duration <=? 5941)
  /\ Receiver.MOTOR2 m = (duration <=? 4764)
  /\ Receiver.MOTOR3 m = (duration <=? 3588)
  /\ Receiver.MOTOR4 m = (duration <=? 2411)
  /\ Receiver.MOTOR5 m = (duration <=? 1235).
Proof.
  intros H. cbv zeta.
  destruct (motor_thresholds_aux (Transmitter.distance duration))
    as [A1 [A2 [A3 [A4 A5]]]].
  rewrite A1, A2, A3, A4, A5, (distance_exact duration H).
  unfold Transmitter.TIMEOUT_DURATION in H.
  pose proof (Z.div_mod (17 * duration) 1000 ltac:(lia)).
  pose proof (Z.mod_pos_bound (17 * duration) 1000 ltac:(lia)).
  repeat split;
    match goal with
    | |- (?a <=? ?b) = (?c <=? ?d) =>
        destruct (Z.leb_spec a b), (Z.leb_spec c d); reflexivity || lia
    end.
Qed.

(** No echo. *)
Lemma echo_to_motors_witness :
  0 <= 0 <= Transmitter.TIMEOUT_DURATION
  /\ Receiver.motorsOn (Receiver.OnDataRecv (Transmitter.distance 0)) = 5.
Proof.
  assert (H : 0 <= 0 <= Transmitter.TIMEOUT_DURATION)
    by (unfold Transmitter.TIMEOUT_DURATION; lia).
  split; [exact H|].
  destruct (echo_to_motors 0 H) as [A1 [A2 [A3 [A4 A5]]]].
  unfold Receiver.motorsOn. rewrite A1, A2, A3, A4, A5. reflexivity.
Defined.

(** *** The advanced transmitter: [sortArray] *)

Lemma compareSwap_cons (j : nat) (x : Z) (l : list Z) :
  AdvancedTransmitter.compareSwap (S j) (x :: l)
  = x :: AdvancedTransmitter.compareSwap j l.
Proof.
  unfold AdvancedTransmitter.compareSwap.
  change (nth_error (x :: l) (S j)) with (nth_error l j).
  change (nth_error (x :: l) (S (S j))) with (nth_error l (S j)).
  destruct (nth_error l j) as [a|]; [|reflexivity].
  destruct (nth_error l (S j)) as [b|]; [|reflexivity].
  destruct (a >? b); reflexivity.
Qed.

Lemma innerLoop_shift (n k : nat) (x : Z) (l : list Z) :
  fold_left (fun a j => AdvancedTransmitter.compareSwap j a)
            (seq (S k) n) (x :: l)
  = x :: fold_left (fun a j => AdvancedTransmitter.compareSwap j a)
                   (seq k n) l.
Proof.
  revert k l. induction n as [|n IH]; intros k l; cbn [seq fold_left];
    [reflexivity|].
  rewrite compareSwap_cons. apply IH.
Qed.

Lemma innerLoop_nil (n k : nat) :
  fold_left (fun a j => AdvancedTransmitter.compareSwap j a) (seq k n) [] = [].
Proof.
  revert k. induction n as [|n IH]; intros k; cbn [seq fold_left];
    [reflexivity|].
  replace (AdvancedTransmitter.compareSwap k []) with (@nil Z)
    by (unfold AdvancedTransmitter.compareSwap; destruct k; reflexivity).
  apply IH.
Qed.

(** The loop over the indices does what the recursion on the array
    does. *)
Lemma innerLoop_bubble (n : nat) (l : list Z) :
  AdvancedTransmitter.innerLoop n l = AdvancedTransmitter.bubble n l.
Proof.
  unfold AdvancedTransmitter.innerLoop. revert l.
  induction n as [|n IH]; intros l; [destruct l; reflexivity|].
  cbn [seq fold_left]. destruct l as [|a [|b r]].
  - cbn [AdvancedTransmitter.bubble]. apply innerLoop_nil.
  - cbn [AdvancedTransmitter.bubble].
    replace (AdvancedTransmitter.compareSwap 0 [a]) with [a] by reflexivity.
    rewrite innerLoop_shift, innerLoop_nil. reflexivity.
  - cbn [AdvancedTransmitter.bubble].
    unfold AdvancedTransmitter.compareSwap at 2. cbn [nth_error].
    destruct (a >? b); cbn [AdvancedTransmitter.store];
      rewrite innerLoop_shift, IH; reflexivity.
Qed.

Lemma bubble_perm (n : nat) (l : list Z) :
  Permutation l (AdvancedTransmitter.bubble n l).
Proof.
  revert l. induction n as [|n IH]; intros l;
    [destruct l; apply Permutation_refl|].
  destruct l as [|a [|b r]]; cbn [AdvancedTransmitter.bubble];
    try apply Permutation_refl.
  destruct (a >? b).
  - apply perm_trans with (b :: a :: r); [apply perm_swap|].
    apply perm_skip, IH.
  - apply perm_skip, IH.
Qed.

Lemma bubble_app (n : nat) (u s : list Z) :
  (n < length u)%nat ->
  AdvancedTransmitter.bubble n (u ++ s) = AdvancedTransmitter.bubble n u ++ s.
Proof.
  revert u. induction n as [|n IH]; intros u Hn.
  - destruct u, s; reflexivity.
  - destruct u as [|a [|b r]]; cbn [length] in Hn; try lia.
    cbn [app AdvancedTransmitter.bubble].
    destruct (a >? b).
    + change (a :: r ++ s) with ((a :: r) ++ s).
      rewrite (IH (a :: r)) by (cbn [length]; lia). reflexivity.
    + change (b :: r ++ s) with ((b :: r) ++ s).
      rewrite (IH (b :: r)) by (cbn [length]; lia). reflexivity.
Qed.

(** One pass moves the greatest element to the end. *)
Lemma bubble_max (n : nat) (l : list Z) :
  length l = S n ->
  exists p m, AdvancedTransmitter.bubble n l = p ++ [m]
              /\ Forall (fun x => x <= m) l.
Proof.
  revert l. induction n as [|n IH]; intros l Hl.
  - destruct l as [|a [|b r]]; try discriminate Hl.
    exists [], a. split; [reflexivity|]. constructor; [lia|constructor].
  - destruct l as [|a [|b r]]; try discriminate Hl.
    cbn [AdvancedTransmitter.bubble].
    destruct (Z.gtb_spec a b) as [Hab|Hab].
    + destruct (IH (a :: r)) as [p [m [E F]]]; [cbn [length] in *; lia|].
      exists (b :: p), m. rewrite E. split; [reflexivity|].
      inversion F as [|? ? Fa Fr]; subst.
      constructor; [exact Fa|]. constructor; [lia|exact Fr].
    + destruct (IH (b :: r)) as [p [m [E F]]]; [cbn [length] in *; lia|].
      exists (a :: p), m. rewrite E. split; [reflexivity|].
      inversion F as [|? ? Fb Fr]; subst.
      constructor; [lia|]. constructor; [exact Fb|exact Fr].
Qed.

(** The outer loop from pass [i] on: the unsorted part [u] shrinks by
    one element per pass, the sorted part [s] grows, and what lies behind
    the first [size] elements stays. *)
Lemma outer_passes (size k i : nat) (u s t : list Z) :
  length u = S k -> (i + k + 1 = size)%nat ->
  StronglySorted Z.le s ->
  Forall (fun x => Forall (fun y => x <= y) s) u ->
  exists r,
    fold_left (fun a i => AdvancedTransmitter.innerLoop (size - i - 1) a)
              (seq i k) (u ++ s ++ t) = r ++ t
    /\ StronglySorted Z.le r /\ Permutation (u ++ s) r.
Proof.
  revert i u s.
  induction k as [|k IH]; intros i u s Hu Hi Hs Hus.
  - cbn [seq fold_left]. exists (u ++ s).
    split; [rewrite app_assoc; reflexivity|].
    split; [|apply Permutation_refl].
    destruct u as [|a [|? ?]]; try discriminate Hu.
    cbn [app]. constructor; [exact Hs|].
    inversion Hus; subst. assumption.
  - cbn [seq fold_left].
    replace (size - i - 1)%nat with (S k) by lia.
    rewrite innerLoop_bubble, bubble_app by lia.
    destruct (bubble_max (S k) u Hu) as [p [m [E F]]].
    pose proof (bubble_perm (S k) u) as P. rewrite E in P.
    assert (Hp : length p = S k).
    { apply Permutation_length in P. rewrite length_app in P.
      cbn [length] in P. lia. }
    assert (Hin : forall x, In x (p ++ [m]) -> In x u)
      by (intros x Hx; apply (Permutation_in x (Permutation_sym P) Hx)).
    rewrite Forall_forall in Hus, F.
    rewrite E, <- app_assoc. cbn [app].
    destruct (IH (S i) p (m :: s) Hp ltac:(lia)) as [r [I0 [I1 I2]]].
    + constructor; [exact Hs|].
      apply Hus, Hin, in_or_app. right. left. reflexivity.
    + apply Forall_forall. intros x Hx.
      assert (Hxu : In x u) by (apply Hin, in_or_app; left; exact Hx).
      constructor; [apply F, Hxu|apply Hus, Hxu].
    + exists r. split; [exact I0|]. split; [exact I1|].
      apply perm_trans with (p ++ m :: s); [|exact I2].
      replace (p ++ m :: s) with ((p ++ [m]) ++ s)
        by (rewrite <- app_assoc; reflexivity).
      apply Permutation_app_tail. exact P.
Qed.

Lemma sortArray_prefix (u t : list Z) :
  exists r,
    AdvancedTransmitter.sortArray (u ++ t) (length u) = r ++ t
    /\ StronglySorted Z.le r /\ Permutation u r.
Proof.
  unfold AdvancedTransmitter.sortArray.
  destruct u as [|a u'].
  - exists []. cbn. split; [reflexivity|].
    split; [constructor|apply Permutation_refl].
  - destruct (outer_passes (length (a :: u')) (length u') 0 (a :: u') [] t)
      as [r [H0 [H1 H2]]].
    + reflexivity.
    + cbn [length]. lia.
    + constructor.
    + apply Forall_forall. intros; constructor.
    + exists r. rewrite app_nil_r in H2. cbn [app] in H0.
      replace (length (a :: u') - 1)%nat with (length u')
        by (cbn [length]; lia).
      split; [exact H0|]. split; assumption.
Qed.

Lemma sortArray_full (arr : list Z) :
  StronglySorted Z.le (AdvancedTransmitter.sortArray arr (length arr))
  /\ Permutation arr (AdvancedTransmitter.sortArray arr (length arr)).
Proof.
  destruct (sortArray_prefix arr []) as [r [H0 [H1 H2]]].
  rewrite !app_nil_r in H0. rewrite H0. split; assumption.
Qed.

(** X21 ([sortArray] sorts).  [sortArray(arr, size)] puts the first
    [size] elements of the array in ascending order, keeping each value
    as often as it occurs, and leaves the other elements where they
    are. *)
Theorem sortArray_sorts (arr : list Z) (size : nat) :
  (size <= length arr)%nat ->
  let r := AdvancedTransmitter.sortArray arr size in
  Sorted Z.le (firstn size r)
  /\ Permutation (firstn size arr) (firstn size r)
  /\ skipn size r = skipn size arr.
Proof.
  intros Hs. cbv zeta.
  destruct (sortArray_prefix (firstn size arr) (skipn size arr))
    as [r [H0 [H1 H2]]].
  rewrite firstn_skipn in H0. rewrite length_firstn in H0.
  replace (Nat.min size (length arr)) with size in H0 by lia.
  assert (Hr : length r = size).
  { apply Permutation_length in H2. rewrite length_firstn in H2. lia. }
  assert (F1 : firstn size r = r) by (rewrite <- Hr; apply firstn_all).
  assert (F2 : skipn size r = []) by (rewrite <- Hr; apply skipn_all).
  rewrite H0.
  rewrite firstn_app, skipn_app, F1, F2, Hr, Nat.sub_diag.
  cbn [firstn skipn app]. rewrite app_nil_r.
  split; [apply StronglySorted_Sorted, H1|]. split; [exact H2|reflexivity].
Qed.

(** Five of six elements sorted. *)
Lemma sortArray_sorts_witness :
  (5 <= length [40; 95; 38; 0; 41; 7])%nat
  /\ firstn 5 (AdvancedTransmitter.sortArray [40; 95; 38; 0; 41; 7] 5)
     = [0; 38; 40; 41; 95]
  /\ Sorted Z.le
       (firstn 5 (AdvancedTransmitter.sortArray [40; 95; 38; 0; 41; 7] 5)).
Proof.
  assert (H : (5 <= length [40; 95; 38; 0; 41; 7])%nat) by (cbn; lia).
  split; [exact H|]. split; [reflexivity|].
  exact (proj1 (sortArray_sorts [40; 95; 38; 0; 41; 7] 5 H)).
Defined.

(** *** The advanced transmitter: the distance filter *)

Ltac list_length :=
  repeat progress (rewrite ?length_app, ?repeat_length in *;
                   cbn [length] in * );
  try lia.

Lemma store_app (newer older : list Z) (a d : Z) :
  AdvancedTransmitter.store (length newer) d (newer ++ a :: older)
  = newer ++ d :: older.
Proof.
  induction newer as [|b newer IH]; cbn [length app AdvancedTransmitter.store];
    [reflexivity|rewrite IH; reflexivity].
Qed.

(** One call moves the window by one reading. *)
Lemma holds_step (size : nat) (d : Z) (f : AdvancedTransmitter.Filter)
  (w : list Z) :
  (0 < size <= 256)%nat ->
  AdvancedTransmitter.holds size f w ->
  AdvancedTransmitter.holds size
    (fst (AdvancedTransmitter.processSensorData size d f)) (tl w ++ [d]).
Proof.
  intros Hs [older [newer [E1 [E2 [E3 [E4 E5]]]]]].
  destruct older as [|a older]; [congruence|]. clear E5.
  unfold AdvancedTransmitter.processSensorData, AdvancedTransmitter.holds.
  cbn [fst AdvancedTransmitter.distanceReadings
       AdvancedTransmitter.readingIndex].
  rewrite E1, <- E2, store_app.
  subst w. cbn [app tl]. rewrite length_app in E4. cbn [length] in E4.
  destruct older as [|a2 older].
  - exists (newer ++ [d]), []. cbn [app length] in *.
    replace (length newer + 1)%nat with size by lia.
    rewrite Nat.Div0.mod_same. cbn [Nat.modulo].
    repeat split.
    + rewrite app_nil_r. reflexivity.
    + rewrite length_app. cbn [length]. lia.
    + destruct newer; discriminate.
  - exists (a2 :: older), (newer ++ [d]). cbn [length] in E4.
    rewrite (Nat.mod_small (length newer + 1) size) by lia.
    rewrite (Nat.mod_small (length newer + 1) 256) by lia.
    repeat split.
    + rewrite <- app_assoc. reflexivity.
    + rewrite length_app. cbn [length]. lia.
    + rewrite <- app_assoc. reflexivity.
    + list_length.
    + discriminate.
Qed.

Lemma lastn_slide (size : nat) (w l : list Z) :
  length w = size -> (0 < size)%nat ->
  fold_left (fun w d => tl w ++ [d]) l w
  = AdvancedTransmitter.lastn size (w ++ l).
Proof.
  revert w. induction l as [|d l IH]; intros w Hw Hs; cbn [fold_left].
  - unfold AdvancedTransmitter.lastn. rewrite app_nil_r, Hw, Nat.sub_diag.
    reflexivity.
  - destruct w as [|a w]; [cbn [length] in Hw; lia|]. cbn [tl].
    rewrite IH; [|rewrite length_app; cbn [length] in *; lia|exact Hs].
    unfold AdvancedTransmitter.lastn.
    rewrite <- app_assoc. cbn [app].
    cbn [length] in Hw.
    replace (length (a :: w ++ d :: l) - size)%nat
      with (S (length (w ++ d :: l) - size)) by list_length.
    reflexivity.
Qed.

Lemma holds_run (size : nat) (l : list Z) (f : AdvancedTransmitter.Filter)
  (w : list Z) :
  (0 < size <= 256)%nat ->
  AdvancedTransmitter.holds size f w ->
  AdvancedTransmitter.holds size (AdvancedTransmitter.filterRun size f l)
    (fold_left (fun w d => tl w ++ [d]) l w).
Proof.
  intros Hs. revert f w.
  induction l as [|d l IH]; intros f w H;
    cbn [AdvancedTransmitter.filterRun fold_left]; [exact H|].
  apply IH, holds_step; assumption.
Qed.

Lemma holds_init (size : nat) :
  (0 < size)%nat ->
  AdvancedTransmitter.holds size (AdvancedTransmitter.initFilter size)
    (repeat 0 size).
Proof.
  intros Hs. exists (repeat 0 size), [].
  cbn [AdvancedTransmitter.initFilter AdvancedTransmitter.distanceReadings
       AdvancedTransmitter.readingIndex app length].
  repeat split.
  - rewrite app_nil_r. reflexivity.
  - apply repeat_length.
  - destruct size; [lia|discriminate].
Qed.

Lemma holds_perm (size : nat) (f : AdvancedTransmitter.Filter) (w : list Z) :
  AdvancedTransmitter.holds size f w ->
  Permutation (AdvancedTransmitter.distanceReadings f) w
  /\ length (AdvancedTransmitter.distanceReadings f) = size
  /\ (AdvancedTransmitter.readingIndex f < size)%nat.
Proof.
  intros [older [newer [E1 [E2 [E3 [E4 E5]]]]]].
  rewrite E1, E3. split; [apply Permutation_app_comm|].
  subst w. rewrite length_app in *. split; [lia|].
  destruct older; [congruence|]. cbn [length] in E4. lia.
Qed.

(** What the ring holds after the readings [l], from the zero-initialised
    static array on. *)
Lemma window_after (size : nat) (l : list Z) :
  (0 < size <= 256)%nat ->
  AdvancedTransmitter.holds size
    (AdvancedTransmitter.filterRun size (AdvancedTransmitter.initFilter size) l)
    (AdvancedTransmitter.lastn size (repeat 0 size ++ l)).
Proof.
  intros Hs.
  rewrite <- (lastn_slide size (repeat 0 size) l (repeat_length 0 size))
    by lia.
  apply holds_run; [exact Hs|]. apply holds_init. lia.
Qed.

Lemma index_run (size : nat) (l : list Z) (f : AdvancedTransmitter.Filter) :
  (0 < size <= 256)%nat ->
  (AdvancedTransmitter.readingIndex f < size)%nat ->
  AdvancedTransmitter.readingIndex (AdvancedTransmitter.filterRun size f l)
  = ((AdvancedTransmitter.readingIndex f + length l) mod size)%nat.
Proof.
  intros Hs. revert f.
  induction l as [|d l IH]; intros f Hf;
    cbn [AdvancedTransmitter.filterRun length].
  - rewrite Nat.add_0_r, Nat.mod_small by exact Hf. reflexivity.
  - assert (E : AdvancedTransmitter.readingIndex
                  (fst (AdvancedTransmitter.processSensorData size d f))
                = ((AdvancedTransmitter.readingIndex f + 1) mod size)%nat).
    { cbn [AdvancedTransmitter.processSensorData fst
           AdvancedTransmitter.readingIndex].
      apply Nat.mod_small.
      pose proof (Nat.mod_upper_bound
                    (AdvancedTransmitter.readingIndex f + 1) size). lia. }
    rewrite IH; [|rewrite E; apply Nat.mod_upper_bound; lia].
    rewrite E, Nat.Div0.add_mod_idemp_l. f_equal. lia.
Qed.

(** X22 (the ring of readings).  After any number of calls of
    [processSensorData] the static array holds the last [FILTER_SIZE]
    readings, with zeros in the places no reading has reached yet, and
    the index is the number of calls modulo [FILTER_SIZE]. *)
Theorem ring_holds_last_readings (FILTER_SIZE : nat) (l : list Z) :
  (0 < FILTER_SIZE <= 256)%nat ->
  let f := AdvancedTransmitter.filterRun FILTER_SIZE
             (AdvancedTransmitter.initFilter FILTER_SIZE) l in
  Permutation (AdvancedTransmitter.distanceReadings f)
    (AdvancedTransmitter.lastn FILTER_SIZE (repeat 0 FILTER_SIZE ++ l))
  /\ length (AdvancedTransmitter.distanceReadings f) = FILTER_SIZE
  /\ AdvancedTransmitter.readingIndex f = (length l mod FILTER_SIZE)%nat.
Proof.
  intros Hs. cbv zeta.
  destruct (holds_perm _ _ _ (window_after FILTER_SIZE l Hs)) as [H1 [H2 _]].
  split; [exact H1|]. split; [exact H2|].
  rewrite index_run; [reflexivity|exact Hs|].
  cbn [AdvancedTransmitter.initFilter AdvancedTransmitter.readingIndex]. lia.
Qed.

(** Four readings into a ring of three. *)
Lemma ring_holds_last_readings_witness :
  (0 < 3 <= 256)%nat
  /\ Permutation
       (AdvancedTransmitter.distanceReadings
          (AdvancedTransmitter.filterRun 3 (AdvancedTransmitter.initFilter 3)
             [50; 48; 47; 120]))
       [48; 47; 120].
Proof.
  assert (H : (0 < 3 <= 256)%nat) by lia.
  split; [exact H|].
  exact (proj1 (ring_holds_last_readings 3 [50; 48; 47; 120] H)).
Defined.
Lemma count_app (p : Z -> bool) (a b : list Z) :
  AdvancedTransmitter.count p (a ++ b)
  = (AdvancedTransmitter.count p a + AdvancedTransmitter.count p b)%nat.
Proof.
  unfold AdvancedTransmitter.count. rewrite filter_app, length_app.
  reflexivity.
Qed.

Lemma count_perm (p : Z -> bool) (l l' : list Z) :
  Permutation l l' ->
  AdvancedTransmitter.count p l = AdvancedTransmitter.count p l'.
Proof.
  unfold AdvancedTransmitter.count. intros H.
  induction H as [|x l l' H IH|x y l|l l' l'' H1 IH1 H2 IH2]; cbn [filter].
  - reflexivity.
  - destruct (p x); cbn [length]; rewrite IH; reflexivity.
  - destruct (p x), (p y); reflexivity.
  - rewrite IH1. exact IH2.
Qed.

Lemma count_all (p : Z -> bool) (l : list Z) :
  Forall (fun x => p x = true) l ->
  AdvancedTransmitter.count p l = length l.
Proof.
  unfold AdvancedTransmitter.count. intros H.
  induction H as [|x l Hx H IH]; cbn [filter length]; [reflexivity|].
  rewrite Hx. cbn [length]. rewrite IH. reflexivity.
Qed.

Lemma count_disjoint (p q : Z -> bool) (l : list Z) :
  (forall x, p x = true -> q x = false) ->
  (AdvancedTransmitter.count p l + AdvancedTransmitter.count q l
   <= length l)%nat.
Proof.
  unfold AdvancedTransmitter.count. intros H.
  induction l as [|x l IH]; cbn [filter length]; [lia|].
  destruct (p x) eqn:Hp.
  - rewrite (H x Hp). cbn [length]. lia.
  - destruct (q x); cbn [length]; lia.
Qed.

Lemma sorted_prefix_le (r : list Z) (k : nat) :
  StronglySorted Z.le r -> (k < length r)%nat ->
  Forall (fun x => (x <=? nth k r 0) = true) (firstn (S k) r).
Proof.
  intros H. revert k.
  induction H as [|a r Hr IH Ha]; intros k Hk; [cbn [length] in Hk; lia|].
  destruct k as [|k].
  - cbn [firstn nth]. constructor; [apply Z.leb_refl|constructor].
  - change (firstn (S (S k)) (a :: r)) with (a :: firstn (S k) r).
    cbn [nth]. cbn [length] in Hk.
    constructor; [|apply IH; lia].
    apply Z.leb_le. rewrite Forall_forall in Ha. apply Ha, nth_In. lia.
Qed.

Lemma sorted_suffix_ge (r : list Z) (k : nat) :
  StronglySorted Z.le r -> (k < length r)%nat ->
  Forall (fun x => (nth k r 0 <=? x) = true) (skipn k r).
Proof.
  intros H. revert k.
  induction H as [|a r Hr IH Ha]; intros k Hk; [cbn [length] in Hk; lia|].
  destruct k as [|k].
  - cbn [skipn nth]. constructor; [apply Z.leb_refl|].
    apply Forall_forall. intros x Hx. apply Z.leb_le.
    rewrite Forall_forall in Ha. apply Ha, Hx.
  - cbn [skipn nth]. cbn [length] in Hk. apply IH. lia.
Qed.

(** The element in the middle of a sorted array is a median of it. *)
Lemma middle_is_median (r : list Z) (k : nat) :
  StronglySorted Z.le r -> (k < length r)%nat ->
  (k < AdvancedTransmitter.count (fun x => (x <=? nth k r 0)%Z) r)%nat
  /\ (length r - k
      <= AdvancedTransmitter.count (fun x => (nth k r 0 <=? x)%Z) r)%nat.
Proof.
  intros H Hk. split.
  - pose proof (count_all _ _ (sorted_prefix_le r k H Hk)) as C.
    set (p := fun x => x <=? nth k r 0) in *.
    replace (AdvancedTransmitter.count p r)
      with (AdvancedTransmitter.count p (firstn (S k) r ++ skipn (S k) r))
      by (rewrite firstn_skipn; reflexivity).
    rewrite count_app, C, length_firstn. lia.
  - pose proof (count_all _ _ (sorted_suffix_ge r k H Hk)) as C.
    set (p := fun x => nth k r 0 <=? x) in *.
    replace (AdvancedTransmitter.count p r)
      with (AdvancedTransmitter.count p (firstn k r ++ skipn k r))
      by (rewrite firstn_skipn; reflexivity).
    rewrite count_app, C, length_skipn. lia.
Qed.

Lemma filterRun_app (size : nat) (l1 l2 : list Z)
  (f : AdvancedTransmitter.Filter) :
  AdvancedTransmitter.filterRun size f (l1 ++ l2)
  = AdvancedTransmitter.filterRun size
      (AdvancedTransmitter.filterRun size f l1) l2.
Proof.
  revert f. induction l1 as [|d l1 IH]; intros f;
    cbn [app AdvancedTransmitter.filterRun]; [reflexivity|apply IH].
Qed.

(** The filtered distance in terms of the readings alone: it is the
    middle element of a sorted copy of the window. *)
Lemma filtered_distance (size : nat) (l : list Z) (d : Z) :
  (0 < size <= 256)%nat ->
  exists r,
    snd (AdvancedTransmitter.processSensorData size d
           (AdvancedTransmitter.filterRun size
              (AdvancedTransmitter.initFilter size) l))
    = nth (size / 2) r 0
    /\ StronglySorted Z.le r /\ length r = size
    /\ Permutation
         (AdvancedTransmitter.lastn size (repeat 0 size ++ l ++ [d])) r.
Proof.
  intros Hs.
  pose proof (window_after size (l ++ [d]) Hs) as H.
  rewrite filterRun_app in H. cbn [AdvancedTransmitter.filterRun] in H.
  destruct (holds_perm _ _ _ H) as [P [L _]].
  set (f := AdvancedTransmitter.filterRun size
              (AdvancedTransmitter.initFilter size) l) in *.
  unfold AdvancedTransmitter.processSensorData in *. cbn [fst snd] in *.
  cbn [AdvancedTransmitter.distanceReadings] in P, L.
  set (readings := AdvancedTransmitter.store
                     (AdvancedTransmitter.readingIndex f) d
                     (AdvancedTransmitter.distanceReadings f)) in *.
  destruct (sortArray_full readings) as [S1 S2]. rewrite L in S1, S2.
  exists (AdvancedTransmitter.sortArray readings size).
  split; [reflexivity|]. split; [exact S1|]. split.
  - rewrite <- (Permutation_length S2). exact L.
  - apply perm_trans with readings; [apply Permutation_sym, P|exact S2].
Qed.

(** X23 (the filtered distance is a median).  The distance that
    [processSensorData] stores is a median of the last [FILTER_SIZE]
    readings, the current one included (zeros standing for the readings
    not yet made): it is one of them, more than half of them are not
    above it, and at least half of them are not below it. *)
Theorem filtered_distance_is_median (FILTER_SIZE : nat) (l : list Z) (d : Z) :
  (0 < FILTER_SIZE <= 256)%nat ->
  let window :=
    AdvancedTransmitter.lastn FILTER_SIZE (repeat 0 FILTER_SIZE ++ l ++ [d]) in
  let filtered :=
    snd (AdvancedTransmitter.processSensorData FILTER_SIZE d
           (AdvancedTransmitter.filterRun FILTER_SIZE
              (AdvancedTransmitter.initFilter FILTER_SIZE) l)) in
  In filtered window
  /\ (FILTER_SIZE / 2
      < AdvancedTransmitter.count (fun x => (x <=? filtered)%Z) window)%nat
  /\ (FILTER_SIZE - FILTER_SIZE / 2
      <= AdvancedTransmitter.count (fun x => (filtered <=? x)%Z) window)%nat.
Proof.
  intros Hs. cbv zeta.
  destruct (filtered_distance FILTER_SIZE l d Hs) as [r [E [S1 [L P]]]].
  rewrite E.
  assert (Hk : (FILTER_SIZE / 2 < length r)%nat)
    by (rewrite L; apply Nat.div_lt; lia).
  destruct (middle_is_median r (FILTER_SIZE / 2) S1 Hk) as [M1 M2].
  rewrite L in M2.
  rewrite (count_perm _ _ _ P), (count_perm (fun x => _ <=? x) _ _ P).
  split; [|split; assumption].
  apply (Permutation_in _ (Permutation_sym P)), nth_In, Hk.
Qed.

(** A spike of 400 after five readings around 50. *)
Lemma filtered_distance_is_median_witness :
  (0 < 5 <= 256)%nat
  /\ In (snd (AdvancedTransmitter.processSensorData 5 400
                (AdvancedTransmitter.filterRun 5
                   (AdvancedTransmitter.initFilter 5) [50; 49; 51; 48; 47])))
        (AdvancedTransmitter.lastn 5
           (repeat 0 5 ++ [50; 49; 51; 48; 47] ++ [400])).
Proof.
  assert (H : (0 < 5 <= 256)%nat) by lia.
  split; [exact H|].
  exact (proj1 (filtered_distance_is_median 5 [50; 49; 51; 48; 47] 400 H)).
Defined.

(** A value that makes up more than half of a window is its median. *)
Lemma majority_is_median (r : list Z) (v : Z) :
  StronglySorted Z.le r -> (0 < length r)%nat ->
  (length r < 2 * AdvancedTransmitter.count (fun x => (x =? v)%Z) r)%nat ->
  nth (length r / 2) r 0 = v.
Proof.
  intros S1 Hl Hv.
  assert (Hk : (length r / 2 < length r)%nat) by (apply Nat.div_lt; lia).
  destruct (middle_is_median r (length r / 2) S1 Hk) as [M1 M2].
  set (m := nth (length r / 2) r 0) in *.
  pose proof (Nat.div_mod_eq (length r) 2) as D.
  pose proof (Nat.mod_upper_bound (length r) 2 ltac:(lia)) as D'.
  destruct (Z.lt_trichotomy m v) as [Hlt|[Heq|Hgt]]; [|exact Heq|].
  - pose proof (count_disjoint (fun x => x <=? m) (fun x => x =? v) r) as C.
    cbv beta in C.
    assert (Hd : forall x, (x <=? m) = true -> (x =? v) = false)
      by (intros x Hx; apply Z.leb_le in Hx; apply Z.eqb_neq; lia).
    specialize (C Hd). lia.
  - pose proof (count_disjoint (fun x => m <=? x) (fun x => x =? v) r) as C.
    cbv beta in C.
    assert (Hd : forall x, (m <=? x) = true -> (x =? v) = false)
      by (intros x Hx; apply Z.leb_le in Hx; apply Z.eqb_neq; lia).
    specialize (C Hd). lia.
Qed.

(** X24 (outliers are rejected).  When more than half of the last
    [FILTER_SIZE] readings have the same value, that value is the
    filtered distance, whatever the others are. *)
Theorem filter_follows_majority
  (FILTER_SIZE : nat) (l : list Z) (d v : Z) :
  (0 < FILTER_SIZE <= 256)%nat ->
  (FILTER_SIZE
   < 2 * AdvancedTransmitter.count (fun x => (x =? v)%Z)
           (AdvancedTransmitter.lastn FILTER_SIZE
              (repeat 0%Z FILTER_SIZE ++ l ++ [d])))%nat ->
  snd (AdvancedTransmitter.processSensorData FILTER_SIZE d
         (AdvancedTransmitter.filterRun FILTER_SIZE
            (AdvancedTransmitter.initFilter FILTER_SIZE) l)) = v.
Proof.
  intros Hs Hv.
  destruct (filtered_distance FILTER_SIZE l d Hs) as [r [E [S1 [L P]]]].
  rewrite E, <- L. apply majority_is_median; [exact S1|lia|].
  rewrite L, <- (count_perm _ _ _ P). exact Hv.
Qed.

(** Three readings of 50 among the last five. *)
Lemma filter_follows_majority_witness :
  (0 < 5 <= 256)%nat
  /\ snd (AdvancedTransmitter.processSensorData 5 50
            (AdvancedTransmitter.filterRun 5
               (AdvancedTransmitter.initFilter 5) [50; -1; 50; 50; 400]))
     = 50.
Proof.
  assert (H : (0 < 5 <= 256)%nat) by lia.
  split; [exact H|].
  apply (filter_follows_majority 5 [50; -1; 50; 50; 400] 50 50 H).
  cbn. lia.
Defined.

(** X25 (the filter starts at zero).  The static array starts as zeros:
    during the first calls, as long as the readings made are fewer than
    half of [FILTER_SIZE], the filtered distance is 0 whatever was
    read. *)
Theorem filter_starts_at_zero (FILTER_SIZE : nat) (l : list Z) (d : Z) :
  (0 < FILTER_SIZE <= 256)%nat ->
  (2 * (length l + 1) < FILTER_SIZE)%nat ->
  snd (AdvancedTransmitter.processSensorData FILTER_SIZE d
         (AdvancedTransmitter.filterRun FILTER_SIZE
            (AdvancedTransmitter.initFilter FILTER_SIZE) l)) = 0.
Proof.
  intros Hs Hn.
  destruct (filtered_distance FILTER_SIZE l d Hs) as [r [E [S1 [L P]]]].
  rewrite E, <- L. apply majority_is_median; [exact S1|lia|].
  rewrite L, <- (count_perm _ _ _ P).
  assert (W : AdvancedTransmitter.lastn FILTER_SIZE
                (repeat 0 FILTER_SIZE ++ l ++ [d])
              = repeat 0 (FILTER_SIZE - (length l + 1)) ++ l ++ [d]).
  { unfold AdvancedTransmitter.lastn.
    replace (length (repeat 0%Z FILTER_SIZE ++ l ++ [d]) - FILTER_SIZE)%nat
      with (length l + 1)%nat by list_length.
    replace (repeat 0 FILTER_SIZE)
      with (repeat 0 (length l + 1)
              ++ repeat 0 (FILTER_SIZE - (length l + 1)))
      by (rewrite <- repeat_app; f_equal; lia).
    rewrite <- app_assoc, skipn_app, repeat_length, Nat.sub_diag.
    rewrite skipn_all2 by (rewrite repeat_length; lia).
    reflexivity. }
  rewrite W, count_app, count_all.
  - rewrite repeat_length. lia.
  - apply Forall_forall. intros x Hx. apply repeat_spec in Hx. subst x.
    reflexivity.
Qed.

(** The second call of a filter of five. *)
Lemma filter_starts_at_zero_witness :
  (0 < 5 <= 256)%nat /\ (2 * (length [37] + 1) < 5)%nat
  /\ snd (AdvancedTransmitter.processSensorData 5 36
            (AdvancedTransmitter.filterRun 5
               (AdvancedTransmitter.initFilter 5) [37])) = 0.
Proof.
  assert (H1 : (0 < 5 <= 256)%nat) by lia.
  assert (H2 : (2 * (length [37] + 1) < 5)%nat) by (cbn; lia).
  split; [exact H1|]. split; [exact H2|].
  exact (filter_starts_at_zero 5 [37] 36 H1 H2).
Defined.

(** *** The advanced transmitter: the battery level *)

(** The level stored is the smaller of 100 and the value modulo 256. *)
Lemma batteryLevel_value (mapped : Z) :
  AdvancedTransmitter.batteryLevel mapped = Z.min 100 (mapped mod 256).
Proof.
  unfold AdvancedTransmitter.batteryLevel, AdvancedTransmitter.constrain,
    AdvancedTransmitter.to_uint8.
  pose proof (Z.mod_pos_bound mapped 256 ltac:(lia)) as H.
  destruct (Z.ltb_spec (mapped mod 256) 0); [lia|].
  destruct (Z.gtb_spec (mapped mod 256) 100).
  - rewrite Z.min_l by lia. reflexivity.
  - rewrite Z.min_r by lia. apply Z.mod_small. lia.
Qed.

(** X26 (a battery below the range reads full).  [readBattery] casts the
    value of [map] to [uint8_t] before it applies [constrain].  A value
    from -156 to -1, as [map] returns it below the lower end of its
    input range, is stored as a level of 100, and the test that raises
    [ERROR_BATTERY] is false on it. *)
Theorem battery_below_range_reads_full (mapped : Z) :
  -156 <= mapped <= -1 ->
  AdvancedTransmitter.batteryLevel mapped = 100
  /\ AdvancedTransmitter.batteryError
       (AdvancedTransmitter.batteryLevel mapped) = false.
Proof.
  intros H.
  assert (E : mapped mod 256 = mapped + 256)
    by (symmetry; apply Z.mod_unique_pos with (q := -1); lia).
  rewrite batteryLevel_value, E.
  rewrite Z.min_l by lia. split; reflexivity.
Qed.

(** A mapped value of -42. *)
Lemma battery_below_range_reads_full_witness :
  -156 <= -42 <= -1 /\ AdvancedTransmitter.batteryLevel (-42) = 100.
Proof.
  assert (H : -156 <= -42 <= -1) by lia.
  split; [exact H|]. exact (proj1 (battery_below_range_reads_full (-42) H)).
Defined.
